(** * Twisted: the JSON log-event codec and the file password database

    A shallow embedding of

    - [twisted/python/logger/_json.py]: [failureAsJSON], [failureFromJSON],
      [classInfo], [uuidToLoader], [objectLoadHook], [objectSaveHook],
      [eventAsJSON], [eventFromJSON], [eventsFromJSONLogFile];
    - [twisted/cred/checkers.py]: [FilePasswordDB._loadCredentials] and
      [FilePasswordDB.getUser].

    The code is modelled as it runs on Python 3: [bytes is str] is false,
    and [Failure.__new__] exists, so that [asBytes] is never called.
    Python exceptions are values of [exn]; a computation that may raise
    returns a [result]; a generator is the trace [gen] of what it yields.
    Python values are the trees of [pyobj]: a value is not shared between
    two places and does not hold itself.  The [json] and [uuid] modules of
    the standard library are modelled as far as the code uses them. *)

From Stdlib Require Import ZArith List Lia Bool.
From Stdlib Require Strings.String.
From Stdlib Require Import Strings.Byte.
Import String.StringSyntax.
Delimit Scope string_scope with string.
From Stdlib Require Import DecimalZ DecimalN DecimalPos DecimalFacts.
Import ListNotations.
Open Scope Z_scope.
Set Warnings "-register-all".

(** ** Exceptions and results *)

(** The exception classes the modelled code can raise.  [ValueError] stands
    for the class and its subclasses ([json.JSONDecodeError],
    [UnicodeDecodeError]): the code only ever tests [except ValueError].
    [OSError] is Python 3's [IOError]. *)
Inductive exn : Type :=
| ValueError
| KeyError
| TypeError
| AttributeError
| IndexError
| OSError
| RecursionError
| UnauthorizedLogin.

Inductive result (A : Type) : Type :=
| Ok (a : A)
| Raise (e : exn).
Arguments Ok {A} a.
Arguments Raise {A} e.

Definition bind {A B : Type} (r : result A) (k : A -> result B) : result B :=
  match r with
  | Ok a => k a
  | Raise e => Raise e
  end.

Notation "x <- r ;; k" := (bind r (fun x => k))
  (at level 61, r at next level, right associativity).
Notation "' p <- r ;; k" := (bind r (fun p => k))
  (at level 61, p pattern, r at next level, right associativity).

(** ** Bytes and text *)

(** A [bytes] or [bytearray] value. *)
Definition bytes : Type := list byte.

(** A [str] value: its code points. *)
Definition text : Type := list Z.

Fixpoint bytes_eqb (a b : bytes) : bool :=
  match a, b with
  | [], [] => true
  | x :: a', y :: b' => Byte.eqb x y && bytes_eqb a' b'
  | _, _ => false
  end.

Fixpoint text_eqb (a b : text) : bool :=
  match a, b with
  | [], [] => true
  | x :: a', y :: b' => Z.eqb x y && text_eqb a' b'
  | _, _ => false
  end.

Definition byte_code (b : byte) : Z := Z.of_N (Byte.to_N b).

(** The bytes of an ASCII literal, and the text of one. *)
Definition b_ (s : String.string) : bytes := String.list_byte_of_string s.
Definition u_ (s : String.string) : text := map byte_code (b_ s).
Arguments b_ s%_string.
Arguments u_ s%_string.

(** ** Python sequences, generators and dictionaries *)

(** [s[i]] with Python's indexing: a negative index counts from the end,
    and an index out of range raises [IndexError]. *)
Definition getitem {A : Type} (l : list A) (i : Z) : result A :=
  let n := Z.of_nat (length l) in
  let j := if i <? 0 then i + n else i in
  if (0 <=? j) && (j <? n)
  then match nth_error l (Z.to_nat j) with
       | Some x => Ok x
       | None => Raise IndexError
       end
  else Raise IndexError.

(** What a generator does when it is run to its end: the values it yields,
    in order, until it returns ([Stop]) or an exception leaves it
    ([Throw]).  A consumer that stops early sees a prefix only. *)
Inductive gen (A : Type) : Type :=
| Stop
| Yield (a : A) (g : gen A)
| Throw (e : exn).
Arguments Stop {A}.
Arguments Yield {A} a g.
Arguments Throw {A} e.

Fixpoint yielded {A : Type} (g : gen A) : list A :=
  match g with
  | Yield a g' => a :: yielded g'
  | _ => []
  end.

Fixpoint outcome {A : Type} (g : gen A) : option exn :=
  match g with
  | Stop => None
  | Yield _ g' => outcome g'
  | Throw e => Some e
  end.

Fixpoint starts_with (p s : bytes) : bool :=
  match p, s with
  | [], _ => true
  | x :: p', y :: s' => Byte.eqb x y && starts_with p' s'
  | _ :: _, [] => false
  end.

(** [bytes.split(sep)] for a non-empty [sep], scanning left to right:
    [skip] bytes of a separator just found are still to be passed over and
    [cur] is the current piece, reversed. *)
Fixpoint split_from (sep : bytes) (skip : nat) (cur : bytes) (s : bytes)
  : list bytes :=
  match s with
  | [] => [rev cur]
  | c :: r =>
      match skip with
      | S k => split_from sep k cur r
      | O =>
          if starts_with sep s
          then rev cur :: split_from sep (length sep - 1) [] r
          else split_from sep O (c :: cur) r
      end
  end.

(** [s.split(sep)]: an empty separator raises [ValueError]. *)
Definition split (s sep : bytes) : result (list bytes) :=
  match sep with
  | [] => Raise ValueError
  | _ :: _ => Ok (split_from sep O [] s)
  end.

(** A [dict] with keys of type [K]: its items in insertion order.
    [dict_set] is [d[k] = v]: an existing key keeps its place. *)
Section Dict.
Context {K V : Type} (keq : K -> K -> bool).

Fixpoint dict_get (k : K) (d : list (K * V)) : option V :=
  match d with
  | [] => None
  | (k', v) :: d' => if keq k k' then Some v else dict_get k d'
  end.

Fixpoint dict_set (k : K) (v : V) (d : list (K * V)) : list (K * V) :=
  match d with
  | [] => [(k, v)]
  | (k', v') :: d' =>
      if keq k k' then (k', v) :: d' else (k', v') :: dict_set k v d'
  end.

(** [dict(items)] *)
Definition dict_of_items (items : list (K * V)) : list (K * V) :=
  fold_left (fun d kv => dict_set (fst kv) (snd kv) d) items [].
End Dict.

(** ** twisted/cred/checkers.py: [FilePasswordDB] *)

Module FilePasswordDB.

(** The file named [self.filename], as the operating system shows it:
    its last-modified time and its contents; [None] when there is no
    such file to open. *)
Record file : Type := { mtime : Z; data : bytes }.

Record t : Type := {
  delim : bytes;
  ufield : Z;
  pfield : Z;
  caseSensitive : bool;
  cache : bool;
  _credCache : option (list (bytes * bytes));
  _cacheTimestamp : Z
}.

(** [FilePasswordDB(filename, delim, usernameField, passwordField,
    caseSensitive, cache=cache)]; the class attributes give
    [_credCache = None] and [_cacheTimestamp = 0]. *)
Definition __init__ (delim : bytes) (usernameField passwordField : Z)
           (caseSensitive cache : bool) : t :=
  {| delim := delim; ufield := usernameField; pfield := passwordField;
     caseSensitive := caseSensitive; cache := cache;
     _credCache := None; _cacheTimestamp := 0 |}.

(** The defaults of [__init__]: [delim=b":"], [usernameField=0],
    [passwordField=1], [caseSensitive=True], [cache=False]. *)
Definition default : t := __init__ (b_ ":") 0 1 true false.

(** Iterating a file opened in binary mode: the lines, each with its
    line feed; [cur] is the current line, reversed. *)
Fixpoint readlines_from (cur : bytes) (s : bytes) : list bytes :=
  match s with
  | [] => match cur with [] => [] | _ :: _ => [rev cur] end
  | c :: r =>
      if Byte.eqb c x0a
      then rev (c :: cur) :: readlines_from [] r
      else readlines_from (c :: cur) r
  end.

Definition readlines (s : bytes) : list bytes := readlines_from [] s.

(** ASCII whitespace, as [bytes.rstrip()] strips it. *)
Definition is_space (c : byte) : bool :=
  match c with
  | x20 | x09 | x0a | x0d | x0b | x0c => true
  | _ => false
  end.

Fixpoint lstrip (s : bytes) : bytes :=
  match s with
  | c :: r => if is_space c then lstrip r else s
  | [] => []
  end.

Definition rstrip (s : bytes) : bytes := rev (lstrip (rev s)).

(** [bytes.lower()]: the ASCII capitals are lowered. *)
Definition lower_byte (c : byte) : byte :=
  let n := Byte.to_N c in
  if (65 <=? n)%N && (n <=? 90)%N
  then match Byte.of_N (n + 32) with Some c' => c' | None => c end
  else c.

Definition lower (s : bytes) : bytes := map lower_byte s.

(** The body of the [for line in f] loop of [_loadCredentials]. *)
Fixpoint load_lines (self : t) (lines : list bytes) : gen (bytes * bytes) :=
  match lines with
  | [] => Stop
  | line :: rest =>
      let line := rstrip line in
      match split line (delim self) with
      | Raise e => Throw e
      | Ok parts =>
          let n := Z.of_nat (length parts) in
          if (n <=? ufield self) || (n <=? pfield self)
          then load_lines self rest
          else
            match getitem parts (ufield self), getitem parts (pfield self) with
            | Ok u, Ok p =>
                Yield (if caseSensitive self then u else lower u, p)
                      (load_lines self rest)
            | Raise e, _ => Throw e
            | Ok _, Raise e => Throw e
            end
      end
  end.

(** [_loadCredentials]: an [IOError] on opening the file is logged and
    replaced by [UnauthorizedLogin]; other exceptions pass. *)
Definition _loadCredentials (self : t) (fs : option file)
  : gen (bytes * bytes) :=
  match fs with
  | None => Throw UnauthorizedLogin
  | Some f => load_lines self (readlines (data f))
  end.

(** [for u, p in ...: if u == username: return u, p] and then
    [raise KeyError(username)]. *)
Fixpoint first_match (username : bytes) (g : gen (bytes * bytes))
  : result (bytes * bytes) :=
  match g with
  | Stop => Raise KeyError
  | Throw e => Raise e
  | Yield (u, p) g' =>
      if bytes_eqb u username then Ok (u, p) else first_match username g'
  end.

(** [dict(generator)] *)
Fixpoint dict_of_gen (g : gen (bytes * bytes)) (d : list (bytes * bytes))
  : result (list (bytes * bytes)) :=
  match g with
  | Stop => Ok d
  | Throw e => Raise e
  | Yield (u, p) g' => dict_of_gen g' (dict_set bytes_eqb u p d)
  end.

(** [getUser]: the result and the object afterwards. *)
Definition getUser (self : t) (fs : option file) (username : bytes)
  : result (bytes * bytes) * t :=
  let username := if caseSensitive self then username else lower username in
  if cache self then
    match fs with
    | None => (Raise OSError, self)
    | Some f =>
        let stale :=
          match _credCache self with
          | None => true
          | Some _ => _cacheTimestamp self <? mtime f
          end in
        let reloaded :=
          if stale then
            let self1 :=
              {| delim := delim self; ufield := ufield self;
                 pfield := pfield self; caseSensitive := caseSensitive self;
                 cache := cache self; _credCache := _credCache self;
                 _cacheTimestamp := mtime f |} in
            match dict_of_gen (_loadCredentials self fs) [] with
            | Raise e => (Some e, self1)
            | Ok d =>
                (None,
                 {| delim := delim self; ufield := ufield self;
                    pfield := pfield self;
                    caseSensitive := caseSensitive self;
                    cache := cache self; _credCache := Some d;
                    _cacheTimestamp := mtime f |})
            end
          else (None, self) in
        match reloaded with
        | (Some e, self') => (Raise e, self')
        | (None, self') =>
            match _credCache self' with
            | None => (Raise TypeError, self')
            | Some d =>
                match dict_get bytes_eqb username d with
                | Some p => (Ok (username, p), self')
                | None => (Raise KeyError, self')
                end
            end
        end
    end
  else (first_match username (_loadCredentials self fs), self).

(** The line is too short for one of the two configured fields: the test
    of [_loadCredentials], on the parts the line splits into. *)
Definition too_short (self : t) (line : bytes) : Prop :=
  let n := Z.of_nat (length (split_from (delim self) O [] (rstrip line))) in
  n <= ufield self \/ n <= pfield self.

(** The entry a line that is long enough yields. *)
Definition yields (self : t) (line : bytes) (u p : bytes) : Prop :=
  let parts := split_from (delim self) O [] (rstrip line) in
  ~ too_short self line /\
  exists u0, getitem parts (ufield self) = Ok u0 /\
             getitem parts (pfield self) = Ok p /\
             u = (if caseSensitive self then u0 else lower u0).

(** The file of the example: the one line [alice:secret] and its line
    feed. *)
Definition alice_file (mt : Z) : file :=
  {| mtime := mt; data := b_ "alice:secret" ++ [x0a] |}.

(** A file with a line too short for the password field before the line
    of [alice]. *)
Definition short_line_file : file :=
  {| mtime := 0;
     data := b_ "nopassword" ++ [x0a] ++ b_ "alice:secret" ++ [x0a] |}.

End FilePasswordDB.

(** ** Python objects *)

(** A [float], written by the decimal literal that stands for it in JSON
    text (what [float.__repr__] writes and [float()] reads):
    an optional minus sign, the integer digits, the digits of the fraction
    if there is one, and the exponent if there is one, with its sign
    character ([None]: no sign, [Some false]: plus, [Some true]: minus).
    Two literals may stand for one float: equality of [pyfloat] is finer
    than Python's. *)
Inductive pyfloat : Type :=
| FNaN
| FInf (neg : bool)
| FLit (neg : bool) (ip : Decimal.uint) (frac : option Decimal.uint)
       (ex : option (option bool * Decimal.uint)).

(** Modelled from the spec: the fixed enumeration of log levels
    ([twisted/python/logger/_levels.py] is not under src/).  Its members
    are named constants, each known by its name. *)
Inductive LogLevel : Type := debug | info | warn | error | critical.

(** The values the codec meets.
    - [PyLogLevel l]: the [NamedConstant] [l] of [LogLevel];
    - [PyFailure state type]: a [Failure].  Modelled from the spec
      ([twisted/python/failure.py] is not under src/): an error record
      that holds a state mapping, which is its attribute dictionary and
      what [__getstate__()] returns, and a type descriptor, its [type]
      attribute;
    - [PyType name ns]: a class called [name] whose attributes are [ns];
    - [PyObject id]: any other object. *)
Inductive pyobj : Type :=
| PyNone
| PyBool (b : bool)
| PyInt (z : Z)
| PyFloat (f : pyfloat)
| PyStr (s : text)
| PyBytes (b : bytes)
| PyList (l : list pyobj)
| PyDict (d : list (pyobj * pyobj))
| PyLogLevel (l : LogLevel)
| PyFailure (state : list (pyobj * pyobj)) (type : pyobj)
| PyType (name : text) (ns : list (pyobj * pyobj))
| PyObject (id : Z).

Definition pydict : Type := list (pyobj * pyobj).

(** [k == o] for a [str] [k]: a [str] equals only a [str] of the same
    code points.  As a key comparison it is used with a [str] on one side
    at least. *)
Definition key_eqb (k o : pyobj) : bool :=
  match k, o with
  | PyStr a, PyStr b => text_eqb a b
  | _, _ => false
  end.

(** [d[k]] and [k in d] for a [str] key. *)
Definition py_get (k : text) (d : pydict) : option pyobj :=
  dict_get key_eqb (PyStr k) d.

Definition py_set (k : text) (v : pyobj) (d : pydict) : pydict :=
  dict_set key_eqb (PyStr k) v d.

Definition py_has (k : text) (d : pydict) : bool :=
  match py_get k d with Some _ => true | None => false end.

(** [d[k]], raising [KeyError] when [k] is missing. *)
Definition py_item (k : text) (d : pydict) : result pyobj :=
  match py_get k d with Some v => Ok v | None => Raise KeyError end.

Definition LogLevel_name (l : LogLevel) : text :=
  match l with
  | debug => u_ "debug"
  | info => u_ "info"
  | warn => u_ "warn"
  | error => u_ "error"
  | critical => u_ "critical"
  end.

(** Modelled from the spec: [getattr(LogLevel, name, None)], the member of
    the enumeration called [name], or [None] when no member is. *)
Definition LogLevel_getattr (name : text) : pyobj :=
  if text_eqb name (u_ "debug") then PyLogLevel debug
  else if text_eqb name (u_ "info") then PyLogLevel info
  else if text_eqb name (u_ "warn") then PyLogLevel warn
  else if text_eqb name (u_ "error") then PyLogLevel error
  else if text_eqb name (u_ "critical") then PyLogLevel critical
  else PyNone.

(** ** The [json] module: [dumps] *)

(** [json.dumps(o, default=default, skipkeys=True)] with the other options
    at their defaults: [ensure_ascii=True], [allow_nan=True], the
    separators [", "] and [": "], keys in insertion order. *)

Definition hexdigit (v : Z) : Z := if v <? 10 then 48 + v else 87 + v.

(** The escape [\uXXXX] of a code unit. *)
Definition u_escape (c : Z) : text :=
  [92; 117; hexdigit (c / 4096 mod 16); hexdigit (c / 256 mod 16);
   hexdigit (c / 16 mod 16); hexdigit (c mod 16)].

(** One code point of a string, as [ensure_ascii] writes it: the short
    escapes, printable ASCII as it is, [\uXXXX] for the rest of the basic
    plane and a surrogate pair above it. *)
Definition escape_char (c : Z) : text :=
  if c =? 34 then [92; 34]
  else if c =? 92 then [92; 92]
  else if c =? 10 then [92; 110]
  else if c =? 13 then [92; 114]
  else if c =? 9 then [92; 116]
  else if c =? 8 then [92; 98]
  else if c =? 12 then [92; 102]
  else if (32 <=? c) && (c <=? 126) then [c]
  else if c <? 65536 then u_escape c
  else
    let v := c - 65536 in
    u_escape (55296 + v / 1024 mod 1024) ++ u_escape (56320 + v mod 1024).

Definition encode_basestring_ascii (s : text) : text :=
  34 :: flat_map escape_char s ++ [34].

Fixpoint uint_text (u : Decimal.uint) : text :=
  match u with
  | Decimal.Nil => []
  | Decimal.D0 u' => 48 :: uint_text u'
  | Decimal.D1 u' => 49 :: uint_text u'
  | Decimal.D2 u' => 50 :: uint_text u'
  | Decimal.D3 u' => 51 :: uint_text u'
  | Decimal.D4 u' => 52 :: uint_text u'
  | Decimal.D5 u' => 53 :: uint_text u'
  | Decimal.D6 u' => 54 :: uint_text u'
  | Decimal.D7 u' => 55 :: uint_text u'
  | Decimal.D8 u' => 56 :: uint_text u'
  | Decimal.D9 u' => 57 :: uint_text u'
  end.

(** [int.__repr__] *)
Definition int_repr (z : Z) : text :=
  match Z.to_int z with
  | Decimal.Pos u => uint_text u
  | Decimal.Neg u => 45 :: uint_text u
  end.

(** The fraction and the exponent of a float literal. *)
Definition frac_text (frac : option Decimal.uint) : text :=
  match frac with
  | Some d => 46 :: uint_text d
  | None => []
  end.

Definition sign_text (sg : option bool) : text :=
  match sg with
  | None => []
  | Some false => [43]
  | Some true => [45]
  end.

Definition exp_text (ex : option (option bool * Decimal.uint)) : text :=
  match ex with
  | Some (sg, d) => 101 :: sign_text sg ++ uint_text d
  | None => []
  end.

(** [float.__repr__], with [NaN], [Infinity] and [-Infinity] as [json]
    writes them. *)
Definition float_repr (f : pyfloat) : text :=
  match f with
  | FNaN => u_ "NaN"
  | FInf false => u_ "Infinity"
  | FInf true => u_ "-Infinity"
  | FLit neg ip frac ex =>
      (if neg then [45] else []) ++ uint_text ip ++ frac_text frac ++ exp_text ex
  end.

Fixpoint join (sep : text) (l : list text) : text :=
  match l with
  | [] => []
  | [x] => x
  | x :: l' => x ++ sep ++ join sep l'
  end.

Fixpoint map_result {A B : Type} (f : A -> result B) (l : list A)
  : result (list B) :=
  match l with
  | [] => Ok []
  | x :: l' => y <- f x ;; ys <- map_result f l' ;; Ok (y :: ys)
  end.

(** The text of a dictionary key: a [str] as it is, a number, a boolean or
    [None] by its JSON text; any other key is skipped ([skipkeys=True]). *)
Definition key_text (k : pyobj) : option text :=
  match k with
  | PyStr s => Some s
  | PyFloat f => Some (float_repr f)
  | PyBool true => Some (u_ "true")
  | PyBool false => Some (u_ "false")
  | PyNone => Some (u_ "null")
  | PyInt z => Some (int_repr z)
  | _ => None
  end.

Section Dumps.
(** The [default] argument: called on an object [json] cannot write. *)
Variable default : pyobj -> result pyobj.

(** The items of a dictionary, each as [key: value]. *)
Fixpoint encode_items (enc : pyobj -> result text) (d : pydict)
  : result (list text) :=
  match d with
  | [] => Ok []
  | (k, v) :: d' =>
      match key_text k with
      | None => encode_items enc d'
      | Some kt =>
          vt <- enc v ;;
          rest <- encode_items enc d' ;;
          Ok ((encode_basestring_ascii kt ++ [58; 32] ++ vt) :: rest)
      end
  end.

(** [JSONEncoder.iterencode], its chunks joined.  [fuel] bounds the depth
    of the calls; running out of it is shown as [RecursionError], which
    [dumps] below never does. *)
Fixpoint iterencode (fuel : nat) (o : pyobj) : result text :=
  match fuel with
  | O => Raise RecursionError
  | S n =>
      match o with
      | PyStr s => Ok (encode_basestring_ascii s)
      | PyNone => Ok (u_ "null")
      | PyBool true => Ok (u_ "true")
      | PyBool false => Ok (u_ "false")
      | PyInt z => Ok (int_repr z)
      | PyFloat f => Ok (float_repr f)
      | PyList l =>
          items <- map_result (iterencode n) l ;;
          Ok ([91] ++ join [44; 32] items ++ [93])
      | PyDict d =>
          items <- encode_items (iterencode n) d ;;
          Ok ([123] ++ join [44; 32] items ++ [125])
      | _ => o' <- default o ;; iterencode n o'
      end
  end.
End Dumps.

(** The depth of nesting of an object; a [Failure] counts for the
    dictionary that stands for it, with the module of its type in it. *)
Fixpoint height (o : pyobj) : nat :=
  match o with
  | PyList l => S (fold_right (fun x m => Nat.max (height x) m) O l)
  | PyDict d => S (fold_right (fun kv m => Nat.max (height (snd kv)) m) O d)
  | PyFailure st ty =>
      S (S (S (Nat.max
                 (fold_right (fun kv m => Nat.max (height (snd kv)) m) O st)
                 match ty with
                 | PyType _ ns =>
                     fold_right (fun kv m => Nat.max (height (snd kv)) m) O ns
                 | _ => O
                 end)))
  | _ => 1%nat
  end.

(** [dumps]: the recursion is as deep as the object is. *)
Definition dumps (default : pyobj -> result pyobj) (o : pyobj) : result text :=
  iterencode default (S (S (height o))) o.

(** ** The [json] module: [loads] *)

(** Every error of the decoder is a [JSONDecodeError], a [ValueError]. *)

Definition is_ws (c : Z) : bool :=
  (c =? 32) || (c =? 9) || (c =? 10) || (c =? 13).

Fixpoint skip_ws (s : text) : text :=
  match s with
  | c :: r => if is_ws c then skip_ws r else s
  | [] => []
  end.

Definition hexval (c : Z) : option Z :=
  if (48 <=? c) && (c <=? 57) then Some (c - 48)
  else if (97 <=? c) && (c <=? 102) then Some (c - 87)
  else if (65 <=? c) && (c <=? 70) then Some (c - 55)
  else None.

Definition hex4 (a b c d : Z) : option Z :=
  match hexval a, hexval b, hexval c, hexval d with
  | Some x, Some y, Some z, Some w => Some (((x * 16 + y) * 16 + z) * 16 + w)
  | _, _, _, _ => None
  end.

Definition is_high_surrogate (c : Z) : bool := (55296 <=? c) && (c <=? 56319).
Definition is_low_surrogate (c : Z) : bool := (56320 <=? c) && (c <=? 57343).

(** The character a one-letter escape stands for. *)
Definition short_escape (e : Z) : option Z :=
  if e =? 34 then Some 34
  else if e =? 92 then Some 92
  else if e =? 47 then Some 47
  else if e =? 98 then Some 8
  else if e =? 102 then Some 12
  else if e =? 110 then Some 10
  else if e =? 114 then Some 13
  else if e =? 116 then Some 9
  else None.

(** [scanstring], from just after the opening quote: the string and the
    text after its closing quote.  A control character is refused
    ([strict=True]); a high surrogate escape followed by a low one makes
    one code point. *)
Fixpoint scanstring (s : text) : result (text * text) :=
  match s with
  | [] => Raise ValueError
  | c :: r =>
      if c =? 34 then Ok ([], r)
      else if c =? 92 then
        match r with
        | [] => Raise ValueError
        | e :: r1 =>
            if e =? 117 then
              match r1 with
              | h1 :: h2 :: h3 :: h4 :: r2 =>
                  match hex4 h1 h2 h3 h4 with
                  | None => Raise ValueError
                  | Some uni =>
                      let lone :=
                        ' (t, r') <- scanstring r2 ;; Ok (uni :: t, r') in
                      if is_high_surrogate uni then
                        match r2 with
                        | b :: u :: g1 :: g2 :: g3 :: g4 :: r3 =>
                            if (b =? 92) && (u =? 117) then
                              match hex4 g1 g2 g3 g4 with
                              | None => Raise ValueError
                              | Some uni2 =>
                                  if is_low_surrogate uni2 then
                                    ' (t, r') <- scanstring r3 ;;
                                    Ok (65536 + (uni - 55296) * 1024
                                        + (uni2 - 56320) :: t, r')
                                  else lone
                              end
                            else lone
                        | _ => lone
                        end
                      else lone
                  end
              | _ => Raise ValueError
              end
            else
              match short_escape e with
              | None => Raise ValueError
              | Some x => ' (t, r') <- scanstring r1 ;; Ok (x :: t, r')
              end
        end
      else if c <? 32 then Raise ValueError
      else ' (t, r') <- scanstring r ;; Ok (c :: t, r')
  end.

Definition digit_of (c : Z) : option (Decimal.uint -> Decimal.uint) :=
  if c =? 48 then Some Decimal.D0
  else if c =? 49 then Some Decimal.D1
  else if c =? 50 then Some Decimal.D2
  else if c =? 51 then Some Decimal.D3
  else if c =? 52 then Some Decimal.D4
  else if c =? 53 then Some Decimal.D5
  else if c =? 54 then Some Decimal.D6
  else if c =? 55 then Some Decimal.D7
  else if c =? 56 then Some Decimal.D8
  else if c =? 57 then Some Decimal.D9
  else None.

Definition is_digit (c : Z) : bool := (48 <=? c) && (c <=? 57).

(** The longest run of digits at the head of [s], and what follows. *)
Fixpoint scan_digits (s : text) : Decimal.uint * text :=
  match s with
  | c :: r =>
      match digit_of c with
      | Some d => let (u, r') := scan_digits r in (d u, r')
      | None => (Decimal.Nil, s)
      end
  | [] => (Decimal.Nil, [])
  end.

(** The fraction [.digits] at the head of [s], if there is one. *)
Definition scan_frac (s : text) : option Decimal.uint * text :=
  match s with
  | dot :: d :: r =>
      if (dot =? 46) && is_digit d
      then let (u, r') := scan_digits (d :: r) in (Some u, r')
      else (None, s)
  | _ => (None, s)
  end.

(** The exponent [e], [E], an optional sign and digits at the head of [s],
    if there is one. *)
Definition scan_exp (s : text) : option (option bool * Decimal.uint) * text :=
  match s with
  | e :: r =>
      if (e =? 101) || (e =? 69) then
        match r with
        | sg :: d :: r1 =>
            if ((sg =? 43) || (sg =? 45)) && is_digit d
            then let (u, r') := scan_digits (d :: r1) in
                 (Some (Some (sg =? 45), u), r')
            else if is_digit sg
                 then let (u, r') := scan_digits r in (Some (None, u), r')
                 else (None, s)
        | [d] =>
            if is_digit d
            then let (u, r') := scan_digits r in (Some (None, u), r')
            else (None, s)
        | [] => (None, s)
        end
      else (None, s)
  | [] => (None, s)
  end.

(** A number whose sign has been read: [0] or a run of digits that does
    not start with [0], then a fraction and an exponent if there are any.
    With neither it is an [int], otherwise a [float]. *)
Definition scan_number (neg : bool) (s : text) : result (pyobj * text) :=
  match s with
  | c :: r =>
      if is_digit c then
        let (ip, r1) :=
          if c =? 48 then (Decimal.D0 Decimal.Nil, r) else scan_digits s in
        let (frac, r2) := scan_frac r1 in
        let (ex, r3) := scan_exp r2 in
        match frac, ex with
        | None, None =>
            Ok (PyInt (Z.of_int (if neg then Decimal.Neg ip else Decimal.Pos ip)),
                r3)
        | _, _ => Ok (PyFloat (FLit neg ip frac ex), r3)
        end
      else Raise ValueError
  | [] => Raise ValueError
  end.

(** [s] starts with the ASCII word [w]: what follows it. *)
Fixpoint strip_prefix (w s : text) : option text :=
  match w, s with
  | [], _ => Some s
  | x :: w', y :: s' => if x =? y then strip_prefix w' s' else None
  | _ :: _, [] => None
  end.

Section Scanner.
(** The [object_hook] argument: called on every dictionary read. *)
Variable object_hook : pydict -> result pyobj.

(** The loop of [JSONArray], at the start of a value: [acc] holds the
    values read so far, last first, and [k] bounds the turns left. *)
Fixpoint array_loop (scan : text -> result (pyobj * text)) (k : nat)
         (s : text) (acc : list pyobj) : result (pyobj * text) :=
  match k with
  | O => Raise RecursionError
  | S k' =>
      ' (v, s1) <- scan s ;;
      match skip_ws s1 with
      | c :: s2 =>
          if c =? 93 then Ok (PyList (rev (v :: acc)), s2)
          else if c =? 44 then array_loop scan k' (skip_ws s2) (v :: acc)
          else Raise ValueError
      | [] => Raise ValueError
      end
  end.

(** [JSONArray], from just after the bracket. *)
Definition JSONArray (scan : text -> result (pyobj * text)) (s : text)
  : result (pyobj * text) :=
  match skip_ws s with
  | c :: r =>
      if c =? 93 then Ok (PyList [], r)
      else array_loop scan (S (length s)) (c :: r) []
  | [] => Raise ValueError
  end.

(** The loop of [JSONObject], from just after the opening quote of a
    key.  At the closing brace the pairs make a [dict], which goes
    through [object_hook]. *)
Fixpoint object_loop (scan : text -> result (pyobj * text)) (k : nat)
         (s : text) (acc : pydict) : result (pyobj * text) :=
  match k with
  | O => Raise RecursionError
  | S k' =>
      ' (key, s1) <- scanstring s ;;
      match skip_ws s1 with
      | colon :: s2 =>
          if colon =? 58 then
            ' (v, s3) <- scan (skip_ws s2) ;;
            match skip_ws s3 with
            | c :: s4 =>
                if c =? 125 then
                  o <- object_hook
                         (dict_of_items key_eqb (rev ((PyStr key, v) :: acc))) ;;
                  Ok (o, s4)
                else if c =? 44 then
                  match skip_ws s4 with
                  | q :: s5 =>
                      if q =? 34
                      then object_loop scan k' s5 ((PyStr key, v) :: acc)
                      else Raise ValueError
                  | [] => Raise ValueError
                  end
                else Raise ValueError
            | [] => Raise ValueError
            end
          else Raise ValueError
      | [] => Raise ValueError
      end
  end.

(** [JSONObject], from just after the brace. *)
Definition JSONObject (scan : text -> result (pyobj * text)) (s : text)
  : result (pyobj * text) :=
  match skip_ws s with
  | c :: r =>
      if c =? 125 then o <- object_hook [] ;; Ok (o, r)
      else if c =? 34 then object_loop scan (S (length s)) r []
      else Raise ValueError
  | [] => Raise ValueError
  end.

(** [scan_once] at the first character of a value. *)
Fixpoint scan_once (fuel : nat) (s : text) : result (pyobj * text) :=
  match fuel with
  | O => Raise RecursionError
  | S n =>
      match s with
      | [] => Raise ValueError
      | c :: r =>
          if c =? 34 then ' (t, r') <- scanstring r ;; Ok (PyStr t, r')
          else if c =? 123 then JSONObject (scan_once n) r
          else if c =? 91 then JSONArray (scan_once n) r
          else
            match strip_prefix (u_ "null") s with
            | Some r' => Ok (PyNone, r')
            | None =>
            match strip_prefix (u_ "true") s with
            | Some r' => Ok (PyBool true, r')
            | None =>
            match strip_prefix (u_ "false") s with
            | Some r' => Ok (PyBool false, r')
            | None =>
            match strip_prefix (u_ "NaN") s with
            | Some r' => Ok (PyFloat FNaN, r')
            | None =>
            match strip_prefix (u_ "Infinity") s with
            | Some r' => Ok (PyFloat (FInf false), r')
            | None =>
            match strip_prefix (u_ "-Infinity") s with
            | Some r' => Ok (PyFloat (FInf true), r')
            | None =>
                if c =? 45 then scan_number true r else scan_number false s
            end end end end end end
      end
  end.

(** [json.loads(s, object_hook=object_hook)] for a [str]: one value,
    with white space around it and nothing else. *)
Definition loads (s : text) : result pyobj :=
  ' (v, rest) <- scan_once (S (length s)) (skip_ws s) ;;
  match skip_ws rest with
  | [] => Ok v
  | _ :: _ => Raise ValueError
  end.
End Scanner.

(** [bytes.decode("utf-8", "surrogatepass")]: [json.loads] decodes a
    [bytes] argument so before it parses it (the records are UTF-8, as
    [jsonFileLogObserver] writes them; that [json] takes input with a byte
    order mark or zero bytes at its head for UTF-16 or UTF-32 is left
    out).  A byte sequence that is not UTF-8 raises [UnicodeDecodeError],
    a [ValueError]. *)
Definition is_cont (c : Z) : bool := (128 <=? c) && (c <? 192).

Fixpoint utf8_decode (b : bytes) : result text :=
  match b with
  | [] => Ok []
  | b0 :: r =>
      let c0 := byte_code b0 in
      if c0 <? 128 then t <- utf8_decode r ;; Ok (c0 :: t)
      else if c0 <? 194 then Raise ValueError
      else if c0 <? 224 then
        match r with
        | b1 :: r' =>
            let c1 := byte_code b1 in
            if is_cont c1
            then t <- utf8_decode r' ;;
                 Ok ((c0 - 192) * 64 + (c1 - 128) :: t)
            else Raise ValueError
        | _ => Raise ValueError
        end
      else if c0 <? 240 then
        match r with
        | b1 :: b2 :: r' =>
            let c1 := byte_code b1 in
            let c2 := byte_code b2 in
            let cp := ((c0 - 224) * 64 + (c1 - 128)) * 64 + (c2 - 128) in
            if is_cont c1 && is_cont c2 && (2048 <=? cp)
            then t <- utf8_decode r' ;; Ok (cp :: t)
            else Raise ValueError
        | _ => Raise ValueError
        end
      else if c0 <? 245 then
        match r with
        | b1 :: b2 :: b3 :: r' =>
            let c1 := byte_code b1 in
            let c2 := byte_code b2 in
            let c3 := byte_code b3 in
            let cp := (((c0 - 240) * 64 + (c1 - 128)) * 64 + (c2 - 128)) * 64
                      + (c3 - 128) in
            if is_cont c1 && is_cont c2 && is_cont c3
               && (65536 <=? cp) && (cp <? 1114112)
            then t <- utf8_decode r' ;; Ok (cp :: t)
            else Raise ValueError
        | _ => Raise ValueError
        end
      else Raise ValueError
  end.

(** ** The [uuid] module *)

(** A [UUID] is its 128-bit number. *)

Fixpoint hex_digits (n : nat) (u : Z) : text :=
  match n with
  | O => []
  | S k => hex_digits k (u / 16) ++ [hexdigit (u mod 16)]
  end.

(** [str(uuid)]: 32 lower-case hexadecimal digits in groups of 8, 4, 4, 4
    and 12. *)
Definition uuid_str (u : Z) : text :=
  let h := hex_digits 32 u in
  firstn 8 h ++ [45] ++ firstn 4 (skipn 8 h) ++ [45]
  ++ firstn 4 (skipn 12 h) ++ [45] ++ firstn 4 (skipn 16 h) ++ [45]
  ++ skipn 20 h.

(** [s.replace(w, "")] for a non-empty [w]; [skip] characters of an
    occurrence just found are still to be dropped. *)
Fixpoint remove_word (w : text) (skip : nat) (s : text) : text :=
  match s with
  | [] => []
  | c :: r =>
      match skip with
      | S k => remove_word w k r
      | O =>
          match strip_prefix w s with
          | Some _ => remove_word w (length w - 1) r
          | None => c :: remove_word w O r
          end
      end
  end.

Definition is_brace (c : Z) : bool := (c =? 123) || (c =? 125).

Fixpoint lstrip_braces (s : text) : text :=
  match s with
  | c :: r => if is_brace c then lstrip_braces r else s
  | [] => []
  end.

(** [s.strip("{}")] *)
Definition strip_braces (s : text) : text :=
  rev (lstrip_braces (rev (lstrip_braces s))).

(** [int(hex, 16)] for a text of hexadecimal digits.  (Python's [int] also
    reads a sign, a [0x] prefix, underscores between digits and white
    space around; a text with any of these is taken as malformed here.) *)
Fixpoint int16 (acc : Z) (s : text) : result Z :=
  match s with
  | [] => Ok acc
  | c :: r =>
      match hexval c with
      | Some v => int16 (acc * 16 + v) r
      | None => Raise ValueError
      end
  end.

(** [UUID(hex)]: a [str] is cleared of [urn:], [uuid:], braces around it
    and hyphens, and must then be 32 hexadecimal digits; [None] raises
    [TypeError] and any other object has no [replace] to call. *)
Definition UUID (hex : pyobj) : result Z :=
  match hex with
  | PyStr s =>
      let h := remove_word (u_ "uuid:") O (remove_word (u_ "urn:") O s) in
      let h := filter (fun c => negb (c =? 45)) (strip_braces h) in
      if (length h =? 32)%nat then int16 0 h else Raise ValueError
  | PyNone => Raise TypeError
  | PyBytes _ => Raise TypeError
  | _ => Raise AttributeError
  end.

(** ** twisted/python/logger/_json.py *)

(** [o[k]] for a [str] [k]: only a [dict] can be indexed so. *)
Definition subscript (o : pyobj) (k : text) : result pyobj :=
  match o with
  | PyDict d => py_item k d
  | _ => Raise TypeError
  end.

(** [cls.__name__] and [cls.__module__]; an object that is not a class is
    taken to have neither. *)
Definition type_name (cls : pyobj) : result pyobj :=
  match cls with
  | PyType name _ => Ok (PyStr name)
  | _ => Raise AttributeError
  end.

Definition type_module (cls : pyobj) : result pyobj :=
  match cls with
  | PyType _ ns =>
      match py_get (u_ "__module__") ns with
      | Some m => Ok m
      | None => Raise AttributeError
      end
  | _ => Raise AttributeError
  end.

(** [type(name, (), ns)]: the name must be a [str]; a namespace without
    [__module__] gets the module of the caller.  (What else [type] may
    refuse in a namespace, such as [__slots__] or [__qualname__] of a wrong
    kind, is left out.) *)
Definition type_new (name : pyobj) (ns : pyobj) : result pyobj :=
  match name, ns with
  | PyStr n, PyDict d =>
      Ok (PyType n
            (if py_has (u_ "__module__") d then d
             else d ++ [(PyStr (u_ "__module__"),
                         PyStr (u_ "twisted.python.logger._json"))]))
  | _, _ => Raise TypeError
  end.

Definition failureAsJSON (failure : pyobj) : result pyobj :=
  match failure with
  | PyFailure state type =>
      m <- type_module type ;;
      n <- type_name type ;;
      Ok (PyDict
            (py_set (u_ "type")
               (PyDict [(PyStr (u_ "__module__"), m);
                        (PyStr (u_ "__name__"), n)])
               state))
  | _ => Raise AttributeError
  end.

(** [failureFromJSON] where [Failure.__new__] exists: the entry [type] of
    the dictionary is replaced by a class made from it, and the dictionary
    becomes the [__dict__] of a new [Failure]. *)
Definition failureFromJSON (failureDict : pyobj) : result pyobj :=
  typeInfo <- subscript failureDict (u_ "type") ;;
  name <- subscript typeInfo (u_ "__name__") ;;
  cls <- type_new name typeInfo ;;
  match failureDict with
  | PyDict d => Ok (PyFailure (py_set (u_ "type") cls d) cls)
  | _ => Raise TypeError
  end.

(** The field that holds the type tag, and the two tags. *)
Definition class_uuid_key : text := u_ "__class_uuid__".
Definition uuid_LogLevel : Z := 0x02E59486F24D46AD82243ACDF2A5732A.
Definition uuid_Failure : Z := 0xE76887E220ED49BFA8F8BA25CC586F2D.

(** The saver and the loader of log levels, the lambdas of the first entry
    of [classInfo]. *)
Definition logLevelAsJSON (level : pyobj) : result pyobj :=
  match level with
  | PyLogLevel l => Ok (PyDict [(PyStr (u_ "name"), PyStr (LogLevel_name l))])
  | _ => Raise AttributeError
  end.

Definition logLevelFromJSON (level : pyobj) : result pyobj :=
  name <- subscript level (u_ "name") ;;
  match name with
  | PyStr n => Ok (LogLevel_getattr n)
  | _ => Raise TypeError
  end.

Record classInfoEntry : Type := {
  predicate : pyobj -> bool;
  uuid : Z;
  saver : pyobj -> result pyobj;
  loader : pyobj -> result pyobj
}.

Definition classInfo : list classInfoEntry :=
  [ {| predicate := fun level =>
         match level with PyLogLevel _ => true | _ => false end;
       uuid := uuid_LogLevel;
       saver := logLevelAsJSON;
       loader := logLevelFromJSON |};
    {| predicate := fun o =>
         match o with PyFailure _ _ => true | _ => false end;
       uuid := uuid_Failure;
       saver := failureAsJSON;
       loader := failureFromJSON |} ].

Definition uuidToLoader : list (Z * (pyobj -> result pyobj)) :=
  dict_of_items Z.eqb (map (fun e => (uuid e, loader e)) classInfo).

Definition objectLoadHook (aDict : pydict) : result pyobj :=
  if py_has class_uuid_key aDict then
    tag <- py_item class_uuid_key aDict ;;
    u <- UUID tag ;;
    match dict_get Z.eqb u uuidToLoader with
    | Some load => load (PyDict aDict)
    | None => Raise KeyError
    end
  else Ok (PyDict aDict).

Fixpoint objectSaveHook_from (infos : list classInfoEntry) (pythonObject : pyobj)
  : result pyobj :=
  match infos with
  | [] => Ok (PyDict [(PyStr (u_ "unpersistable"), PyBool true)])
  | e :: infos' =>
      if predicate e pythonObject then
        result <- saver e pythonObject ;;
        match result with
        | PyDict d =>
            Ok (PyDict (py_set class_uuid_key (PyStr (uuid_str (uuid e))) d))
        | _ => Raise TypeError
        end
      else objectSaveHook_from infos' pythonObject
  end.

Definition objectSaveHook (pythonObject : pyobj) : result pyobj :=
  objectSaveHook_from classInfo pythonObject.

(** The [default] of [eventAsJSON]: [bytes] are decoded with the
    [charmap] codec, a byte to the code point of its value. *)
Definition default (unencodable : pyobj) : result pyobj :=
  match unencodable with
  | PyBytes b => Ok (PyStr (map byte_code b))
  | _ => objectSaveHook unencodable
  end.

Section EventAsJSON.
(** [flattenEvent] ([twisted/python/logger/_flatten.py]) is not under
    src/: the event as the call leaves it, or the exception it raises,
    is a parameter. *)
Variable flattenEvent : pyobj -> result pyobj.

Definition eventAsJSON (event : pyobj) : result text :=
  event' <- flattenEvent event ;;
  dumps default event'.
End EventAsJSON.

Definition eventFromJSON (eventText : text) : result pyobj :=
  loads objectLoadHook eventText.

(** [json.loads] of [bytes]: decoded, then parsed. *)
Definition eventFromJSON_bytes (record : bytes) : result pyobj :=
  eventText <- utf8_decode record ;;
  eventFromJSON eventText.

(** What the log file reader lets out, in order: an event it yields, or a
    record it reports with [log.error]. *)
Inductive emitted : Type :=
| Event (event : pyobj)
| Diagnostic (record : bytes).

(** [eventFromRecord]: the value returned and the records reported on the
    way.  Only a [ValueError] is caught. *)
Definition eventFromRecord (record : bytes) : result (pyobj * list bytes) :=
  match rev record with
  | x0a :: _ =>
      match eventFromJSON_bytes record with
      | Ok event => Ok (event, [])
      | Raise ValueError => Ok (PyNone, [record])
      | Raise e => Raise e
      end
  | _ => Ok (PyNone, [])
  end.

(** [event = eventFromRecord(record)] and then
    [if event is not None: yield event], before the rest [k] of the run. *)
Definition emit_record (record : bytes) (k : gen emitted) : gen emitted :=
  match eventFromRecord record with
  | Raise e => Throw e
  | Ok (event, reported) =>
      fold_right (fun r g => Yield (Diagnostic r) g)
        (match event with
         | PyNone => k
         | _ => Yield (Event event) k
         end)
        reported
  end.

(** The [while True] loop of [eventsFromJSONLogFile].  [reads] are the
    results of the successive calls of [inFile.read(4096)], each as the
    bytes [newData.encode("utf-8")]; after the last of them [read]
    returns the empty string. *)
Fixpoint read_loop (reads : list bytes) (buffer : bytes) : gen emitted :=
  match reads with
  | [] => emit_record buffer Stop
  | newData :: reads' =>
      match newData with
      | [] => emit_record buffer Stop
      | _ :: _ =>
          let buffer := buffer ++ newData in
          let records := split_from [x1e] O [] buffer in
          fold_right emit_record
            (read_loop reads' (last records []))
            (removelast records)
      end
  end.

Definition eventsFromJSONLogFile (inFile : list bytes) : gen emitted :=
  read_loop inFile [].

(** The events yielded and the records reported by a run. *)
Definition events_of (g : gen emitted) : list pyobj :=
  flat_map (fun x => match x with Event e => [e] | Diagnostic _ => [] end)
           (yielded g).

Definition diagnostics_of (g : gen emitted) : list bytes :=
  flat_map (fun x => match x with Event _ => [] | Diagnostic r => [r] end)
           (yielded g).

(** A record as [jsonFileLogObserver] writes it: the record separator,
    the JSON text, a line feed. *)
Definition wire_record (body : bytes) : bytes := x1e :: body ++ [x0a].

(** Sample texts: a quoted word, and the bodies of three records, the last
    of them not JSON. *)
Definition bq_ (s : String.string) : bytes := [x22] ++ b_ s ++ [x22].
Arguments bq_ s%_string.

Definition body_x1 : bytes := b_ "{" ++ bq_ "x" ++ b_ ": 1}".
Definition body_y2 : bytes := b_ "{" ++ bq_ "y" ++ b_ ": 2}".
Definition body_bad : bytes := b_ "{" ++ bq_ "y" ++ b_ ": }".
Definition event_x1 : pyobj := PyDict [(PyStr (u_ "x"), PyInt 1)].
Definition event_y2 : pyobj := PyDict [(PyStr (u_ "y"), PyInt 2)].

(** [del d[k]] for a [str] key that is there. *)
Fixpoint py_del (k : text) (d : pydict) : pydict :=
  match d with
  | [] => []
  | (k', v) :: d' => if key_eqb (PyStr k) k' then d' else (k', v) :: py_del k d'
  end.

(** Samples: the error record of the example, a record whose tag is a
    well-formed UUID that no class has, and the mapping in it. *)
Definition boom_state : pydict := [(PyStr (u_ "message"), PyStr (u_ "boom"))].
Definition boom_type : pyobj :=
  PyType (u_ "BoomError") [(PyStr (u_ "__module__"), PyStr (u_ "app.errors"))].
Definition boom_failure : pyobj := PyFailure boom_state boom_type.
Definition boom_event : pyobj := PyDict [(PyStr (u_ "log_failure"), boom_failure)].

Definition unknown_tag : text := u_ "00000000-0000-0000-0000-000000000000".
Definition unknown_tag_dict : pydict :=
  [(PyStr class_uuid_key, PyStr unknown_tag)].
Definition body_unknown_tag : bytes :=
  b_ "{" ++ bq_ "__class_uuid__" ++ b_ ": "
     ++ bq_ "00000000-0000-0000-0000-000000000000" ++ b_ "}".

(** The mapping of an encoded error record, as the parser hands it to the
    hook. *)
Definition boom_dict : pydict :=
  [(PyStr (u_ "message"), PyStr (u_ "boom"));
   (PyStr (u_ "type"),
    PyDict [(PyStr (u_ "__module__"), PyStr (u_ "app.errors"));
            (PyStr (u_ "__name__"), PyStr (u_ "BoomError"))]);
   (PyStr class_uuid_key, PyStr (uuid_str uuid_Failure))].

(** A sample event with a line feed in a nested text. *)
Definition event_two_lines : pyobj :=
  PyDict [(PyStr (u_ "text"), PyList [PyStr (u_ "disk" ++ [10] ++ u_ "low")])].

(** ** Native values *)

(** A Unicode scalar value: a code point that is not a surrogate. *)
Definition scalar (c : Z) : bool :=
  ((0 <=? c) && (c <? 55296)) || ((57343 <? c) && (c <? 1114112)).

Definition text_ok (s : text) : bool := forallb scalar s.

(** The integer part of a number: [0] alone, or digits that do not start
    with [0]. *)
Definition int_part_ok (ip : Decimal.uint) : bool :=
  match ip with
  | Decimal.Nil => false
  | Decimal.D0 Decimal.Nil => true
  | Decimal.D0 _ => false
  | _ => true
  end.

Definition some_digits (d : Decimal.uint) : bool :=
  match d with Decimal.Nil => false | _ => true end.

(** A float that equals itself, by a literal as [repr] writes one: an
    infinity, or an integer part with a fraction or an exponent or both. *)
Definition float_ok (f : pyfloat) : bool :=
  match f with
  | FNaN => false
  | FInf _ => true
  | FLit _ ip frac ex =>
      int_part_ok ip
      && match frac with Some d => some_digits d | None => true end
      && match ex with Some (_, d) => some_digits d | None => true end
      && match frac, ex with None, None => false | _, _ => true end
  end.

(** No key of the dictionary comes twice, as in any [dict]. *)
Fixpoint distinct_keys (d : pydict) : bool :=
  match d with
  | [] => true
  | (k, _) :: d' => negb (existsb (key_eqb k) (map fst d')) && distinct_keys d'
  end.

(** A key of a native mapping: a text, other than the tag field. *)
Definition native_key (k : pyobj) : bool :=
  match k with
  | PyStr s => text_ok s && negb (text_eqb s class_uuid_key)
  | _ => false
  end.

(** The values JSON has as they are: [None], booleans, integers, floats
    other than NaN, texts of scalar values, lists of native values, and
    dictionaries from texts to native values without the tag field. *)
Fixpoint native (o : pyobj) : bool :=
  match o with
  | PyNone | PyBool _ | PyInt _ => true
  | PyFloat f => float_ok f
  | PyStr s => text_ok s
  | PyList l => forallb native l
  | PyDict d =>
      forallb (fun kv => native_key (fst kv) && native (snd kv)) d
      && distinct_keys d
  | _ => false
  end.

(** What may follow a value in a JSON text: nothing, a comma, or a closing
    bracket or brace. *)
Definition follow_ok (rest : text) : bool :=
  match rest with
  | [] => true
  | c :: _ => (c =? 44) || (c =? 93) || (c =? 125)
  end.



(** ** Notions used in the statements *)

(** Printable ASCII: from the space to the tilde. *)
Definition printable (c : Z) : Prop := 32 <= c <= 126.

Definition not_digit_head (rest : text) : bool :=
  match rest with
  | [] => true
  | c :: _ => negb (is_digit c)
  end.

(** The text [t] is read back as [o], whatever may follow it. *)
Definition reads (m : nat) (o : pyobj) (t : text) : Prop :=
  forall rest, follow_ok rest = true ->
               scan_once objectLoadHook m (t ++ rest) = Ok (o, rest).

(** The items [encode_items] writes for a dictionary with text keys, the
    text of each value related to the value by [R]. *)
Inductive members (R : pyobj -> text -> Prop) : pydict -> list text -> Prop :=
| members_nil : members R [] []
| members_cons (k : text) (v : pyobj) (t : text) (d : pydict) (items : list text) :
    text_ok k = true -> R v t -> members R d items ->
    members R ((PyStr k, v) :: d)
            ((encode_basestring_ascii k ++ [58; 32] ++ t) :: items).

(** A value and its text: the text is read back as the value by a scanner
    that may nest as deep as the value does, and it is as long as the value
    is deep. *)
Definition read_back (o : pyobj) (t : text) : Prop :=
  (forall m, (height o <= m)%nat -> reads m o t) /\ (height o <= length t)%nat.

(** A scanner that, on texts no longer than [bound], leaves less than it
    was given, and one that does not run out of fuel on them. *)
Definition progress (scan : text -> result (pyobj * text)) (bound : nat) : Prop :=
  forall s v r, (length s <= bound)%nat -> scan s = Ok (v, r) ->
                (length r < length s)%nat.

Definition enough (scan : text -> result (pyobj * text)) (bound : nat) : Prop :=
  forall s, (length s <= bound)%nat -> scan s <> Raise RecursionError.

(** ** What is written and what comes back *)


(** The values whose way through [eventAsJSON] and [eventFromJSON] is
    followed below: the native ones, and with them [bytes], log levels,
    objects of any other kind, and failures whose type is a class with a
    text for its module, in lists and in dictionaries with text keys. *)
Fixpoint storable (o : pyobj) : bool :=
  match o with
  | PyNone | PyBool _ | PyInt _ => true
  | PyFloat f => float_ok f
  | PyStr s => text_ok s
  | PyBytes _ | PyLogLevel _ | PyType _ _ | PyObject _ => true
  | PyList l => forallb storable l
  | PyDict d =>
      forallb (fun kv => native_key (fst kv) && storable (snd kv)) d
      && distinct_keys d
  | PyFailure state type =>
      match type with
      | PyType name ns =>
          text_ok name
          && match py_get (u_ "__module__") ns with
             | Some (PyStr m) => text_ok m
             | _ => false
             end
          && forallb (fun kv => native_key (fst kv) && storable (snd kv)) state
          && distinct_keys state
      | _ => false
      end
  end.

(** What [failureAsJSON] makes of the type of a failure, and the class
    [failureFromJSON] makes of that. *)
Definition type_info (name : text) (ns : pydict) : pydict :=
  [(PyStr (u_ "__module__"),
    match py_get (u_ "__module__") ns with Some m => m | None => PyNone end);
   (PyStr (u_ "__name__"), PyStr name)].

(** What a storable value is when it has been written and read: [bytes]
    have become the text of their byte values, an object the codec does
    not know has become the marker [{"unpersistable": true}], and a
    failure has become a failure whose type is a new class of the same
    name and module and whose state holds that class and the tag as
    well; everything else is as it was. *)
Fixpoint loaded_back (o : pyobj) : pyobj :=
  match o with
  | PyBytes b => PyStr (map byte_code b)
  | PyList l => PyList (map loaded_back l)
  | PyDict d => PyDict (map (fun kv => (fst kv, loaded_back (snd kv))) d)
  | PyType _ _ | PyObject _ => PyDict [(PyStr (u_ "unpersistable"), PyBool true)]
  | PyFailure state (PyType name ns) =>
      let cls := PyType name (type_info name ns) in
      PyFailure
        (py_set (u_ "type") cls
           (py_set class_uuid_key (PyStr (uuid_str uuid_Failure))
              (py_set (u_ "type") (PyDict (type_info name ns))
                 (map (fun kv => (fst kv, loaded_back (snd kv))) state))))
        cls
  | _ => o
  end.

(** A value and its text: the text is read as what the value comes back
    as, by a scanner that may nest as deep as the text is long. *)
Definition comes_back (o : pyobj) (t : text) : Prop :=
  forall m, (length t <= m)%nat -> reads m (loaded_back o) t.

(** ** The observer's records *)

(** The byte of a value below 256. *)
Definition byte_of (c : Z) : byte :=
  match Byte.of_N (Z.to_N c) with Some b => b | None => x00 end.





Definition failure_event : pyobj :=
  PyDict [(PyStr (u_ "log_level"), PyLogLevel critical);
          (PyStr (u_ "log_failure"),
           PyFailure [(PyStr (u_ "type"), PyType (u_ "BoomError") []);
                      (PyStr (u_ "value"), PyObject 1);
                      (PyStr (u_ "parents"), PyList [PyStr (u_ "BoomError")])]
                     boom_type)].

(** ** twisted/cred/checkers.py: the checkers *)

(** Modelled from the spec: [requestAvatarId] succeeds with an identifier
    or fails with an error ([twisted/internet/defer.py] is not under
    src/).  A [Deferred] that has fired is its outcome: the value it
    succeeded with, or the exception it failed with.  [maybeDeferred]
    calls the function and turns what it returns or raises into that
    outcome; a callback runs on success, and the [Failure] it returns
    makes the [Deferred] fail. *)
Module defer.
Definition Deferred (A : Type) : Type := result A.
Definition succeed {A : Type} (a : A) : Deferred A := Ok a.
Definition fail {A : Type} (e : exn) : Deferred A := Raise e.
Definition maybeDeferred {A B : Type} (f : A -> result B) (a : A)
  : Deferred B := f a.
Definition addCallback {A B : Type} (d : Deferred A) (callback : A -> result B)
  : Deferred B := bind d callback.
End defer.

(** Modelled from the spec: the credentials a checker is given
    ([twisted/cred/credentials.py] is not under src/), by what the
    checkers use of them: the attribute [username], the method
    [checkPassword], and, when the credentials provide
    [IUsernamePassword], the attribute [password]. *)
Module credentials.
Record t : Type := {
  username : bytes;
  checkPassword : bytes -> result bool;
  password : option bytes
}.
End credentials.

Module InMemoryUsernamePasswordDatabaseDontUse.

(** The object is its attribute [users]. *)
Definition t : Type := list (bytes * bytes).

(** [x.encode("ascii")]: a code point above 127 cannot be encoded
    ([UnicodeEncodeError], a [ValueError]). *)
Definition ascii_encode (x : text) : result bytes :=
  map_result (fun c => if (0 <=? c) && (c <? 128) then Ok (byte_of c)
                       else Raise ValueError) x.

(** [__init__], called with keywords: the keyword names, in order, with
    their passwords. *)
Definition __init__ (users : list (text * bytes)) : result t :=
  items <- map_result (fun xy => x <- ascii_encode (fst xy) ;; Ok (x, snd xy))
                      users ;;
  Ok (dict_of_items bytes_eqb items).

Definition addUser (self : t) (username password : bytes) : t :=
  dict_set bytes_eqb username password self.

Definition _cbPasswordMatch (matched : bool) (username : bytes) : result bytes :=
  if matched then Ok username else Raise UnauthorizedLogin.

Definition requestAvatarId (self : t) (c : credentials.t) : defer.Deferred bytes :=
  match dict_get bytes_eqb (credentials.username c) self with
  | Some p =>
      defer.addCallback
        (defer.maybeDeferred (credentials.checkPassword c) p)
        (fun matched => _cbPasswordMatch matched (credentials.username c))
  | None => defer.fail UnauthorizedLogin
  end.

End InMemoryUsernamePasswordDatabaseDontUse.

(** [FilePasswordDB._cbPasswordMatch] and [FilePasswordDB.requestAvatarId].
    [hash] is the attribute [self.hash], which nothing else reads: [None],
    or a function of the user name, the password given and the password
    stored.  The result is the [Deferred] returned, or the exception that
    leaves the call, and the object afterwards. *)
Definition FilePasswordDB__cbPasswordMatch (matched : bool) (username : bytes)
  : result bytes :=
  if matched then Ok username else Raise UnauthorizedLogin.

Definition FilePasswordDB_requestAvatarId
           (self : FilePasswordDB.t)
           (hash : option (bytes -> bytes -> bytes -> bytes))
           (fs : option FilePasswordDB.file) (c : credentials.t)
  : result (defer.Deferred bytes) * FilePasswordDB.t :=
  match FilePasswordDB.getUser self fs (credentials.username c) with
  | (Raise KeyError, self') => (Ok (defer.fail UnauthorizedLogin), self')
  | (Raise e, self') => (Raise e, self')
  | (Ok (u, p), self') =>
      (Ok match hash with
          | Some hash =>
              match credentials.password c with
              | Some password =>
                  if bytes_eqb (hash (credentials.username c) password p) p
                  then defer.succeed u
                  else defer.fail UnauthorizedLogin
              | None => defer.fail UnauthorizedLogin
              end
          | None =>
              defer.addCallback
                (defer.maybeDeferred (credentials.checkPassword c) p)
                (fun matched => FilePasswordDB__cbPasswordMatch matched u)
          end,
       self')
  end.

(** Sample credentials: a user name and a plain password, which
    [checkPassword] compares with the password it is given. *)
Definition plain_credentials (username password : bytes) : credentials.t :=
  {| credentials.username := username;
     credentials.checkPassword := fun p => Ok (bytes_eqb password p);
     credentials.password := Some password |}.

(** A file with two lines for [alice]. *)
Definition two_alice_file (mt : Z) : FilePasswordDB.file :=
  {| FilePasswordDB.mtime := mt;
     FilePasswordDB.data :=
       b_ "alice:first" ++ [x0a] ++ b_ "bob:pw" ++ [x0a]
       ++ b_ "alice:last" ++ [x0a] |}.

(* ================================================================= *)
(** * Properties *)

(** ** Bytes and text *)

Lemma bytes_eqb_eq (a b : bytes) : bytes_eqb a b = true <-> a = b.
Proof.
  revert b; induction a as [|x a IH]; intros [|y b]; simpl;
    try (split; [discriminate | congruence]); [tauto|].
  rewrite andb_true_iff, IH. split.
  - intros [H1 H2]. apply Byte.byte_dec_bl in H1. congruence.
  - intros H; injection H as -> ->. split; [now apply Byte.byte_dec_lb | reflexivity].
Qed.

Lemma bytes_eqb_refl (a : bytes) : bytes_eqb a a = true.
Proof. now apply bytes_eqb_eq. Qed.

Lemma text_eqb_eq (a b : text) : text_eqb a b = true <-> a = b.
Proof.
  revert b; induction a as [|x a IH]; intros [|y b]; simpl;
    try (split; [discriminate | congruence]); [tauto|].
  rewrite andb_true_iff, IH, Z.eqb_eq. split.
  - intros [-> ->]; reflexivity.
  - intros H; injection H as -> ->. tauto.
Qed.

Lemma text_eqb_refl (a : text) : text_eqb a a = true.
Proof. now apply text_eqb_eq. Qed.

(** ** Dictionaries keyed by bytes *)

Lemma dict_get_set (k k' v : bytes) (d : list (bytes * bytes)) :
  dict_get bytes_eqb k (dict_set bytes_eqb k' v d) =
  if bytes_eqb k k' then Some v else dict_get bytes_eqb k d.
Proof.
  induction d as [|[k0 v0] d IH]; simpl.
  - reflexivity.
  - destruct (bytes_eqb k' k0) eqn:E0; simpl.
    + apply bytes_eqb_eq in E0; subst k0.
      destruct (bytes_eqb k k'); reflexivity.
    + destruct (bytes_eqb k k0) eqn:E1.
      * apply bytes_eqb_eq in E1; subst k0.
        destruct (bytes_eqb k k') eqn:E2; [|reflexivity].
        apply bytes_eqb_eq in E2; subst k'.
        rewrite bytes_eqb_refl in E0; discriminate.
      * exact IH.
Qed.

(** ** [FilePasswordDB] *)

Section FilePasswordDBFacts.
Import FilePasswordDB.

Lemma getitem_in_range {A : Type} (l : list A) (i : Z) :
  0 <= i < Z.of_nat (length l) ->
  exists x, getitem l i = Ok x /\ nth_error l (Z.to_nat i) = Some x.
Proof.
  intros H. unfold getitem.
  destruct (Z.ltb_spec i 0); [lia|].
  destruct (Z.leb_spec 0 i); [|lia].
  destruct (Z.ltb_spec i (Z.of_nat (length l))); [|lia]. simpl.
  destruct (nth_error l (Z.to_nat i)) eqn:E.
  - eauto.
  - apply nth_error_None in E. lia.
Qed.

Lemma load_lines_skip (self : t) (line : bytes) (rest : list bytes) :
  delim self <> [] -> too_short self line ->
  load_lines self (line :: rest) = load_lines self rest.
Proof.
  intros Hd Hs. unfold too_short in Hs. simpl.
  unfold split. destruct (delim self) as [|c sep] eqn:E; [congruence|].
  match goal with |- (if ?c then _ else _) = _ => replace c with true end;
    [reflexivity|].
  symmetry. apply orb_true_iff. destruct Hs; [left | right]; now apply Z.leb_le.
Qed.

Lemma load_lines_skip_inside (self : t) (l1 : list bytes) (line : bytes)
      (l2 : list bytes) :
  delim self <> [] -> too_short self line ->
  load_lines self (l1 ++ line :: l2) = load_lines self (l1 ++ l2).
Proof.
  intros Hd Hs. induction l1 as [|x l1 IH].
  - now apply load_lines_skip.
  - simpl. rewrite IH. reflexivity.
Qed.

Lemma load_lines_step (self : t) (line : bytes) (rest : list bytes) :
  delim self <> [] -> 0 <= ufield self -> 0 <= pfield self ->
  (too_short self line /\
   load_lines self (line :: rest) = load_lines self rest) \/
  (exists u p, yields self line u p /\
   load_lines self (line :: rest) = Yield (u, p) (load_lines self rest)).
Proof.
  intros Hd Hu Hp.
  destruct (Z.le_gt_cases
              (Z.of_nat (length (split_from (delim self) O [] (rstrip line))))
              (ufield self)) as [H1|H1];
    [left; split; [left; exact H1 | apply load_lines_skip; [exact Hd | left; exact H1]]|].
  destruct (Z.le_gt_cases
              (Z.of_nat (length (split_from (delim self) O [] (rstrip line))))
              (pfield self)) as [H2|H2];
    [left; split; [right; exact H2 | apply load_lines_skip; [exact Hd | right; exact H2]]|].
  right.
  destruct (getitem_in_range (split_from (delim self) O [] (rstrip line))
                             (ufield self)) as (u0 & Gu & _); [lia|].
  destruct (getitem_in_range (split_from (delim self) O [] (rstrip line))
                             (pfield self)) as (p & Gp & _); [lia|].
  exists (if caseSensitive self then u0 else lower u0), p. split.
  - split; [unfold too_short; simpl; lia|]. exists u0. auto.
  - simpl. unfold split. destruct (delim self) as [|c sep] eqn:E; [congruence|].
    destruct (Z.leb_spec (Z.of_nat (length (split_from (c :: sep) O [] (rstrip line))))
                         (ufield self)); [lia|].
    destruct (Z.leb_spec (Z.of_nat (length (split_from (c :: sep) O [] (rstrip line))))
                         (pfield self)); [lia|].
    simpl. rewrite Gu, Gp. reflexivity.
Qed.

Lemma load_lines_total (self : t) (lines : list bytes) :
  delim self <> [] -> 0 <= ufield self -> 0 <= pfield self ->
  outcome (load_lines self lines) = None /\
  forall u p, In (u, p) (yielded (load_lines self lines)) <->
              exists line, In line lines /\ yields self line u p.
Proof.
  intros Hd Hu Hp. induction lines as [|line rest [IHo IHy]].
  - simpl. split; [reflexivity|]. intros u p; split; [tauto|].
    intros (l & [] & _).
  - destruct (load_lines_step self line rest Hd Hu Hp)
      as [[Hs ->] | (u1 & p1 & Hy & ->)].
    + split; [exact IHo|]. intros u p. rewrite IHy. split.
      * intros (l & Hin & Hl). exists l. split; [now right | exact Hl].
      * intros (l & [<-|Hin] & Hl).
        -- destruct Hl as [Hn _]. contradiction.
        -- eauto.
    + simpl. split; [exact IHo|]. intros u p. rewrite IHy. split.
      * intros [E | (l & Hin & Hl)].
        -- injection E as <- <-. exists line. split; [now left | exact Hy].
        -- exists l. split; [now right | exact Hl].
      * intros (l & [<-|Hin] & Hl).
        -- left. destruct Hy as (_ & a & Ha1 & Ha2 & Ha3).
           destruct Hl as (_ & c & Hc1 & Hc2 & Hc3).
           rewrite Ha1 in Hc1; injection Hc1 as <-.
           rewrite Ha2 in Hc2; injection Hc2 as <-.
           subst; reflexivity.
        -- right. eauto.
Qed.

Lemma first_match_spec (username : bytes) (g : gen (bytes * bytes)) :
  outcome g = None ->
  (first_match username g = Raise KeyError /\
   ~ In username (map fst (yielded g))) \/
  (exists p, first_match username g = Ok (username, p) /\
             In (username, p) (yielded g)).
Proof.
  induction g as [|[u p] g IH|e]; simpl; intros H.
  - left. split; [reflexivity | tauto].
  - destruct (bytes_eqb u username) eqn:E.
    + apply bytes_eqb_eq in E; subst u. right. exists p. auto.
    + destruct (IH H) as [[H1 H2] | (q & H1 & H2)].
      * left. split; [exact H1|]. intros [<-|Hin]; [|tauto].
        rewrite bytes_eqb_refl in E; discriminate.
      * right. exists q. auto.
  - discriminate.
Qed.

Lemma dict_of_gen_spec (g : gen (bytes * bytes)) :
  outcome g = None -> forall d0,
  exists d, dict_of_gen g d0 = Ok d /\
    forall k, (dict_get bytes_eqb k d = None <->
                 dict_get bytes_eqb k d0 = None /\
                 ~ In k (map fst (yielded g))) /\
              (forall p, dict_get bytes_eqb k d = Some p ->
                 dict_get bytes_eqb k d0 = Some p \/ In (k, p) (yielded g)).
Proof.
  induction g as [|[u p] g IH|e]; simpl; intros H d0.
  - exists d0. split; [reflexivity|]. intros k. split; [tauto | auto].
  - destruct (IH H (dict_set bytes_eqb u p d0)) as (d & Hd & Hk).
    exists d. split; [exact Hd|]. intros k.
    destruct (Hk k) as [Hk1 Hk2]. rewrite dict_get_set in Hk1, Hk2.
    destruct (bytes_eqb k u) eqn:E.
    + apply bytes_eqb_eq in E; subst u. split.
      * rewrite Hk1. split; [intros [? _]; discriminate | intros [_ Hn]; tauto].
      * intros q Hq. destruct (Hk2 q Hq) as [Hs|Hi]; [|tauto].
        injection Hs as <-. right; now left.
    + split.
      * rewrite Hk1. split; [intros [? Hn]; split; [assumption|] | tauto].
        intros [<-|Hin]; [|tauto]. rewrite bytes_eqb_refl in E; discriminate.
      * intros q Hq. destruct (Hk2 q Hq); tauto.
  - discriminate.
Qed.

End FilePasswordDBFacts.

Section FilePasswordDBClaims.
Import FilePasswordDB.

(** C9: over a file that holds exactly the line [alice:secret], with the
    default delimiter and field indices (and whatever the case and cache
    options are, and whenever the file was last modified),
    [getUser(b"alice")] returns [(b"alice", b"secret")] and
    [getUser(b"bob")] raises [KeyError]. *)
Theorem getUser_alice_secret (cs ca : bool) (mt : Z) :
  let db := __init__ (b_ ":") 0 1 cs ca in
  fst (getUser db (Some (alice_file mt)) (b_ "alice"))
    = Ok (b_ "alice", b_ "secret") /\
  fst (getUser db (Some (alice_file mt)) (b_ "bob")) = Raise KeyError.
Proof.
  destruct cs, ca; split; reflexivity.
Qed.

(** C10, as the code has it: with a delimiter that can split a line and
    field indices that are not negative, a line with too few parts for
    either field is skipped: loading raises nothing, the line adds no
    entry, and [getUser], on a database with nothing cached yet, raises
    [KeyError] exactly when no line that is long enough yields the
    requested user name, and raises nothing else. *)
Theorem loadCredentials_skips_short_lines
        (self : t) (f : file) (username : bytes) :
  delim self <> [] -> 0 <= ufield self -> 0 <= pfield self ->
  _credCache self = None ->
  let lines := readlines (data f) in
  let canonical := if caseSensitive self then username else lower username in
  outcome (_loadCredentials self (Some f)) = None /\
  (forall l1 line l2,
      lines = l1 ++ line :: l2 -> too_short self line ->
      _loadCredentials self (Some f) = load_lines self (l1 ++ l2)) /\
  (fst (getUser self (Some f) username) = Raise KeyError <->
   ~ exists line p, In line lines /\ yields self line canonical p) /\
  (forall e, fst (getUser self (Some f) username) = Raise e -> e = KeyError).
Proof.
  intros Hd Hu Hp Hc lines canonical.
  destruct (load_lines_total self lines Hd Hu Hp) as [Ho Hy].
  assert (Hin : In canonical (map fst (yielded (load_lines self lines))) <->
                exists line p, In line lines /\ yields self line canonical p).
  { rewrite in_map_iff. split.
    - intros ([u p] & Hf & Hi). simpl in Hf; subst u.
      apply Hy in Hi. destruct Hi as (l & ? & ?). eauto.
    - intros (l & p & Hl & Hyl). exists (canonical, p). split; [reflexivity|].
      apply Hy. eauto. }
  split; [exact Ho|]. split.
  { intros l1 line l2 E Hs. simpl. fold lines. rewrite E.
    now apply load_lines_skip_inside. }
  unfold getUser. fold canonical. destruct (cache self).
  - rewrite Hc. simpl. fold lines.
    destruct (dict_of_gen_spec _ Ho []) as (d & -> & Hk). simpl.
    destruct (Hk canonical) as [Hk1 _].
    destruct (dict_get bytes_eqb canonical d) eqn:E; simpl.
    + split; [split; [discriminate|] | discriminate].
      intros Hn. rewrite <- Hin in Hn.
      destruct Hk1 as [_ Hk1]. discriminate Hk1. tauto.
    + split; [|intros e He; congruence].
      split; [|reflexivity]. intros _ Hn. apply Hin in Hn.
      destruct Hk1 as [Hk1 _]. now apply Hk1.
  - simpl. fold lines.
    destruct (first_match_spec canonical _ Ho) as [[-> Hn] | (p & -> & Hi)].
    + split; [|intros e He; congruence].
      split; [|reflexivity]. intros _ Hex. apply Hn, Hin, Hex.
    + split; [split; [discriminate|] | discriminate].
      intros Hn. exfalso. apply Hn. apply Hy in Hi.
      destruct Hi as (l & ? & ?). eauto.
Qed.

Lemma loadCredentials_skips_short_lines_witness :
  outcome (_loadCredentials default (Some short_line_file)) = None /\
  (fst (getUser default (Some short_line_file) (b_ "bob")) = Raise KeyError <->
   ~ exists line p, In line (readlines (data short_line_file)) /\
                    yields default line (b_ "bob") p).
Proof.
  destruct (loadCredentials_skips_short_lines default short_line_file (b_ "bob"))
    as (H1 & _ & H3 & _).
  - discriminate.
  - simpl; lia.
  - simpl; lia.
  - reflexivity.
  - split; [exact H1 | exact H3].
Defined.

(** C10 as stated fails for a negative field index: the line [a:b] has
    two parts, fewer than index [-3] needs, the test of
    [_loadCredentials] lets it through, and [parts[-3]] raises
    [IndexError] out of [getUser]. *)
Lemma negative_field_raises_IndexError :
  let db := __init__ (b_ ":") (-3) 1 true false in
  let f := {| mtime := 0; data := b_ "a:b" ++ [x0a] |} in
  readlines (data f) = [b_ "a:b" ++ [x0a]] /\
  split (rstrip (b_ "a:b" ++ [x0a])) (delim db) = Ok [b_ "a"; b_ "b"] /\
  outcome (_loadCredentials db (Some f)) = Some IndexError /\
  fst (getUser db (Some f) (b_ "a")) = Raise IndexError.
Proof. repeat split; reflexivity. Qed.

End FilePasswordDBClaims.

(** ** Splitting on one byte *)

Section SplitOnByte.
Variable c : byte.

Lemma split_from_cons (cur : bytes) (x : byte) (r : bytes) :
  split_from [c] O cur (x :: r) =
  if Byte.eqb c x then rev cur :: split_from [c] O [] r
  else split_from [c] O (x :: cur) r.
Proof. simpl. rewrite andb_true_r. reflexivity. Qed.

Lemma split_from_not_nil (cur s : bytes) : split_from [c] O cur s <> [].
Proof.
  revert cur; induction s as [|x r IH]; intros cur.
  - discriminate.
  - rewrite split_from_cons. destruct (Byte.eqb c x); [discriminate | apply IH].
Qed.

(** A stretch without the separator goes to the current piece. *)
Lemma split_from_piece (p cur s : bytes) :
  ~ In c p ->
  split_from [c] O cur (p ++ s) = split_from [c] O (rev p ++ cur) s.
Proof.
  revert cur; induction p as [|x p IH]; intros cur Hp.
  - reflexivity.
  - change ((x :: p) ++ s) with (x :: (p ++ s)). rewrite split_from_cons.
    destruct (Byte.eqb c x) eqn:E.
    + apply Byte.byte_dec_bl in E. subst x. exfalso. apply Hp. now left.
    + rewrite IH by (intros H; apply Hp; now right).
      simpl. rewrite <- List.app_assoc. reflexivity.
Qed.

Lemma split_from_record (p s : bytes) :
  ~ In c p ->
  split_from [c] O [] (p ++ c :: s) = p :: split_from [c] O [] s.
Proof.
  intros Hp. rewrite split_from_piece by exact Hp.
  rewrite split_from_cons, (Byte.byte_dec_lb eq_refl), List.app_nil_r, List.rev_involutive.
  reflexivity.
Qed.

Lemma split_from_end (p : bytes) :
  ~ In c p -> split_from [c] O [] p = [p].
Proof.
  intros Hp. rewrite <- (List.app_nil_r p) at 1.
  rewrite split_from_piece by exact Hp.
  simpl. rewrite List.app_nil_r, List.rev_involutive. reflexivity.
Qed.

Lemma split_from_last_clean (s cur : bytes) :
  ~ In c cur -> ~ In c (last (split_from [c] O cur s) []).
Proof.
  revert cur; induction s as [|x r IH]; intros cur Hc.
  - simpl. now rewrite <- in_rev.
  - rewrite split_from_cons. destruct (Byte.eqb c x) eqn:E.
    + pose proof (split_from_not_nil [] r) as Hn.
      destruct (split_from [c] O [] r) eqn:Er; [congruence|].
      change (~ In c (last (b :: l) [])). rewrite <- Er. apply IH. tauto.
    + apply IH. intros [<-|H]; [|tauto].
      rewrite (Byte.byte_dec_lb eq_refl) in E. discriminate.
Qed.

(** Splitting [a ++ b]: the pieces that are complete in [a], then the
    pieces of the last piece of [a] followed by [b]. *)
Lemma split_from_app_cur (a cur b : bytes) :
  split_from [c] O cur (a ++ b) =
  removelast (split_from [c] O cur a)
  ++ split_from [c] O (rev (last (split_from [c] O cur a) [])) b.
Proof.
  revert cur; induction a as [|x a IH]; intros cur.
  - simpl. now rewrite List.rev_involutive.
  - change ((x :: a) ++ b) with (x :: (a ++ b)). rewrite !split_from_cons.
    destruct (Byte.eqb c x).
    + rewrite IH. pose proof (split_from_not_nil [] a) as Hn.
      destruct (split_from [c] O [] a) eqn:Ea; [congruence|]. reflexivity.
    + apply IH.
Qed.

Lemma split_from_app (a b : bytes) :
  split_from [c] O [] (a ++ b) =
  removelast (split_from [c] O [] a)
  ++ split_from [c] O [] (last (split_from [c] O [] a) [] ++ b).
Proof.
  rewrite split_from_app_cur. f_equal.
  rewrite split_from_piece, List.app_nil_r; [reflexivity|].
  apply split_from_last_clean. tauto.
Qed.
End SplitOnByte.

(** ** The log file reader and the way its input is cut *)

Lemma removelast_app_r {A : Type} (l1 l2 : list A) :
  l2 <> [] -> removelast (l1 ++ l2) = l1 ++ removelast l2.
Proof. intros H. now apply removelast_app. Qed.

Lemma last_app_r {A : Type} (l1 l2 : list A) (d : A) :
  l2 <> [] -> last (l1 ++ l2) d = last l2 d.
Proof.
  intros H. induction l1 as [|x l1 IH]; [reflexivity|].
  simpl. destruct (l1 ++ l2) eqn:E; [|exact IH].
  apply List.app_eq_nil in E. tauto.
Qed.

(** Two reads that follow each other and return data are as one read of
    both. *)
Lemma read_loop_merge (a b : bytes) (rest : list bytes) (buffer : bytes) :
  a <> [] -> b <> [] ->
  read_loop (a :: b :: rest) buffer = read_loop ((a ++ b) :: rest) buffer.
Proof.
  intros Ha Hb. destruct a as [|x a]; [congruence|].
  destruct b as [|y b]; [congruence|].
  cbn [read_loop app].
  set (A := x :: a). set (B := y :: b).
  change (buffer ++ x :: a ++ B) with (buffer ++ A ++ B).
  assert (E : buffer ++ A ++ B = (buffer ++ A) ++ B) by now rewrite List.app_assoc.
  rewrite E, (split_from_app x1e (buffer ++ A) B).
  pose proof (split_from_not_nil x1e []
                (last (split_from [x1e] O [] (buffer ++ A)) [] ++ B)) as Hn.
  rewrite removelast_app_r, last_app_r by exact Hn.
  rewrite fold_right_app. reflexivity.
Qed.

(** Reads that all return data are as one read of their data. *)
Lemma read_loop_concat (reads : list bytes) (a buffer : bytes) :
  a <> [] -> Forall (fun r => r <> []) reads ->
  read_loop (a :: reads) buffer = read_loop [a ++ concat reads] buffer.
Proof.
  intros Ha H. revert a Ha. induction H as [|b reads Hb H IH]; intros a Ha.
  - simpl concat. now rewrite List.app_nil_r.
  - rewrite read_loop_merge by assumption.
    rewrite IH by (destruct a; [congruence | discriminate]).
    simpl concat. now rewrite List.app_assoc.
Qed.

(** C2, as the code has it: for every byte stream [S] and every offset
    [k] other than 0, reading [S] in two pieces cut at [k] lets out what
    reading it in one piece does: the same events and reports in the same
    order, and the same end.  (At [k = 0] the first read returns nothing,
    which the reader takes for the end of the file.) *)
Theorem split_read_same_events (S : bytes) (k : nat) :
  (0 < k)%nat ->
  eventsFromJSONLogFile [firstn k S; skipn k S] = eventsFromJSONLogFile [S].
Proof.
  intros Hk. unfold eventsFromJSONLogFile.
  destruct S as [|x S]; [destruct k; reflexivity|].
  destruct (skipn k (x :: S)) as [|y b] eqn:Es.
  - pose proof (firstn_skipn k (x :: S)) as E. rewrite Es, List.app_nil_r in E.
    rewrite E. reflexivity.
  - rewrite read_loop_merge.
    + rewrite <- Es, firstn_skipn. reflexivity.
    + destruct k; [lia | discriminate].
    + discriminate.
Qed.

Lemma split_read_same_events_witness :
  let S := wire_record body_x1 ++ wire_record body_y2 in
  eventsFromJSONLogFile [firstn 5 S; skipn 5 S] = eventsFromJSONLogFile [S].
Proof. apply (split_read_same_events _ 5). lia. Defined.

(** C2 as stated fails at offset 0: the first of the two reads returns the
    empty string, the reader stops there and yields nothing, while one read
    of the same two records yields their two events. *)
Lemma split_at_zero_yields_nothing :
  let S := wire_record body_x1 ++ wire_record body_y2 in
  eventsFromJSONLogFile [firstn 0 S; skipn 0 S] = Stop /\
  eventsFromJSONLogFile [S] = Yield (Event event_x1) (Yield (Event event_y2) Stop).
Proof. split; reflexivity. Qed.

Lemma eventFromRecord_line (body : bytes) :
  eventFromRecord (body ++ [x0a]) =
  match eventFromJSON_bytes (body ++ [x0a]) with
  | Ok event => Ok (event, [])
  | Raise ValueError => Ok (PyNone, [body ++ [x0a]])
  | Raise e => Raise e
  end.
Proof. unfold eventFromRecord. rewrite rev_app_distr. reflexivity. Qed.

Lemma emit_record_event (body : bytes) (event : pyobj) (k : gen emitted) :
  eventFromJSON_bytes (body ++ [x0a]) = Ok event -> event <> PyNone ->
  emit_record (body ++ [x0a]) k = Yield (Event event) k.
Proof.
  intros H Hn. unfold emit_record. rewrite eventFromRecord_line, H.
  destruct event; try reflexivity. congruence.
Qed.


Lemma emit_record_raise (body : bytes) (e : exn) (k : gen emitted) :
  eventFromJSON_bytes (body ++ [x0a]) = Raise e -> e <> ValueError ->
  emit_record (body ++ [x0a]) k = Throw e.
Proof.
  intros H Hn. unfold emit_record. rewrite eventFromRecord_line, H.
  destruct e; try reflexivity. congruence.
Qed.

Lemma not_in_line (body : bytes) : ~ In x1e body -> ~ In x1e (body ++ [x0a]).
Proof.
  intros H Hin. apply in_app_or in Hin. destruct Hin as [Hin|[Hin|[]]];
    [tauto | discriminate].
Qed.

(** One read of three records. *)
Lemma read_three_records (j1 j2 j3 : bytes) :
  ~ In x1e j1 -> ~ In x1e j2 -> ~ In x1e j3 ->
  read_loop [wire_record j1 ++ wire_record j2 ++ wire_record j3] [] =
  emit_record (j1 ++ [x0a])
    (emit_record (j2 ++ [x0a]) (emit_record (j3 ++ [x0a]) Stop)).
Proof.
  intros H1 H2 H3. unfold wire_record.
  cbn [read_loop app].
  assert (E : split_from [x1e] O []
                (x1e :: (j1 ++ [x0a]) ++ x1e :: (j2 ++ [x0a]) ++ x1e :: j3 ++ [x0a])
              = [[]; j1 ++ [x0a]; j2 ++ [x0a]; j3 ++ [x0a]]).
  { pose proof (fun s => split_from_record x1e [] s (fun H => H)) as E0.
    cbn [app] in E0. rewrite E0.
    rewrite (split_from_record x1e (j1 ++ [x0a])) by now apply not_in_line.
    rewrite (split_from_record x1e (j2 ++ [x0a])) by now apply not_in_line.
    rewrite (split_from_end x1e (j3 ++ [x0a])) by now apply not_in_line.
    reflexivity. }
  rewrite E. reflexivity.
Qed.



(** ** The type registry and the load hook *)

Lemma uuidToLoader_lookup (u : Z) :
  dict_get Z.eqb u uuidToLoader =
  if u =? uuid_LogLevel then Some logLevelFromJSON
  else if u =? uuid_Failure then Some failureFromJSON
  else None.
Proof.
  unfold uuidToLoader, classInfo, dict_of_items. cbn [map fold_left fst snd uuid loader dict_set].
  replace (uuid_Failure =? uuid_LogLevel) with false by reflexivity.
  cbn [dict_get].
  destruct (u =? uuid_LogLevel); [reflexivity|].
  destruct (u =? uuid_Failure); reflexivity.
Qed.

Lemma objectLoadHook_tagged (aDict : pydict) (tag : pyobj) :
  py_get class_uuid_key aDict = Some tag ->
  objectLoadHook aDict =
  u <- UUID tag ;;
  if u =? uuid_LogLevel then logLevelFromJSON (PyDict aDict)
  else if u =? uuid_Failure then failureFromJSON (PyDict aDict)
  else Raise KeyError.
Proof.
  intros H. unfold objectLoadHook, py_has, py_item.
  rewrite H. cbn [bind].
  destruct (UUID tag) as [u|e]; [|reflexivity]. cbn [bind].
  rewrite uuidToLoader_lookup.
  destruct (u =? uuid_LogLevel); [reflexivity|].
  destruct (u =? uuid_Failure); reflexivity.
Qed.

Lemma objectLoadHook_untagged (aDict : pydict) :
  py_has class_uuid_key aDict = false ->
  objectLoadHook aDict = Ok (PyDict aDict).
Proof.
  intros H. unfold objectLoadHook. now rewrite H.
Qed.

(** C7, as the code has it: a mapping that has the tag field is handed to
    the decoder of its tag as it is, the tag field still in it; a mapping
    without the tag field is returned unchanged. *)
Theorem objectLoadHook_hands_mapping_over (aDict : pydict) :
  (forall tag u,
      py_get class_uuid_key aDict = Some tag -> UUID tag = Ok u ->
      py_has class_uuid_key aDict = true /\
      (u = uuid_LogLevel ->
       objectLoadHook aDict = logLevelFromJSON (PyDict aDict)) /\
      (u = uuid_Failure ->
       objectLoadHook aDict = failureFromJSON (PyDict aDict))) /\
  (py_has class_uuid_key aDict = false ->
   objectLoadHook aDict = Ok (PyDict aDict)).
Proof.
  split; [|apply objectLoadHook_untagged].
  intros tag u Hg Hu. split; [unfold py_has; now rewrite Hg|].
  rewrite (objectLoadHook_tagged aDict tag Hg), Hu. cbn [bind].
  split; intros ->; reflexivity.
Qed.

Lemma objectLoadHook_hands_mapping_over_witness :
  py_has class_uuid_key boom_dict = true /\
  objectLoadHook boom_dict = failureFromJSON (PyDict boom_dict).
Proof.
  destruct (proj1 (objectLoadHook_hands_mapping_over boom_dict)
                  (PyStr (uuid_str uuid_Failure)) uuid_Failure)
    as (H1 & _ & H3).
  - reflexivity.
  - reflexivity.
  - split; [exact H1 | apply H3; reflexivity].
Defined.

(** C7 as stated fails: the decoder of error records gets the mapping with
    the tag field in it, and the tag field ends up in the state of the
    error record, which is not what it makes of the mapping without the
    tag field. *)
Lemma tag_field_is_not_removed :
  objectLoadHook boom_dict = failureFromJSON (PyDict boom_dict) /\
  objectLoadHook boom_dict
    <> failureFromJSON (PyDict (py_del class_uuid_key boom_dict)) /\
  exists state type,
    objectLoadHook boom_dict = Ok (PyFailure state type) /\
    py_get class_uuid_key state = Some (PyStr (uuid_str uuid_Failure)).
Proof.
  split; [reflexivity|]. split.
  - vm_compute. discriminate.
  - eexists. eexists. split; vm_compute; reflexivity.
Qed.

(** C3, as the code has it: a mapping whose tag is a well-formed UUID that
    the registry does not have makes the hook raise [KeyError], never
    return the mapping; and a record whose decoding raises [KeyError] is
    not skipped: [KeyError] is no [ValueError], so after the events of the
    records before it the error leaves the reader, with no report, and
    the records after it are not decoded. *)
Theorem unknown_tag_aborts_the_reader
        (aDict : pydict) (tag : pyobj) (u : Z)
        (j1 bad j2 : bytes) (e1 : pyobj) :
  py_get class_uuid_key aDict = Some tag -> UUID tag = Ok u ->
  u <> uuid_LogLevel -> u <> uuid_Failure ->
  ~ In x1e j1 -> ~ In x1e bad -> ~ In x1e j2 ->
  eventFromJSON_bytes (j1 ++ [x0a]) = Ok e1 -> e1 <> PyNone ->
  eventFromJSON_bytes (bad ++ [x0a]) = Raise KeyError ->
  objectLoadHook aDict = Raise KeyError /\
  eventsFromJSONLogFile
    [wire_record j1 ++ wire_record bad ++ wire_record j2]
  = Yield (Event e1) (Throw KeyError).
Proof.
  intros Hg Hu N1 N2 H1 Hb H2 D1 Ne Db. split.
  - rewrite (objectLoadHook_tagged aDict tag Hg), Hu. cbn [bind].
    destruct (Z.eqb_spec u uuid_LogLevel); [contradiction|].
    destruct (Z.eqb_spec u uuid_Failure); [contradiction|]. reflexivity.
  - unfold eventsFromJSONLogFile. rewrite read_three_records by assumption.
    rewrite (emit_record_event j1 e1) by assumption.
    rewrite (emit_record_raise bad KeyError) by (assumption || discriminate).
    reflexivity.
Qed.

Lemma unknown_tag_aborts_the_reader_witness :
  objectLoadHook unknown_tag_dict = Raise KeyError /\
  eventsFromJSONLogFile
    [wire_record body_x1 ++ wire_record body_unknown_tag ++ wire_record body_y2]
  = Yield (Event event_x1) (Throw KeyError).
Proof.
  apply (unknown_tag_aborts_the_reader unknown_tag_dict (PyStr unknown_tag) 0
           body_x1 body_unknown_tag body_y2 event_x1).
  - reflexivity.
  - reflexivity.
  - discriminate.
  - discriminate.
  - vm_compute. intuition discriminate.
  - vm_compute. intuition discriminate.
  - vm_compute. intuition discriminate.
  - reflexivity.
  - discriminate.
  - reflexivity.
Defined.

(** C3 as stated fails: with a record of an unknown tag between two valid
    records the reader reports nothing and does not go on to the third
    record; the error leaves it after the first event. *)
Lemma unknown_tag_record_is_not_skipped :
  let g := eventsFromJSONLogFile
             [wire_record body_x1 ++ wire_record body_unknown_tag
              ++ wire_record body_y2] in
  eventFromJSON_bytes (body_unknown_tag ++ [x0a]) = Raise KeyError /\
  outcome g = Some KeyError /\
  diagnostics_of g = [] /\
  events_of g = [event_x1].
Proof. repeat split; reflexivity. Qed.

(** ** The error record of the example *)

(** C4, as the code has it: the error record with state
    [{message: "boom"}] and type [BoomError] of [app.errors], encoded and
    decoded from the text alone, comes back as an error record whose state
    has the entry [message: "boom"] of the original and, after it, two
    entries more, [type] and the tag field, and whose type is a class
    made on the spot, with the name [BoomError] and the module
    [app.errors]. *)
Theorem failure_round_trip :
  exists text cls,
    dumps default boom_event = Ok text /\
    cls = PyType (u_ "BoomError")
            [(PyStr (u_ "__module__"), PyStr (u_ "app.errors"));
             (PyStr (u_ "__name__"), PyStr (u_ "BoomError"))] /\
    eventFromJSON text =
      Ok (PyDict
            [(PyStr (u_ "log_failure"),
              PyFailure
                (boom_state ++
                 [(PyStr (u_ "type"), cls);
                  (PyStr class_uuid_key, PyStr (uuid_str uuid_Failure))])
                cls)]) /\
    type_name cls = Ok (PyStr (u_ "BoomError")) /\
    type_module cls = Ok (PyStr (u_ "app.errors")).
Proof.
  eexists. eexists. split; [vm_compute; reflexivity|].
  split; [reflexivity|]. split; [vm_compute; reflexivity|].
  split; reflexivity.
Qed.

(** C4 as stated fails: the state of the decoded error record is not the
    original state mapping. *)
Lemma failure_state_grows :
  exists text state type,
    dumps default boom_event = Ok text /\
    eventFromJSON text =
      Ok (PyDict [(PyStr (u_ "log_failure"), PyFailure state type)]) /\
    state <> boom_state /\
    length state = 3%nat.
Proof.
  eexists. eexists. eexists. split; [vm_compute; reflexivity|].
  split; [vm_compute; reflexivity|]. split; [discriminate | reflexivity].
Qed.

(** ** The text [dumps] writes *)

Lemma hexdigit_printable (v : Z) : printable (hexdigit (v mod 16)).
Proof.
  unfold printable, hexdigit.
  pose proof (Z.mod_pos_bound v 16 ltac:(lia)).
  destruct (Z.ltb_spec (v mod 16) 10); lia.
Qed.

Lemma u_escape_printable (c : Z) : Forall printable (u_escape c).
Proof.
  unfold u_escape. repeat constructor; try apply hexdigit_printable;
    unfold printable; lia.
Qed.

Lemma escape_char_printable (c : Z) : Forall printable (escape_char c).
Proof.
  unfold escape_char.
  repeat match goal with
         | |- Forall _ (if ?b then _ else _) => destruct b eqn:?
         end;
    try (repeat constructor; unfold printable; lia);
    try apply u_escape_printable.
  apply Forall_app. split; apply u_escape_printable.
Qed.

Lemma encode_basestring_ascii_printable (s : text) :
  Forall printable (encode_basestring_ascii s).
Proof.
  unfold encode_basestring_ascii. constructor; [unfold printable; lia|].
  apply Forall_app. split; [|repeat constructor; unfold printable; lia].
  induction s as [|c s IH]; simpl; [constructor|].
  apply Forall_app. split; [apply escape_char_printable | exact IH].
Qed.

Lemma uint_text_printable (u : Decimal.uint) : Forall printable (uint_text u).
Proof.
  induction u; simpl; constructor; try assumption; unfold printable; lia.
Qed.

Lemma int_repr_printable (z : Z) : Forall printable (int_repr z).
Proof.
  unfold int_repr. destruct (Z.to_int z).
  - apply uint_text_printable.
  - constructor; [unfold printable; lia | apply uint_text_printable].
Qed.

Lemma float_repr_printable (f : pyfloat) : Forall printable (float_repr f).
Proof.
  assert (Hc : forall w, forallb (fun c => (32 <=? c) && (c <=? 126)) w = true ->
                         Forall printable w).
  { intros w H. apply Forall_forall. intros c Hin.
    rewrite forallb_forall in H. specialize (H c Hin).
    apply andb_true_iff in H. destruct H as [H1 H2].
    apply Z.leb_le in H1, H2. split; assumption. }
  destruct f as [|[|]|neg ip frac ex]; [now apply Hc..|].
  cbn [float_repr]. apply Forall_app. split.
  { destruct neg; repeat constructor; unfold printable; lia. }
  apply Forall_app. split; [apply uint_text_printable|].
  apply Forall_app. split.
  { destruct frac; [constructor; [unfold printable; lia | apply uint_text_printable]
                   | constructor]. }
  destruct ex as [[sg d]|]; [|constructor].
  constructor; [unfold printable; lia|]. apply Forall_app. split.
  - destruct sg as [[|]|]; repeat constructor; unfold printable; lia.
  - apply uint_text_printable.
Qed.

Lemma join_printable (sep : text) (l : list text) :
  Forall printable sep -> Forall (Forall printable) l ->
  Forall printable (join sep l).
Proof.
  intros Hs Hl. induction Hl as [|x l Hx Hl IH]; simpl; [constructor|].
  destruct l as [|y l]; [exact Hx|].
  apply Forall_app. split; [exact Hx|]. apply Forall_app. split; assumption.
Qed.

Lemma map_result_Forall {A B : Type} (f : A -> result B) (P : B -> Prop)
      (l : list A) (ys : list B) :
  (forall x y, f x = Ok y -> P y) ->
  map_result f l = Ok ys -> Forall P ys.
Proof.
  intros Hf. revert ys. induction l as [|x l IH]; simpl; intros ys H.
  - injection H as <-. constructor.
  - destruct (f x) as [y|] eqn:E; [|discriminate]. cbn [bind] in H.
    destruct (map_result f l) as [ys'|]; [|discriminate]. cbn [bind] in H.
    injection H as <-. constructor; [eapply Hf; eassumption | now apply IH].
Qed.

Lemma encode_items_printable (enc : pyobj -> result text) (d : pydict)
      (items : list text) :
  (forall o t, enc o = Ok t -> Forall printable t) ->
  encode_items enc d = Ok items -> Forall (Forall printable) items.
Proof.
  intros Henc. revert items.
  induction d as [|[k v] d IH]; cbn [encode_items]; intros items H.
  - injection H as <-. constructor.
  - destruct (key_text k) as [kt|]; [|now apply IH].
    destruct (enc v) as [vt|] eqn:E; [|discriminate]. cbn [bind] in H.
    destruct (encode_items enc d) as [rest|] eqn:Er; [|discriminate].
    cbn [bind] in H.
    assert (Hi : items = (encode_basestring_ascii kt ++ [58; 32] ++ vt) :: rest)
      by congruence.
    rewrite Hi. constructor; [|now apply IH].
    apply Forall_app. split; [apply encode_basestring_ascii_printable|].
    apply Forall_app. split; [repeat constructor; unfold printable; lia|].
    eapply Henc; eassumption.
Qed.

(** Whatever [default] makes of the objects it is given, the text is
    printable ASCII. *)
Lemma iterencode_printable (dflt : pyobj -> result pyobj) (n : nat) :
  forall o t, iterencode dflt n o = Ok t -> Forall printable t.
Proof.
  induction n as [|n IH]; intros o t H; [discriminate|].
  assert (Hsep : Forall printable [44; 32])
    by (repeat constructor; unfold printable; lia).
  assert (Hdef : bind (dflt o) (iterencode dflt n) = Ok t ->
                 Forall printable t).
  { destruct (dflt o) as [o'|]; [|discriminate]. apply IH. }
  destruct o; cbn [iterencode] in H; try (now apply Hdef).
  - injection H as <-. vm_compute. repeat constructor; discriminate.
  - destruct b; injection H as <-; vm_compute; repeat constructor; discriminate.
  - injection H as <-. apply int_repr_printable.
  - injection H as <-. apply float_repr_printable.
  - injection H as <-. apply encode_basestring_ascii_printable.
  - destruct (map_result (iterencode dflt n) l) as [items|] eqn:E; [|discriminate].
    cbn [bind] in H. injection H as <-.
    constructor; [unfold printable; lia|].
    apply Forall_app. split; [|repeat constructor; unfold printable; lia].
    apply join_printable; [exact Hsep|].
    eapply map_result_Forall; [|exact E]. exact IH.
  - destruct (encode_items (iterencode dflt n) d) as [items|] eqn:E; [|discriminate].
    cbn [bind] in H. injection H as <-.
    constructor; [unfold printable; lia|].
    apply Forall_app. split; [|repeat constructor; unfold printable; lia].
    apply join_printable; [exact Hsep|].
    eapply encode_items_printable; [|exact E]. exact IH.
Qed.

(** C5: whatever the event is and whatever flattening made of it, the
    text [eventAsJSON] returns holds no line feed; it holds nothing but
    printable ASCII. *)
Theorem eventAsJSON_no_line_feed
        (flattenEvent : pyobj -> result pyobj) (event : pyobj) (t : text) :
  eventAsJSON flattenEvent event = Ok t ->
  ~ In 10 t /\ Forall printable t.
Proof.
  intros H. unfold eventAsJSON, dumps in H.
  destruct (flattenEvent event) as [event'|]; [|discriminate]. cbn [bind] in H.
  apply iterencode_printable in H. split; [|exact H].
  intros Hin. rewrite Forall_forall in H. apply H in Hin.
  unfold printable in Hin. lia.
Qed.

Lemma eventAsJSON_no_line_feed_witness :
  exists t, eventAsJSON Ok event_two_lines = Ok t /\ ~ In 10 t.
Proof.
  eexists. split; [vm_compute; reflexivity|].
  eapply (eventAsJSON_no_line_feed Ok event_two_lines).
  vm_compute; reflexivity.
Defined.

(** ** Strings: [scanstring] reads what [encode_basestring_ascii] writes *)

Lemma hexval_hexdigit (v : Z) : 0 <= v < 16 -> hexval (hexdigit v) = Some v.
Proof.
  intros H.
  assert (E : v = 0 \/ v = 1 \/ v = 2 \/ v = 3 \/ v = 4 \/ v = 5 \/ v = 6
              \/ v = 7 \/ v = 8 \/ v = 9 \/ v = 10 \/ v = 11 \/ v = 12
              \/ v = 13 \/ v = 14 \/ v = 15) by lia.
  repeat (destruct E as [->|E]; [reflexivity|]). subst v. reflexivity.
Qed.

Lemma hex4_u_escape (x : Z) :
  0 <= x < 65536 ->
  hex4 (hexdigit (x / 4096 mod 16)) (hexdigit (x / 256 mod 16))
       (hexdigit (x / 16 mod 16)) (hexdigit (x mod 16)) = Some x.
Proof.
  intros H. unfold hex4.
  rewrite !hexval_hexdigit by (apply Z.mod_pos_bound; lia).
  f_equal. Z.to_euclidean_division_equations. lia.
Qed.

Lemma scanstring_u (h1 h2 h3 h4 : Z) (r2 : text) :
  scanstring (92 :: 117 :: h1 :: h2 :: h3 :: h4 :: r2) =
  match hex4 h1 h2 h3 h4 with
  | None => Raise ValueError
  | Some uni =>
      let lone := ' (t, r') <- scanstring r2 ;; Ok (uni :: t, r') in
      if is_high_surrogate uni then
        match r2 with
        | b :: u :: g1 :: g2 :: g3 :: g4 :: r3 =>
            if (b =? 92) && (u =? 117) then
              match hex4 g1 g2 g3 g4 with
              | None => Raise ValueError
              | Some uni2 =>
                  if is_low_surrogate uni2 then
                    ' (t, r') <- scanstring r3 ;;
                    Ok (65536 + (uni - 55296) * 1024 + (uni2 - 56320) :: t, r')
                  else lone
              end
            else lone
        | _ => lone
        end
      else lone
  end.
Proof. reflexivity. Qed.

Lemma scanstring_short (e x : Z) (r : text) :
  e <> 117 -> short_escape e = Some x ->
  scanstring (92 :: e :: r) = ' (t, r') <- scanstring r ;; Ok (x :: t, r').
Proof.
  intros He Hs. cbn [scanstring].
  change (92 =? 34) with false. change (92 =? 92) with true. cbv iota.
  destruct (Z.eqb_spec e 117); [contradiction|]. rewrite Hs. reflexivity.
Qed.

Lemma scanstring_plain (c : Z) (r : text) :
  c <> 34 -> c <> 92 -> 32 <= c ->
  scanstring (c :: r) = ' (t, r') <- scanstring r ;; Ok (c :: t, r').
Proof.
  intros H1 H2 H3. cbn [scanstring].
  destruct (Z.eqb_spec c 34); [contradiction|].
  destruct (Z.eqb_spec c 92); [contradiction|].
  destruct (Z.ltb_spec c 32); [lia | reflexivity].
Qed.

Lemma scanstring_lone (x : Z) (r : text) :
  0 <= x < 65536 -> is_high_surrogate x = false ->
  scanstring (u_escape x ++ r) = ' (t, r') <- scanstring r ;; Ok (x :: t, r').
Proof.
  intros Hx Hh. unfold u_escape. cbn [app].
  rewrite scanstring_u, hex4_u_escape by exact Hx.
  cbv zeta. rewrite Hh. reflexivity.
Qed.

Lemma scanstring_pair (hi lo : Z) (r : text) :
  55296 <= hi <= 56319 -> 56320 <= lo <= 57343 ->
  scanstring (u_escape hi ++ u_escape lo ++ r) =
  ' (t, r') <- scanstring r ;;
  Ok (65536 + (hi - 55296) * 1024 + (lo - 56320) :: t, r').
Proof.
  intros Hh Hl. unfold u_escape. cbn [app].
  rewrite scanstring_u, hex4_u_escape by lia. cbv zeta.
  replace (is_high_surrogate hi) with true
    by (unfold is_high_surrogate; symmetry; apply andb_true_iff;
        split; apply Z.leb_le; lia).
  change ((92 =? 92) && (117 =? 117)) with true. cbv iota.
  rewrite hex4_u_escape by lia.
  replace (is_low_surrogate lo) with true
    by (unfold is_low_surrogate; symmetry; apply andb_true_iff;
        split; apply Z.leb_le; lia).
  reflexivity.
Qed.

Lemma scalar_bounds (c : Z) :
  scalar c = true -> 0 <= c < 55296 \/ 57343 < c < 1114112.
Proof.
  unfold scalar. intros H. apply orb_true_iff in H.
  destruct H as [H|H]; apply andb_true_iff in H; destruct H as [H1 H2];
    [apply Z.leb_le in H1 | apply Z.ltb_lt in H1]; apply Z.ltb_lt in H2; lia.
Qed.

Lemma scanstring_escape_char (c : Z) (r : text) :
  scalar c = true ->
  scanstring (escape_char c ++ r) = ' (t, r') <- scanstring r ;; Ok (c :: t, r').
Proof.
  intros Hc. apply scalar_bounds in Hc. unfold escape_char.
  destruct (Z.eqb_spec c 34) as [->|N1]; [now apply scanstring_short|].
  destruct (Z.eqb_spec c 92) as [->|N2]; [now apply scanstring_short|].
  destruct (Z.eqb_spec c 10) as [->|N3]; [now apply scanstring_short|].
  destruct (Z.eqb_spec c 13) as [->|N4]; [now apply scanstring_short|].
  destruct (Z.eqb_spec c 9) as [->|N5]; [now apply scanstring_short|].
  destruct (Z.eqb_spec c 8) as [->|N6]; [now apply scanstring_short|].
  destruct (Z.eqb_spec c 12) as [->|N7]; [now apply scanstring_short|].
  destruct ((32 <=? c) && (c <=? 126)) eqn:Ep.
  - apply andb_true_iff in Ep. destruct Ep as [E1 E2]. apply Z.leb_le in E1.
    now apply scanstring_plain.
  - destruct (Z.ltb_spec c 65536).
    + apply scanstring_lone; [lia|].
      unfold is_high_surrogate. apply andb_false_iff.
      destruct Hc; [left; apply Z.leb_gt | right; apply Z.leb_gt]; lia.
    + rewrite <- List.app_assoc.
      rewrite scanstring_pair by (Z.to_euclidean_division_equations; lia).
      replace (65536 + (55296 + ((c - 65536) / 1024) mod 1024 - 55296) * 1024
               + (56320 + (c - 65536) mod 1024 - 56320)) with c
        by (Z.to_euclidean_division_equations; lia).
      reflexivity.
Qed.

Lemma scanstring_flat_map (s : text) (rest : text) :
  text_ok s = true ->
  scanstring (flat_map escape_char s ++ 34 :: rest) = Ok (s, rest).
Proof.
  induction s as [|c s IH]; intros H.
  - reflexivity.
  - cbn [text_ok forallb] in H. apply andb_true_iff in H. destruct H as [Hc Hs].
    cbn [flat_map]. rewrite <- List.app_assoc, scanstring_escape_char by exact Hc.
    rewrite IH by exact Hs. reflexivity.
Qed.

Lemma scanstring_encode (s : text) (rest : text) :
  text_ok s = true ->
  exists body, encode_basestring_ascii s ++ rest = 34 :: body /\
               scanstring body = Ok (s, rest).
Proof.
  intros H. exists (flat_map escape_char s ++ 34 :: rest). split.
  - unfold encode_basestring_ascii. cbn [app]. rewrite <- List.app_assoc. reflexivity.
  - now apply scanstring_flat_map.
Qed.

(** ** Numbers: [scan_number] reads what [repr] writes *)

Lemma digit_of_None (c : Z) : is_digit c = false -> digit_of c = None.
Proof.
  unfold is_digit, digit_of. intros H. apply andb_false_iff in H.
  repeat match goal with
         | |- (if ?c =? ?k then _ else _) = _ =>
             destruct (Z.eqb_spec c k);
             [exfalso; destruct H as [H|H]; apply Z.leb_gt in H; lia|]
         end.
  reflexivity.
Qed.

Lemma scan_digits_uint_text (u : Decimal.uint) (rest : text) :
  not_digit_head rest = true ->
  scan_digits (uint_text u ++ rest) = (u, rest).
Proof.
  intros H. induction u; cbn [uint_text app];
    try (cbn [scan_digits]; cbn; rewrite IHu; reflexivity).
  destruct rest as [|c r]; [reflexivity|].
  cbn [not_digit_head] in H. apply negb_true_iff in H.
  cbn [scan_digits]. now rewrite digit_of_None.
Qed.

Lemma uint_text_head (d : Decimal.uint) :
  some_digits d = true ->
  exists c t, uint_text d = c :: t /\ is_digit c = true.
Proof.
  destruct d; intros H; try discriminate; eexists; eexists; split; reflexivity.
Qed.

Lemma follow_ok_cases (c : Z) (r : text) :
  follow_ok (c :: r) = true -> c = 44 \/ c = 93 \/ c = 125.
Proof.
  cbn [follow_ok]. intros H.
  apply orb_true_iff in H. destruct H as [H|H];
    [apply orb_true_iff in H; destruct H as [H|H]|]; apply Z.eqb_eq in H; tauto.
Qed.

Lemma follow_not_digit (rest : text) :
  follow_ok rest = true -> not_digit_head rest = true.
Proof.
  destruct rest as [|c r]; [reflexivity|]. intros H.
  apply follow_ok_cases in H. destruct H as [->|[->| ->]]; reflexivity.
Qed.

Lemma scan_frac_follow (rest : text) :
  follow_ok rest = true -> scan_frac rest = (None, rest).
Proof.
  destruct rest as [|c [|d r]]; try reflexivity. intros H.
  apply follow_ok_cases in H. destruct H as [->|[->| ->]]; reflexivity.
Qed.

Lemma scan_exp_follow (rest : text) :
  follow_ok rest = true -> scan_exp rest = (None, rest).
Proof.
  destruct rest as [|c r]; [reflexivity|]. intros H.
  apply follow_ok_cases in H. destruct H as [->|[->| ->]]; reflexivity.
Qed.

Lemma scan_frac_exp (e : Z) (r : text) :
  e = 101 -> scan_frac (e :: r) = (None, e :: r).
Proof. intros ->. destruct r; reflexivity. Qed.

Lemma scan_frac_some (d : Decimal.uint) (more : text) :
  some_digits d = true -> not_digit_head more = true ->
  scan_frac (46 :: uint_text d ++ more) = (Some d, more).
Proof.
  intros Hd Hm. destruct (uint_text_head d Hd) as (c & t & E & Hc).
  unfold scan_frac. rewrite E. cbn [app].
  change (46 =? 46) with true. rewrite Hc. cbn [andb].
  change (c :: t ++ more) with ((c :: t) ++ more). rewrite <- E.
  now rewrite scan_digits_uint_text.
Qed.

Lemma is_digit_bounds (c : Z) : is_digit c = true -> 48 <= c <= 57.
Proof.
  unfold is_digit. intros H. apply andb_true_iff in H. destruct H as [H1 H2].
  apply Z.leb_le in H1, H2. lia.
Qed.

Lemma scan_exp_some (sg : option bool) (d : Decimal.uint) (rest : text) :
  some_digits d = true -> not_digit_head rest = true ->
  scan_exp (101 :: sign_text sg ++ uint_text d ++ rest) = (Some (sg, d), rest).
Proof.
  intros Hd Hr. destruct (uint_text_head d Hd) as (c & t & E & Hc).
  pose proof (scan_digits_uint_text d rest Hr) as Hs.
  rewrite E in Hs |- *. cbn [app] in Hs. unfold scan_exp.
  change ((101 =? 101) || (101 =? 69)) with true. cbv iota.
  destruct sg as [[|]|]; cbn [sign_text app].
  - change ((45 =? 43) || (45 =? 45)) with true. rewrite Hc. cbn [andb].
    now rewrite Hs.
  - change ((43 =? 43) || (43 =? 45)) with true. rewrite Hc. cbn [andb].
    now rewrite Hs.
  - pose proof (is_digit_bounds c Hc) as Hb.
    assert (E1 : (c =? 43) || (c =? 45) = false).
    { apply orb_false_iff. split; apply Z.eqb_neq; lia. }
    destruct (t ++ rest) as [|x r1] eqn:Et.
    + rewrite Hc, Hs. reflexivity.
    + rewrite E1. cbn [andb]. rewrite Hc, Hs. reflexivity.
Qed.

Lemma int_part_some_digits (ip : Decimal.uint) :
  int_part_ok ip = true -> some_digits ip = true.
Proof. destruct ip; intros H; try discriminate; reflexivity. Qed.

Lemma exp_rest_not_digit (ex : option (option bool * Decimal.uint)) (rest : text) :
  follow_ok rest = true -> not_digit_head (exp_text ex ++ rest) = true.
Proof.
  intros H. destruct ex as [[sg d]|]; [reflexivity | now apply follow_not_digit].
Qed.

Lemma scan_number_lit (neg : bool) (ip : Decimal.uint)
      (frac : option Decimal.uint) (ex : option (option bool * Decimal.uint))
      (rest : text) :
  int_part_ok ip = true ->
  match frac with Some d => some_digits d | None => true end = true ->
  match ex with Some (_, d) => some_digits d | None => true end = true ->
  follow_ok rest = true ->
  scan_number neg (uint_text ip ++ frac_text frac ++ exp_text ex ++ rest) =
  Ok (match frac, ex with
      | None, None =>
          PyInt (Z.of_int (if neg then Decimal.Neg ip else Decimal.Pos ip))
      | _, _ => PyFloat (FLit neg ip frac ex)
      end, rest).
Proof.
  intros Hip Hf He Hr.
  set (more := frac_text frac ++ exp_text ex ++ rest).
  assert (Hexp : scan_exp (exp_text ex ++ rest) = (ex, rest)).
  { destruct ex as [[sg d]|]; [|now apply scan_exp_follow].
    cbn [exp_text app]. rewrite <- List.app_assoc.
    apply scan_exp_some; [exact He | now apply follow_not_digit]. }
  assert (Hfrac : scan_frac more = (frac, exp_text ex ++ rest)).
  { unfold more. destruct frac as [d|]; cbn [frac_text app].
    - apply scan_frac_some; [exact Hf | now apply exp_rest_not_digit].
    - destruct ex as [[sg d]|]; [now apply scan_frac_exp|].
      now apply scan_frac_follow. }
  assert (Hmore : not_digit_head more = true).
  { unfold more. destruct frac as [d|]; [reflexivity|].
    now apply exp_rest_not_digit. }
  assert (Hend : forall r1 : text,
             r1 = more ->
             (let (frac0, r2) := scan_frac r1 in
              let (ex0, r3) := scan_exp r2 in
              match frac0, ex0 with
              | None, None =>
                  Ok (PyInt (Z.of_int (if neg then Decimal.Neg ip
                                       else Decimal.Pos ip)), r3)
              | _, _ => Ok (PyFloat (FLit neg ip frac0 ex0), r3)
              end) =
             Ok (match frac, ex with
                 | None, None =>
                     PyInt (Z.of_int (if neg then Decimal.Neg ip
                                      else Decimal.Pos ip))
                 | _, _ => PyFloat (FLit neg ip frac ex)
                 end, rest)).
  { intros r1 ->. rewrite Hfrac, Hexp. destruct frac, ex; reflexivity. }
  pose proof (scan_digits_uint_text ip more Hmore) as Hs.
  fold more.
  destruct ip as [|u|u|u|u|u|u|u|u|u|u]; try discriminate Hip;
    [destruct u; try discriminate Hip; now apply Hend|..];
    cbn [uint_text app] in Hs |- *; unfold scan_number;
    match goal with
    | |- context [is_digit ?c] =>
        change (is_digit c) with true; change (c =? 48) with false
    end; cbv iota; rewrite Hs; now apply Hend.
Qed.

Lemma strip_prefix_head (w : text) (w0 c : Z) (r : text) :
  hd_error w = Some w0 -> w0 <> c -> strip_prefix w (c :: r) = None.
Proof.
  destruct w as [|x w]; [discriminate|]. intros H; injection H as ->.
  intros Hn. cbn [strip_prefix]. now destruct (Z.eqb_spec w0 c).
Qed.

Lemma scan_once_digit (m : nat) (c : Z) (r : text) :
  is_digit c = true ->
  scan_once objectLoadHook (S m) (c :: r) = scan_number false (c :: r).
Proof.
  intros H. apply is_digit_bounds in H. cbn [scan_once].
  destruct (Z.eqb_spec c 34); [lia|].
  destruct (Z.eqb_spec c 123); [lia|].
  destruct (Z.eqb_spec c 91); [lia|].
  rewrite (strip_prefix_head (u_ "null") 110) by (reflexivity || lia).
  rewrite (strip_prefix_head (u_ "true") 116) by (reflexivity || lia).
  rewrite (strip_prefix_head (u_ "false") 102) by (reflexivity || lia).
  rewrite (strip_prefix_head (u_ "NaN") 78) by (reflexivity || lia).
  rewrite (strip_prefix_head (u_ "Infinity") 73) by (reflexivity || lia).
  rewrite (strip_prefix_head (u_ "-Infinity") 45) by (reflexivity || lia).
  destruct (Z.eqb_spec c 45); [lia | reflexivity].
Qed.

Lemma scan_once_minus (m : nat) (c : Z) (r : text) :
  is_digit c = true ->
  scan_once objectLoadHook (S m) (45 :: c :: r) = scan_number true (c :: r).
Proof.
  intros H. apply is_digit_bounds in H. cbn [scan_once].
  change (45 =? 34) with false. change (45 =? 123) with false.
  change (45 =? 91) with false. cbv iota.
  rewrite (strip_prefix_head (u_ "null") 110) by (reflexivity || lia).
  rewrite (strip_prefix_head (u_ "true") 116) by (reflexivity || lia).
  rewrite (strip_prefix_head (u_ "false") 102) by (reflexivity || lia).
  rewrite (strip_prefix_head (u_ "NaN") 78) by (reflexivity || lia).
  rewrite (strip_prefix_head (u_ "Infinity") 73) by (reflexivity || lia).
  change (u_ "-Infinity") with (45 :: u_ "Infinity").
  cbn [strip_prefix]. change (45 =? 45) with true. cbv iota.
  rewrite (strip_prefix_head (u_ "Infinity") 73) by (reflexivity || lia).
  reflexivity.
Qed.

(** The integer part of what [int.__repr__] writes. *)
Lemma nzhead_no_zero (d : Decimal.uint) :
  match Decimal.nzhead d with Decimal.D0 _ => False | _ => True end.
Proof. induction d; cbn [Decimal.nzhead]; auto. Qed.

Lemma pos_to_uint_ok (p : positive) : int_part_ok (Pos.to_uint p) = true.
Proof.
  pose proof (DecimalPos.Unsigned.to_of (Pos.to_uint p)) as H.
  rewrite DecimalPos.Unsigned.of_to in H. cbn [N.to_uint] in H.
  pose proof (nzhead_no_zero (Pos.to_uint p)) as Hz.
  pose proof (DecimalPos.Unsigned.to_uint_nonnil p) as Hn.
  unfold Decimal.unorm in H.
  destruct (Decimal.nzhead (Pos.to_uint p)) eqn:E; rewrite H in *;
    try reflexivity; try contradiction.
Qed.

Lemma int_repr_shape (z : Z) :
  exists (neg : bool) (ip : Decimal.uint),
    int_part_ok ip = true /\
    int_repr z = (if neg then [45] else []) ++ uint_text ip /\
    Z.of_int (if neg then Decimal.Neg ip else Decimal.Pos ip) = z.
Proof.
  pose proof (DecimalZ.of_to z) as H. unfold int_repr.
  destruct z as [|p|p]; cbn [Z.to_int] in *.
  - exists false, (Decimal.D0 Decimal.Nil). repeat split.
  - exists false, (Pos.to_uint p). repeat split; [apply pos_to_uint_ok | exact H].
  - exists true, (Pos.to_uint p). repeat split; [apply pos_to_uint_ok | exact H].
Qed.

(** ** Values: [scan_once] reads what [iterencode] writes *)

Lemma is_ws_cases (c : Z) :
  is_ws c = true -> c = 32 \/ c = 9 \/ c = 10 \/ c = 13.
Proof.
  unfold is_ws. intros H.
  repeat (apply orb_true_iff in H; destruct H as [H|H]);
    apply Z.eqb_eq in H; tauto.
Qed.

(** A value starts with a character that is no white space and closes
    nothing. *)
Lemma scan_once_head (m : nat) (c : Z) (r : text) (res : pyobj * text) :
  scan_once objectLoadHook m (c :: r) = Ok res ->
  is_ws c = false /\ c <> 93 /\ c <> 125.
Proof.
  intros H. destruct m as [|m]; [discriminate|].
  destruct (is_ws c) eqn:Ew.
  - apply is_ws_cases in Ew.
    destruct Ew as [->|[->|[->| ->]]]; cbv in H; discriminate.
  - split; [reflexivity|]. split; intros ->; cbv in H; discriminate.
Qed.

Lemma reads_head (m : nat) (o : pyobj) (t : text) :
  reads m o t ->
  exists c t', t = c :: t' /\ is_ws c = false /\ c <> 93 /\ c <> 125.
Proof.
  intros H. specialize (H [] eq_refl). rewrite List.app_nil_r in H.
  destruct t as [|c t'].
  - destruct m; discriminate.
  - exists c, t'. split; [reflexivity|]. eapply scan_once_head. exact H.
Qed.

Lemma reads_skip_ws (m : nat) (o : pyobj) (t rest : text) :
  reads m o t -> skip_ws (t ++ rest) = t ++ rest.
Proof.
  intros H. destruct (reads_head m o t H) as (c & t' & -> & Hw & _).
  cbn [app skip_ws]. now rewrite Hw.
Qed.

Lemma reads_word (m : nat) (o : pyobj) (w : text) :
  (forall rest, scan_once objectLoadHook (S m) (w ++ rest) = Ok (o, rest)) ->
  reads (S m) o w.
Proof. intros H rest _. apply H. Qed.

Lemma reads_None (m : nat) : reads (S m) PyNone (u_ "null").
Proof. apply reads_word. reflexivity. Qed.

Lemma reads_bool (m : nat) (b : bool) :
  reads (S m) (PyBool b) (if b then u_ "true" else u_ "false").
Proof. destruct b; apply reads_word; reflexivity. Qed.

Lemma reads_inf (m : nat) (neg : bool) :
  reads (S m) (PyFloat (FInf neg)) (float_repr (FInf neg)).
Proof. destruct neg; apply reads_word; reflexivity. Qed.

Lemma reads_str (m : nat) (s : text) :
  text_ok s = true -> reads (S m) (PyStr s) (encode_basestring_ascii s).
Proof.
  intros H rest _.
  destruct (scanstring_encode s rest H) as (body & -> & Hb).
  cbn [scan_once]. change (34 =? 34) with true. cbv iota.
  rewrite Hb. reflexivity.
Qed.

Lemma reads_number (m : nat) (neg : bool) (ip : Decimal.uint)
      (frac : option Decimal.uint) (ex : option (option bool * Decimal.uint)) :
  int_part_ok ip = true ->
  match frac with Some d => some_digits d | None => true end = true ->
  match ex with Some (_, d) => some_digits d | None => true end = true ->
  reads (S m)
        (match frac, ex with
         | None, None =>
             PyInt (Z.of_int (if neg then Decimal.Neg ip else Decimal.Pos ip))
         | _, _ => PyFloat (FLit neg ip frac ex)
         end)
        ((if neg then [45] else []) ++ uint_text ip ++ frac_text frac ++ exp_text ex).
Proof.
  intros Hip Hf He rest Hr.
  pose proof (scan_number_lit neg ip frac ex rest Hip Hf He Hr) as Hn.
  destruct (uint_text_head ip (int_part_some_digits ip Hip)) as (c & t & E & Hc).
  rewrite <- !List.app_assoc. rewrite E in Hn |- *.
  destruct neg; cbn [app] in Hn |- *.
  - rewrite scan_once_minus by exact Hc. exact Hn.
  - rewrite scan_once_digit by exact Hc. exact Hn.
Qed.

Lemma reads_int (m : nat) (z : Z) : reads (S m) (PyInt z) (int_repr z).
Proof.
  destruct (int_repr_shape z) as (neg & ip & Hip & -> & Hz).
  pose proof (reads_number m neg ip None None Hip eq_refl eq_refl) as H.
  cbn [frac_text exp_text] in H. rewrite !List.app_nil_r in H.
  rewrite Hz in H. exact H.
Qed.

Lemma reads_float (m : nat) (f : pyfloat) :
  float_ok f = true -> reads (S m) (PyFloat f) (float_repr f).
Proof.
  destruct f as [|neg|neg ip frac ex]; intros H; [discriminate | apply reads_inf |].
  cbn [float_ok] in H.
  repeat (apply andb_true_iff in H; destruct H as [H ?]).
  pose proof (reads_number m neg ip frac ex) as Hn.
  destruct frac, ex; try discriminate; now apply Hn.
Qed.

(** *** Lists *)

Lemma array_loop_reads (m : nat) (l : list pyobj) (items : list text) :
  Forall2 (reads m) l items -> l <> [] ->
  forall (acc : list pyobj) (k : nat) (rest : text),
    (length l <= k)%nat ->
    array_loop (scan_once objectLoadHook m) k
               (join [44; 32] items ++ 93 :: rest) acc
    = Ok (PyList (rev acc ++ l), rest).
Proof.
  induction 1 as [|x t l items Hx Hl IH]; intros Hne acc k rest Hk;
    [congruence|].
  destruct k as [|k]; [cbn in Hk; lia|]. cbn [array_loop].
  destruct Hl as [|y ty l items Hy Hl].
  - cbn [join]. rewrite (Hx (93 :: rest) eq_refl). cbn [bind skip_ws is_ws].
    change (is_ws 93) with false. cbv iota.
    change (93 =? 93) with true. cbv iota. reflexivity.
  - change (join [44; 32] (t :: ty :: items))
      with (t ++ [44; 32] ++ join [44; 32] (ty :: items)).
    rewrite <- !List.app_assoc. cbn [app].
    rewrite (Hx (44 :: 32 :: join [44; 32] (ty :: items) ++ 93 :: rest) eq_refl).
    cbn [bind]. change (skip_ws (44 :: ?s)) with (44 :: s).
    change (44 =? 93) with false. change (44 =? 44) with true. cbv iota.
    assert (Hs : skip_ws (32 :: join [44; 32] (ty :: items) ++ 93 :: rest)
                 = join [44; 32] (ty :: items) ++ 93 :: rest).
    { change (skip_ws (32 :: ?s)) with (skip_ws s).
      destruct (reads_head m y ty Hy) as (c & t' & -> & Hw & _).
      destruct items; cbn [join app skip_ws]; now rewrite Hw. }
    rewrite Hs, IH by (cbn [length] in *; (discriminate || lia)).
    cbn [rev]. rewrite <- List.app_assoc. reflexivity.
Qed.

Lemma join_length_items (sep : text) (items : list text) :
  Forall (fun t => t <> []) items -> (length items <= length (join sep items))%nat.
Proof.
  induction 1 as [|t items Ht H IH]; [cbn; lia|].
  destruct t as [|c t]; [congruence|].
  destruct items as [|t2 items]; [cbn; lia|].
  change (join sep ((c :: t) :: t2 :: items))
    with ((c :: t) ++ sep ++ join sep (t2 :: items)).
  rewrite !length_app. cbn [length] in *. lia.
Qed.

Lemma join_length_item (sep : text) (items : list text) (t : text) :
  In t items -> (length t <= length (join sep items))%nat.
Proof.
  induction items as [|t1 items IH]; [intros []|].
  intros [<-|Hin].
  - destruct items; cbn [join]; rewrite ?length_app; lia.
  - specialize (IH Hin). destruct items as [|t2 items]; [destruct Hin|].
    change (join sep (t1 :: t2 :: items))
      with (t1 ++ sep ++ join sep (t2 :: items)).
    rewrite !length_app. lia.
Qed.

Lemma reads_nonempty (m : nat) (l : list pyobj) (items : list text) :
  Forall2 (reads m) l items -> Forall (fun t => t <> []) items.
Proof.
  induction 1 as [|x t l items Hx Hl IH]; constructor; [|exact IH].
  destruct (reads_head m x t Hx) as (c & t' & -> & _). discriminate.
Qed.

Lemma reads_list (m : nat) (l : list pyobj) (items : list text) :
  Forall2 (reads m) l items ->
  reads (S m) (PyList l) ([91] ++ join [44; 32] items ++ [93]).
Proof.
  intros H rest _. rewrite <- !List.app_assoc. cbn [app scan_once].
  change (91 =? 34) with false. change (91 =? 123) with false.
  change (91 =? 91) with true. cbv iota. unfold JSONArray.
  destruct H as [|x t l items Hx Hl].
  - reflexivity.
  - assert (H2 : Forall2 (reads m) (x :: l) (t :: items)) by now constructor.
    pose proof (Forall2_length H2) as Hlen.
    pose proof (join_length_items [44; 32] _ (reads_nonempty m _ _ H2)) as Hj.
    set (s := join [44; 32] (t :: items) ++ 93 :: rest) in *.
    assert (Hs : exists c r, s = c :: r /\ is_ws c = false /\ c <> 93).
    { destruct (reads_head m x t Hx) as (c & t' & -> & Hw & Hc & _).
      exists c. unfold s. destruct items; cbn [join app]; eauto. }
    destruct Hs as (c & r & Es & Hw & Hc).
    assert (Hk : (length (x :: l) <= S (length s))%nat).
    { unfold s. rewrite length_app. lia. }
    rewrite Es. cbn [skip_ws]. rewrite Hw.
    destruct (Z.eqb_spec c 93); [contradiction|].
    rewrite <- Es. unfold s.
    rewrite (array_loop_reads m (x :: l) (t :: items) H2) by (discriminate || exact Hk).
    reflexivity.
Qed.

(** *** Dictionaries *)

Lemma members_length (R : pyobj -> text -> Prop) (d : pydict) (items : list text) :
  members R d items -> length d = length items.
Proof. induction 1; cbn [length]; congruence. Qed.

Lemma members_nonempty (R : pyobj -> text -> Prop) (d : pydict) (items : list text) :
  members R d items -> Forall (fun t => t <> []) items.
Proof.
  induction 1; constructor; [|assumption].
  unfold encode_basestring_ascii. discriminate.
Qed.

Lemma members_join_head (R : pyobj -> text -> Prop) (d : pydict)
      (items : list text) (r : text) :
  members R d items -> d <> [] ->
  exists body, join [44; 32] items ++ r = 34 :: body.
Proof.
  intros H Hne. destruct H as [|k v t d items Hk Hv Hd]; [congruence|].
  unfold encode_basestring_ascii. destruct items; cbn [join app]; eauto.
Qed.

Lemma join_cons2 (sep x y : text) (l : list text) :
  join sep (x :: y :: l) = x ++ sep ++ join sep (y :: l).
Proof. reflexivity. Qed.

Lemma object_loop_members (m : nat) (d : pydict) (items : list text) :
  members (reads m) d items -> d <> [] ->
  forall (acc : pydict) (k : nat) (rest body : text),
    (length d <= k)%nat ->
    join [44; 32] items ++ 125 :: rest = 34 :: body ->
    object_loop objectLoadHook (scan_once objectLoadHook m) k body acc
    = (o <- objectLoadHook (dict_of_items key_eqb (rev acc ++ d)) ;; Ok (o, rest)).
Proof.
  induction 1 as [|key v t d items Hkey Hv Hd IH]; intros Hne acc k rest body Hk Hb;
    [congruence|].
  destruct k as [|k]; [cbn in Hk; lia|]. cbn [object_loop].
  assert (Hval : forall r, follow_ok r = true ->
            scan_once objectLoadHook m (skip_ws (32 :: t ++ r)) = Ok (v, r)).
  { intros r Hr. change (skip_ws (32 :: ?s)) with (skip_ws s).
    rewrite (reads_skip_ws m v t r Hv). now apply Hv. }
  destruct Hd as [|key2 v2 t2 d items Hkey2 Hv2 Hd].
  - cbn [join] in Hb. unfold encode_basestring_ascii in Hb.
    rewrite <- !List.app_assoc in Hb. cbn [app] in Hb. injection Hb as <-.
    rewrite <- ?List.app_assoc. cbn [app].
    rewrite scanstring_flat_map by exact Hkey. cbn [bind].
    change (skip_ws (58 :: ?s)) with (58 :: s).
    change (58 =? 58) with true. cbv iota.
    rewrite (Hval (125 :: rest) eq_refl). cbn [bind].
    change (skip_ws (125 :: ?s)) with (125 :: s).
    change (125 =? 125) with true. cbv iota. cbn [rev]. reflexivity.
  - assert (Hm : members (reads m) ((PyStr key2, v2) :: d)
                   ((encode_basestring_ascii key2 ++ [58; 32] ++ t2) :: items))
      by now constructor.
    destruct (members_join_head _ _ _ (125 :: rest) Hm ltac:(discriminate))
      as (body2 & Hb2).
    rewrite join_cons2 in Hb. rewrite <- !List.app_assoc in Hb.
    unfold text in Hb, Hb2. rewrite Hb2 in Hb. unfold encode_basestring_ascii in Hb.
    cbn [app] in Hb. rewrite <- List.app_assoc in Hb. cbn [app] in Hb.
    injection Hb as <-.
    rewrite scanstring_flat_map by exact Hkey. cbn [bind].
    change (skip_ws (58 :: ?s)) with (58 :: s).
    change (58 =? 58) with true. cbv iota.
    rewrite (Hval (44 :: 32 :: 34 :: body2) eq_refl). cbn [bind].
    change (skip_ws (44 :: ?s)) with (44 :: s).
    change (44 =? 125) with false. change (44 =? 44) with true. cbv iota.
    change (skip_ws (32 :: 34 :: body2)) with (34 :: body2).
    change (34 =? 34) with true. cbv iota.
    rewrite (IH ltac:(discriminate) ((PyStr key, v) :: acc) k rest body2)
      by (cbn [length] in *; lia || exact Hb2).
    cbn [rev]. rewrite <- List.app_assoc. reflexivity.
Qed.

Lemma text_eqb_sym (a b : text) : text_eqb a b = text_eqb b a.
Proof.
  destruct (text_eqb a b) eqn:E1, (text_eqb b a) eqn:E2; try reflexivity.
  - apply text_eqb_eq in E1. subst. rewrite text_eqb_refl in E2. discriminate.
  - apply text_eqb_eq in E2. subst. rewrite text_eqb_refl in E1. discriminate.
Qed.

Lemma key_eqb_sym (a b : pyobj) : key_eqb a b = key_eqb b a.
Proof. destruct a, b; try reflexivity. apply text_eqb_sym. Qed.

Lemma dict_set_fresh (k v : pyobj) (acc : pydict) :
  existsb (key_eqb k) (map fst acc) = false ->
  dict_set key_eqb k v acc = acc ++ [(k, v)].
Proof.
  induction acc as [|[k' v'] acc IH]; cbn [map fst existsb dict_set app];
    intros H; [reflexivity|].
  apply orb_false_iff in H. destruct H as [H1 H2].
  rewrite H1, IH by exact H2. reflexivity.
Qed.

Lemma fold_dict_set (items acc : pydict) :
  distinct_keys items = true ->
  (forall k, In k (map fst items) -> existsb (key_eqb k) (map fst acc) = false) ->
  fold_left (fun d kv => dict_set key_eqb (fst kv) (snd kv) d) items acc
  = acc ++ items.
Proof.
  revert acc. induction items as [|[k v] items IH]; intros acc Hd Hf.
  - cbn. now rewrite List.app_nil_r.
  - cbn [distinct_keys] in Hd. apply andb_true_iff in Hd. destruct Hd as [Hk Hd].
    apply negb_true_iff in Hk.
    cbn [fold_left fst snd]. rewrite dict_set_fresh by (apply Hf; now left).
    rewrite IH; [now rewrite <- List.app_assoc | exact Hd |].
    intros k' Hin. rewrite map_app, existsb_app. cbn [map fst existsb].
    rewrite (Hf k') by now right. rewrite orb_false_r. cbn [orb].
    rewrite key_eqb_sym.
    destruct (key_eqb k k') eqn:E; [|reflexivity].
    assert (existsb (key_eqb k) (map fst items) = true)
      by (apply existsb_exists; eauto).
    congruence.
Qed.

Lemma dict_of_items_distinct (d : pydict) :
  distinct_keys d = true -> dict_of_items key_eqb d = d.
Proof.
  intros H. unfold dict_of_items. rewrite fold_dict_set; [reflexivity | exact H |].
  reflexivity.
Qed.

Lemma py_get_native (d : pydict) :
  forallb (fun kv => native_key (fst kv)) d = true ->
  py_get class_uuid_key d = None.
Proof.
  unfold py_get. induction d as [|[k v] d IH]; intros H; [reflexivity|].
  cbn [forallb fst] in H. apply andb_true_iff in H. destruct H as [Hk Hd].
  cbn [dict_get]. rewrite IH by exact Hd.
  destruct k; try discriminate. cbn [native_key] in Hk.
  apply andb_true_iff in Hk. destruct Hk as [_ Hk]. apply negb_true_iff in Hk.
  cbn [key_eqb]. rewrite text_eqb_sym, Hk. reflexivity.
Qed.

Lemma objectLoadHook_native (d : pydict) :
  forallb (fun kv => native_key (fst kv)) d = true ->
  distinct_keys d = true ->
  objectLoadHook (dict_of_items key_eqb d) = Ok (PyDict d).
Proof.
  intros Hk Hd. rewrite dict_of_items_distinct by exact Hd.
  apply objectLoadHook_untagged. unfold py_has. now rewrite py_get_native.
Qed.

Lemma reads_dict (m : nat) (d : pydict) (items : list text) :
  members (reads m) d items ->
  forallb (fun kv => native_key (fst kv)) d = true ->
  distinct_keys d = true ->
  reads (S m) (PyDict d) ([123] ++ join [44; 32] items ++ [125]).
Proof.
  intros Hm Hk Hd rest _. rewrite <- !List.app_assoc. cbn [app scan_once].
  change (123 =? 34) with false. change (123 =? 123) with true. cbv iota.
  unfold JSONObject.
  destruct d as [|kv d].
  - inversion Hm; subst. reflexivity.
  - destruct (members_join_head _ _ _ (125 :: rest) Hm ltac:(discriminate))
      as (body & Hb).
    pose proof (members_length _ _ _ Hm) as Hlen.
    pose proof (join_length_items [44; 32] _ (members_nonempty _ _ _ Hm)) as Hj.
    assert (Hlk : (length (kv :: d) <= S (length (34%Z :: body)))%nat)
      by (rewrite <- Hb, length_app; lia).
    unfold text in *. rewrite Hb. cbn [skip_ws].
    change (is_ws 34) with false. cbv iota.
    change (34 =? 125) with false. change (34 =? 34) with true. cbv iota.
    rewrite (object_loop_members m (kv :: d) items Hm ltac:(discriminate)
               [] _ rest body Hlk Hb).
    cbn [rev app]. rewrite objectLoadHook_native by assumption. reflexivity.
Qed.

(** *** All native values *)

Lemma height_pos (o : pyobj) : (1 <= height o)%nat.
Proof. destruct o; cbn [height]; lia. Qed.

Lemma fold_max_in {A : Type} (f : A -> nat) (l : list A) (x : A) :
  In x l -> (f x <= fold_right (fun y m => Nat.max (f y) m) O l)%nat.
Proof.
  induction l as [|y l IH]; [intros []|]. cbn [fold_right].
  intros [->|H]; [lia|]. specialize (IH H). lia.
Qed.

Lemma join_length_tail (sep t : text) (items : list text) :
  (length (join sep items) <= length (join sep (t :: items)))%nat.
Proof.
  destruct items as [|t2 items]; [cbn; lia|].
  rewrite join_cons2, !length_app. lia.
Qed.

Lemma map_result_Forall2 {A B : Type} (f : A -> result B) (R : A -> B -> Prop)
      (l : list A) :
  (forall x, In x l -> exists y, f x = Ok y /\ R x y) ->
  exists ys, map_result f l = Ok ys /\ Forall2 R l ys.
Proof.
  induction l as [|x l IH]; intros H.
  - exists []. split; [reflexivity | constructor].
  - destruct (H x (or_introl eq_refl)) as (y & Ey & Hy).
    destruct IH as (ys & Eys & Hys); [intros x' Hin; apply H; now right|].
    exists (y :: ys). split; [|now constructor].
    cbn [map_result]. rewrite Ey. cbn [bind]. rewrite Eys. reflexivity.
Qed.

Lemma encode_items_members (enc : pyobj -> result text)
      (R : pyobj -> text -> Prop) (d : pydict) :
  (forall k v, In (k, v) d ->
               native_key k = true /\ exists t, enc v = Ok t /\ R v t) ->
  exists items, encode_items enc d = Ok items /\ members R d items.
Proof.
  induction d as [|[k v] d IH]; intros H.
  - exists []. split; [reflexivity | constructor].
  - destruct (H k v (or_introl eq_refl)) as (Hk & t & Et & Ht).
    destruct IH as (items & Ei & Hi); [intros k' v' Hin; apply H; now right|].
    destruct k; try discriminate. cbn [native_key] in Hk.
    apply andb_true_iff in Hk. destruct Hk as [Hs _].
    exists ((encode_basestring_ascii s ++ [58; 32] ++ t) :: items).
    split; [|now constructor].
    cbn [encode_items key_text]. rewrite Et. cbn [bind]. rewrite Ei. reflexivity.
Qed.

Lemma read_back_list_bound (l : list pyobj) (items : list text) :
  Forall2 read_back l items ->
  (fold_right (fun x m => Nat.max (height x) m) O l
   <= length (join [44%Z; 32%Z] items))%nat.
Proof.
  induction 1 as [|x t l items [_ Hx] Hl IH]; [cbn; lia|].
  cbn [fold_right].
  pose proof (join_length_item [44; 32] (t :: items) t (or_introl eq_refl)).
  pose proof (join_length_tail [44; 32] t items). lia.
Qed.

Lemma read_back_dict_bound (d : pydict) (items : list text) :
  members read_back d items ->
  (fold_right (fun kv m => Nat.max (height (snd kv)) m) O d
   <= length (join [44%Z; 32%Z] items))%nat.
Proof.
  induction 1 as [|k v t d items Hk [_ Hv] Hd IH]; [cbn; lia|].
  cbn [fold_right snd].
  pose proof (join_length_item [44; 32]
                ((encode_basestring_ascii k ++ [58; 32] ++ t) :: items) _
                (or_introl eq_refl)) as H1.
  pose proof (join_length_tail [44; 32]
                (encode_basestring_ascii k ++ [58; 32] ++ t) items).
  rewrite !length_app in H1. unfold text in *. lia.
Qed.

Lemma read_back_list_reads (m : nat) (l : list pyobj) (items : list text) :
  Forall2 read_back l items ->
  (fold_right (fun x m => Nat.max (height x) m) O l <= m)%nat ->
  Forall2 (reads m) l items.
Proof.
  induction 1 as [|x t l items [Hx _] Hl IH]; intros Hm; constructor;
    cbn [fold_right] in Hm.
  - apply Hx. lia.
  - apply IH. lia.
Qed.

Lemma read_back_dict_reads (m : nat) (d : pydict) (items : list text) :
  members read_back d items ->
  (fold_right (fun kv m => Nat.max (height (snd kv)) m) O d <= m)%nat ->
  members (reads m) d items.
Proof.
  induction 1 as [|k v t d items Hk [Hv _] Hd IH]; intros Hm; constructor;
    cbn [fold_right snd] in Hm; try assumption.
  - apply Hv. lia.
  - apply IH. lia.
Qed.

Lemma native_read_back (n : nat) :
  forall o, native o = true -> (height o <= n)%nat ->
            exists t, iterencode default n o = Ok t /\ read_back o t.
Proof.
  induction n as [|n IH]; intros o Hn Hh;
    [pose proof (height_pos o); lia|].
  assert (Hleaf : forall t,
             (forall m, reads (S m) o t) -> t <> [] -> height o = 1%nat ->
             read_back o t).
  { intros t Hr Ht H1. split.
    - intros [|m] Hm; [lia | apply Hr].
    - rewrite H1. destruct t; [congruence | cbn [length]; lia]. }
  destruct o; cbn [native] in Hn; try discriminate; cbn [iterencode].
  - eexists. split; [reflexivity|].
    apply Hleaf; [intros m; apply reads_None | discriminate | reflexivity].
  - exists (if b then u_ "true" else u_ "false"). split; [now destruct b|].
    apply Hleaf; [intros m; apply reads_bool | now destruct b | reflexivity].
  - eexists. split; [reflexivity|].
    apply Hleaf; [intros m; apply reads_int | | reflexivity].
    destruct (reads_head 1 _ _ (reads_int O z)) as (c & t' & -> & _). discriminate.
  - eexists. split; [reflexivity|].
    apply Hleaf; [intros m; now apply reads_float | | reflexivity].
    destruct (reads_head 1 _ _ (reads_float O f Hn)) as (c & t' & -> & _).
    discriminate.
  - eexists. split; [reflexivity|].
    apply Hleaf; [intros m; now apply reads_str | discriminate | reflexivity].
  - cbn [height] in Hh.
    destruct (map_result_Forall2 (iterencode default n) read_back l)
      as (items & Ei & Hi).
    { intros x Hin. apply IH.
      - rewrite forallb_forall in Hn. now apply Hn.
      - pose proof (fold_max_in height l x Hin). lia. }
    rewrite Ei. cbn [bind]. eexists. split; [reflexivity|]. split.
    + intros [|m] Hm; cbn [height] in Hm; [lia|].
      apply reads_list. apply read_back_list_reads; [exact Hi | lia].
    + cbn [height]. pose proof (read_back_list_bound l items Hi).
      rewrite !length_app. cbn [length]. lia.
  - cbn [height] in Hh. apply andb_true_iff in Hn. destruct Hn as [Hn Hd].
    destruct (encode_items_members (iterencode default n) read_back d)
      as (items & Ei & Hi).
    { intros k v Hin. rewrite forallb_forall in Hn. specialize (Hn _ Hin).
      cbn [fst snd] in Hn. apply andb_true_iff in Hn. destruct Hn as [Hk Hv].
      split; [exact Hk|]. apply IH; [exact Hv|].
      pose proof (fold_max_in (fun kv => height (snd kv)) d (k, v) Hin) as Hf.
      cbn [snd] in Hf. lia. }
    rewrite Ei. cbn [bind]. eexists. split; [reflexivity|]. split.
    + intros [|m] Hm; cbn [height] in Hm; [lia|].
      apply reads_dict; [apply read_back_dict_reads; [exact Hi | lia] | | exact Hd].
      rewrite forallb_forall in Hn |- *. intros kv Hin. specialize (Hn kv Hin).
      apply andb_true_iff in Hn. tauto.
    + cbn [height]. pose proof (read_back_dict_bound d items Hi).
      rewrite !length_app. cbn [length]. lia.
Qed.





(** ** The fuel of [dumps] is enough *)

Lemma bind_not_raise {A B : Type} (r : result A) (k : A -> result B) (e : exn) :
  r <> Raise e -> (forall a, r = Ok a -> k a <> Raise e) ->
  bind r k <> Raise e.
Proof.
  intros Hr Hk. destruct r as [a|e']; cbn [bind]; [now apply Hk|].
  intros H. apply Hr. congruence.
Qed.

Lemma map_result_not_raise {A B : Type} (f : A -> result B) (l : list A) (e : exn) :
  (forall x, In x l -> f x <> Raise e) -> map_result f l <> Raise e.
Proof.
  induction l as [|x l IH]; intros H; cbn [map_result]; [discriminate|].
  apply bind_not_raise; [apply H; now left|]. intros y _.
  apply bind_not_raise; [apply IH; intros x' Hin; apply H; now right|].
  discriminate.
Qed.

Lemma encode_items_not_raise (enc : pyobj -> result text) (d : pydict) (e : exn) :
  (forall k v, In (k, v) d -> enc v <> Raise e) -> encode_items enc d <> Raise e.
Proof.
  induction d as [|[k v] d IH]; intros H; cbn [encode_items]; [discriminate|].
  assert (Hd : encode_items enc d <> Raise e)
    by (apply IH; intros k' v' Hin; apply (H k'); now right).
  destruct (key_text k); [|exact Hd].
  apply bind_not_raise; [apply (H k); now left|]. intros vt _.
  apply bind_not_raise; [exact Hd | discriminate].
Qed.

Lemma py_set_values (k : text) (v : pyobj) (d : pydict) (k' v' : pyobj) :
  In (k', v') (py_set k v d) -> v' = v \/ In (k', v') d.
Proof.
  unfold py_set. induction d as [|[k0 v0] d IH]; cbn [dict_set].
  - intros [H|[]]. injection H as _ <-. now left.
  - destruct (key_eqb (PyStr k) k0).
    + intros [H|H]; [injection H as _ <-; now left | right; now right].
    + intros [H|H]; [right; now left|].
      destruct (IH H); [now left | right; now right].
Qed.

Lemma dict_get_in {K V : Type} (keq : K -> K -> bool) (k : K) (d : list (K * V))
      (v : V) :
  dict_get keq k d = Some v -> exists k', In (k', v) d.
Proof.
  induction d as [|[k0 v0] d IH]; cbn [dict_get]; [discriminate|].
  destruct (keq k k0).
  - intros H; injection H as ->. exists k0. now left.
  - intros H. destruct (IH H) as (k' & Hin). exists k'. now right.
Qed.

Lemma iterencode_fuel (N : nat) :
  forall n o, (n <= N)%nat -> (height o + 2 <= n)%nat ->
              iterencode default n o <> Raise RecursionError.
Proof.
  induction N as [|N IH]; intros n o Hn Hh; [lia|].
  destruct n as [|n]; [lia|].
  assert (Hstr : forall s, iterencode default n (PyStr s) <> Raise RecursionError).
  { intros s. destruct n as [|n]; [pose proof (height_pos o); lia | discriminate]. }
  assert (Hflat : forall d : pydict,
             (forall k v, In (k, v) d -> (exists s, v = PyStr s) \/ v = PyBool true) ->
             iterencode default n (PyDict d) <> Raise RecursionError).
  { intros d Hd. destruct n as [|n]; [pose proof (height_pos o); lia|].
    cbn [iterencode]. apply bind_not_raise; [|discriminate].
    apply encode_items_not_raise. intros k v Hin.
    destruct n as [|n]; [pose proof (height_pos o); lia|].
    destruct (Hd k v Hin) as [(s & ->) | ->]; discriminate. }
  assert (Hsave : forall d : pydict, forall u : Z,
             (forall k v, In (k, v) d -> (exists s, v = PyStr s) \/ v = PyBool true) ->
             (o' <- match PyDict d with
                    | PyDict items =>
                        Ok (PyDict (py_set class_uuid_key
                                           (PyStr (uuid_str u)) items))
                    | _ => Raise TypeError
                    end ;; iterencode default n o') <> Raise RecursionError).
  { intros d u Hd. cbn [bind]. apply Hflat. intros k v Hin.
    apply py_set_values in Hin. destruct Hin as [->|Hin]; eauto. }
  destruct o as [|b|z|f|s|b|l|d|lv|state ty|name ns|id];
    cbn [iterencode]; try discriminate; try (destruct b; discriminate).
  - cbn [default bind]. apply Hstr.
  - apply bind_not_raise; [|discriminate]. apply map_result_not_raise.
    intros x Hin. apply IH; [lia|]. cbn [height] in Hh.
    pose proof (fold_max_in height l x Hin). lia.
  - apply bind_not_raise; [|discriminate]. apply encode_items_not_raise.
    intros k v Hin. apply IH; [lia|]. cbn [height] in Hh.
    pose proof (fold_max_in (fun kv => height (snd kv)) d (k, v) Hin) as Hf.
    cbn [snd] in Hf. lia.
  - unfold default, objectSaveHook, classInfo.
    cbn [objectSaveHook_from predicate saver uuid bind].
    apply Hsave. intros k v [H|[]]; injection H as _ <-; eauto.
  - unfold default, objectSaveHook, classInfo.
    cbn [objectSaveHook_from predicate saver uuid].
    unfold failureAsJSON.
    destruct ty as [| | | | | | | | | |tname ns|];
      try (cbn [type_module bind]; discriminate).
    cbn [type_module type_name].
    destruct (py_get (u_ "__module__") ns) as [mo|] eqn:Em;
      [|cbn [bind]; discriminate].
    cbn [bind]. destruct n as [|n]; [cbn [height] in Hh; lia|].
    cbn [iterencode]. apply bind_not_raise; [|discriminate].
    apply encode_items_not_raise. intros k v Hin.
    cbn [height] in Hh.
    apply py_set_values in Hin. destruct Hin as [->|Hin].
    { destruct n as [|n]; [lia | discriminate]. }
    apply py_set_values in Hin. destruct Hin as [->|Hin].
    + destruct n as [|n]; [lia|]. cbn [iterencode].
      apply bind_not_raise; [|discriminate].
      apply encode_items_not_raise. intros k' v' [H|[H|[]]]; injection H as _ <-.
      * apply IH; [lia|]. destruct (dict_get_in _ _ _ _ Em) as (km & Hm).
        pose proof (fold_max_in (fun kv => height (snd kv)) ns (km, mo) Hm) as Hf.
        cbn [snd] in Hf. lia.
      * destruct n as [|n]; [lia | discriminate].
    + apply IH; [lia|].
      pose proof (fold_max_in (fun kv => height (snd kv)) state (k, v) Hin) as Hf.
      cbn [snd] in Hf. lia.
  - unfold default, objectSaveHook, classInfo.
    cbn [objectSaveHook_from predicate saver uuid bind].
    apply Hflat. intros k v [H|[]]; injection H as _ <-; eauto.
  - unfold default, objectSaveHook, classInfo.
    cbn [objectSaveHook_from predicate saver uuid bind].
    apply Hflat. intros k v [H|[]]; injection H as _ <-; eauto.
Qed.

(** [dumps] never runs out of fuel: the [RecursionError] of the model is
    not among its results. *)
Lemma dumps_fuel (o : pyobj) : dumps default o <> Raise RecursionError.
Proof. unfold dumps. eapply iterencode_fuel; [apply Nat.le_refl | lia]. Qed.

(** ** The fuel of [loads] is enough *)

Lemma scanstring_progress (n : nat) :
  forall s t r, (length s <= n)%nat -> scanstring s = Ok (t, r) ->
                (length r < length s)%nat.
Proof.
  induction n as [|n IH]; intros s t r Hn H.
  - destruct s; [discriminate | cbn [length] in Hn; lia].
  - destruct s as [|c s]; [discriminate|]. cbn [scanstring] in H.
    cbn [length] in Hn |- *.
    assert (Hrec : forall s' x, (length s' <= length s)%nat ->
               (' (t0, r') <- scanstring s' ;; Ok (x :: t0, r')) = Ok (t, r) ->
               (length r < S (length s))%nat).
    { intros s' x Hs' H'. destruct (scanstring s') as [[t0 r']|] eqn:E;
        [|discriminate]. cbn [bind] in H'. injection H' as _ <-.
      apply IH in E; lia. }
    destruct (c =? 34); [injection H as _ <-; lia|].
    destruct (c =? 92).
    + destruct s as [|e r1]; [discriminate|].
      destruct (e =? 117).
      * destruct r1 as [|h1 [|h2 [|h3 [|h4 r2]]]]; try discriminate.
        destruct (hex4 h1 h2 h3 h4) as [uni|]; [|discriminate].
        cbv zeta in H. cbn [length].
        assert (Hlone : (' (t0, r') <- scanstring r2 ;; Ok (uni :: t0, r'))
                        = Ok (t, r) -> (length r < S (length r2))%nat).
        { intros H'. destruct (scanstring r2) as [[t0 r']|] eqn:E;
            [|discriminate]. cbn [bind] in H'. injection H' as _ <-.
          apply IH in E; cbn [length] in Hn; lia. }
        destruct (is_high_surrogate uni); [|apply Hlone in H; lia].
        destruct r2 as [|b [|u [|g1 [|g2 [|g3 [|g4 r3]]]]]];
          try (apply Hlone in H; cbn [length] in *; lia).
        destruct ((b =? 92) && (u =? 117));
          [|apply Hlone in H; cbn [length] in *; lia].
        destruct (hex4 g1 g2 g3 g4) as [uni2|]; [|discriminate].
        destruct (is_low_surrogate uni2);
          [|apply Hlone in H; cbn [length] in *; lia].
        destruct (scanstring r3) as [[t0 r']|] eqn:E; [|discriminate].
        cbn [bind] in H. injection H as _ <-.
        apply IH in E; cbn [length] in *; lia.
      * destruct (short_escape e); [|discriminate].
        apply Hrec in H; cbn [length] in *; lia.
    + destruct (c <? 32); [discriminate|]. apply Hrec in H; lia.
Qed.

Lemma scan_digits_length (s : text) :
  (length (snd (scan_digits s)) <= length s)%nat.
Proof.
  induction s as [|c s IH]; cbn [scan_digits]; [cbn; lia|].
  destruct (digit_of c) as [dg|]; [|cbn; lia].
  destruct (scan_digits s) as [u r]. cbn [snd length] in *. lia.
Qed.

Lemma scan_frac_length (s : text) :
  (length (snd (scan_frac s)) <= length s)%nat.
Proof.
  unfold scan_frac. destruct s as [|dot [|d r]]; try (cbn; lia).
  destruct ((dot =? 46) && is_digit d); [|cbn; lia].
  pose proof (scan_digits_length (d :: r)) as H.
  destruct (scan_digits (d :: r)) as [u r']. cbn [snd length] in *. lia.
Qed.

Lemma scan_exp_length (s : text) :
  (length (snd (scan_exp s)) <= length s)%nat.
Proof.
  unfold scan_exp. destruct s as [|e r]; [cbn; lia|].
  destruct ((e =? 101) || (e =? 69)); [|cbn; lia].
  destruct r as [|sg [|d r1]].
  - cbn; lia.
  - destruct (is_digit sg); [|cbn; lia].
    pose proof (scan_digits_length [sg]) as H.
    destruct (scan_digits [sg]) as [u r']. cbn [snd length] in *. lia.
  - destruct (((sg =? 43) || (sg =? 45)) && is_digit d).
    + pose proof (scan_digits_length (d :: r1)) as H.
      destruct (scan_digits (d :: r1)) as [u r']. cbn [snd length] in *. lia.
    + destruct (is_digit sg); [|cbn; lia].
      pose proof (scan_digits_length (sg :: d :: r1)) as H.
      destruct (scan_digits (sg :: d :: r1)) as [u r']. cbn [snd length] in *. lia.
Qed.

Lemma scan_number_progress (neg : bool) (s : text) (v : pyobj) (r : text) :
  scan_number neg s = Ok (v, r) -> (length r < length s)%nat.
Proof.
  unfold scan_number. destruct s as [|c s]; [discriminate|].
  destruct (is_digit c) eqn:Ed; [|discriminate].
  assert (H1 : (length (snd (if (c =? 48)%Z then (Decimal.D0 Decimal.Nil, s)
                             else scan_digits (c :: s))) <= length s)%nat).
  { destruct (c =? 48); [cbn; lia|].
    cbn [scan_digits]. destruct (digit_of c) as [dg|] eqn:Ec.
    - pose proof (scan_digits_length s). destruct (scan_digits s). cbn [snd] in *. lia.
    - exfalso. apply is_digit_bounds in Ed. unfold digit_of in Ec.
      repeat match type of Ec with
             | (if ?a =? ?b then _ else _) = _ =>
                 destruct (Z.eqb_spec a b); [discriminate|]
             end. lia. }
  destruct (if c =? 48 then (Decimal.D0 Decimal.Nil, s) else scan_digits (c :: s))
    as [ip r1].
  pose proof (scan_frac_length r1) as H2. destruct (scan_frac r1) as [frac r2].
  pose proof (scan_exp_length r2) as H3. destruct (scan_exp r2) as [ex r3].
  cbn [snd length] in *.
  intros H. destruct frac, ex; injection H as _ <-; lia.
Qed.

Lemma scanstring_fuel (n : nat) :
  forall s, (length s <= n)%nat -> scanstring s <> Raise RecursionError.
Proof.
  induction n as [|n IH]; intros s Hn.
  - destruct s; [discriminate | cbn [length] in Hn; lia].
  - destruct s as [|c s]; [discriminate|]. cbn [scanstring].
    cbn [length] in Hn.
    assert (Hrec : forall s' x, (length s' <= n)%nat ->
               (' (t0, r') <- scanstring s' ;; Ok (x :: t0, r'))
               <> Raise RecursionError).
    { intros s' x Hs'. apply bind_not_raise; [now apply IH|].
      intros [t0 r'] _. discriminate. }
    destruct (c =? 34); [discriminate|].
    destruct (c =? 92).
    + destruct s as [|e r1]; [discriminate|].
      destruct (e =? 117).
      * destruct r1 as [|h1 [|h2 [|h3 [|h4 r2]]]]; try discriminate.
        destruct (hex4 h1 h2 h3 h4) as [uni|]; [|discriminate].
        cbv zeta. cbn [length] in Hn.
        assert (Hlone : (' (t0, r') <- scanstring r2 ;; Ok (uni :: t0, r'))
                        <> Raise RecursionError) by (apply Hrec; lia).
        destruct (is_high_surrogate uni); [|exact Hlone].
        destruct r2 as [|b [|u [|g1 [|g2 [|g3 [|g4 r3]]]]]]; try exact Hlone.
        destruct ((b =? 92) && (u =? 117)); [|exact Hlone].
        destruct (hex4 g1 g2 g3 g4) as [uni2|]; [|discriminate].
        destruct (is_low_surrogate uni2); [|exact Hlone].
        apply Hrec. cbn [length] in Hn. lia.
      * destruct (short_escape e); [|discriminate].
        apply Hrec. cbn [length] in Hn. lia.
    + destruct (c <? 32); [discriminate|]. apply Hrec. lia.
Qed.

Lemma scan_number_fuel (neg : bool) (s : text) :
  scan_number neg s <> Raise RecursionError.
Proof.
  unfold scan_number. destruct s as [|c s]; [discriminate|].
  destruct (is_digit c); [|discriminate].
  destruct (if c =? 48 then (Decimal.D0 Decimal.Nil, s) else scan_digits (c :: s))
    as [ip r1].
  destruct (scan_frac r1) as [frac r2]. destruct (scan_exp r2) as [ex r3].
  destruct frac, ex; discriminate.
Qed.

Lemma skip_ws_length (s : text) : (length (skip_ws s) <= length s)%nat.
Proof.
  induction s as [|c s IH]; cbn [skip_ws]; [lia|].
  destruct (is_ws c); cbn [length]; lia.
Qed.

Lemma strip_prefix_length (w s r : text) :
  strip_prefix w s = Some r -> w <> [] -> (length r < length s)%nat.
Proof.
  revert s. induction w as [|x w IH]; intros s H Hw; [congruence|].
  destruct s as [|y s]; [discriminate|]. cbn [strip_prefix] in H.
  destruct (x =? y); [|discriminate].
  destruct w as [|x' w].
  - cbn [strip_prefix] in H. injection H as <-. cbn [length]. lia.
  - apply IH in H; [cbn [length] in *; lia | discriminate].
Qed.

Section ScannerFuel.
Variable hook : pydict -> result pyobj.
Hypothesis hook_fuel : forall d, hook d <> Raise RecursionError.

Lemma array_loop_progress (scan : text -> result (pyobj * text)) (k : nat) :
  forall s acc v r,
    progress scan (length s) ->
    array_loop scan k s acc = Ok (v, r) -> (length r < length s)%nat.
Proof.
  induction k as [|k IH]; intros s acc v r Hp H; [discriminate|].
  cbn [array_loop] in H.
  destruct (scan s) as [[v1 s1]|] eqn:E; [|discriminate]. cbn [bind] in H.
  apply Hp in E; [|lia]. pose proof (skip_ws_length s1) as Hw.
  destruct (skip_ws s1) as [|c s2]; [discriminate|]. cbn [length] in Hw.
  destruct (c =? 93); [injection H as _ <-; lia|].
  destruct (c =? 44); [|discriminate].
  pose proof (skip_ws_length s2) as Hw2.
  apply IH in H; [lia|].
  intros s' v' r' Hs'. apply Hp. lia.
Qed.

Lemma array_loop_fuel (scan : text -> result (pyobj * text)) (k : nat) :
  forall s acc,
    progress scan (length s) -> enough scan (length s) ->
    (length s < k)%nat ->
    array_loop scan k s acc <> Raise RecursionError.
Proof.
  induction k as [|k IH]; intros s acc Hp He Hk; [lia|].
  cbn [array_loop]. apply bind_not_raise; [apply He; lia|].
  intros [v1 s1] E. apply Hp in E; [|lia]. pose proof (skip_ws_length s1) as Hw.
  destruct (skip_ws s1) as [|c s2]; [discriminate|]. cbn [length] in Hw.
  destruct (c =? 93); [discriminate|].
  destruct (c =? 44); [|discriminate].
  pose proof (skip_ws_length s2) as Hw2.
  apply IH; [| |lia].
  - intros s' v' r' Hs'. apply Hp. lia.
  - intros s' Hs'. apply He. lia.
Qed.

Lemma object_loop_progress (scan : text -> result (pyobj * text)) (k : nat) :
  forall s acc v r,
    progress scan (length s) ->
    object_loop hook scan k s acc = Ok (v, r) -> (length r < length s)%nat.
Proof.
  induction k as [|k IH]; intros s acc v r Hp H; [discriminate|].
  cbn [object_loop] in H.
  destruct (scanstring s) as [[key s1]|] eqn:Ek; [|discriminate]. cbn [bind] in H.
  apply (scanstring_progress (length s)) in Ek; [|lia].
  pose proof (skip_ws_length s1) as Hw1.
  destruct (skip_ws s1) as [|colon s2]; [discriminate|]. cbn [length] in Hw1.
  destruct (colon =? 58); [|discriminate].
  pose proof (skip_ws_length s2) as Hw2.
  destruct (scan (skip_ws s2)) as [[v1 s3]|] eqn:E; [|discriminate].
  cbn [bind] in H. apply Hp in E; [|lia].
  pose proof (skip_ws_length s3) as Hw3.
  destruct (skip_ws s3) as [|c s4]; [discriminate|]. cbn [length] in Hw3.
  destruct (c =? 125).
  - destruct (hook _); [|discriminate]. cbn [bind] in H. injection H as _ <-. lia.
  - destruct (c =? 44); [|discriminate].
    pose proof (skip_ws_length s4) as Hw4.
    destruct (skip_ws s4) as [|q s5]; [discriminate|]. cbn [length] in Hw4.
    destruct (q =? 34); [|discriminate].
    apply IH in H; [lia|]. intros s' v' r' Hs'. apply Hp. lia.
Qed.

Lemma object_loop_fuel (scan : text -> result (pyobj * text)) (k : nat) :
  forall s acc,
    progress scan (length s) -> enough scan (length s) ->
    (length s < k)%nat ->
    object_loop hook scan k s acc <> Raise RecursionError.
Proof.
  induction k as [|k IH]; intros s acc Hp He Hk; [lia|].
  cbn [object_loop].
  apply bind_not_raise; [apply (scanstring_fuel (length s)); lia|].
  intros [key s1] Ek. apply (scanstring_progress (length s)) in Ek; [|lia].
  pose proof (skip_ws_length s1) as Hw1.
  destruct (skip_ws s1) as [|colon s2]; [discriminate|]. cbn [length] in Hw1.
  destruct (colon =? 58); [|discriminate].
  pose proof (skip_ws_length s2) as Hw2.
  apply bind_not_raise; [apply He; lia|].
  intros [v1 s3] E. apply Hp in E; [|lia].
  pose proof (skip_ws_length s3) as Hw3.
  destruct (skip_ws s3) as [|c s4]; [discriminate|]. cbn [length] in Hw3.
  destruct (c =? 125).
  - apply bind_not_raise; [apply hook_fuel | discriminate].
  - destruct (c =? 44); [|discriminate].
    pose proof (skip_ws_length s4) as Hw4.
    destruct (skip_ws s4) as [|q s5]; [discriminate|]. cbn [length] in Hw4.
    destruct (q =? 34); [|discriminate].
    apply IH; [| |lia].
    + intros s' v' r' Hs'. apply Hp. lia.
    + intros s' Hs'. apply He. lia.
Qed.
End ScannerFuel.

Section ScanOnceFuel.
Variable hook : pydict -> result pyobj.
Hypothesis hook_fuel : forall d, hook d <> Raise RecursionError.

Lemma JSONArray_progress (scan : text -> result (pyobj * text)) (s : text)
      (v : pyobj) (r : text) :
  progress scan (length s) ->
  JSONArray scan s = Ok (v, r) -> (length r <= length s)%nat.
Proof.
  intros Hp H. unfold JSONArray in H. pose proof (skip_ws_length s) as Hw.
  destruct (skip_ws s) as [|c r0]; [discriminate|]. cbn [length] in Hw.
  destruct (c =? 93); [injection H as _ <-; lia|].
  apply array_loop_progress in H; [cbn [length] in H; lia|].
  intros s' v' r' Hs'. apply Hp. cbn [length] in Hs'. lia.
Qed.

Lemma JSONObject_progress (scan : text -> result (pyobj * text)) (s : text)
      (v : pyobj) (r : text) :
  progress scan (length s) ->
  JSONObject hook scan s = Ok (v, r) -> (length r <= length s)%nat.
Proof.
  intros Hp H. unfold JSONObject in H. pose proof (skip_ws_length s) as Hw.
  destruct (skip_ws s) as [|c r0]; [discriminate|]. cbn [length] in Hw.
  destruct (c =? 125).
  - destruct (hook []); [|discriminate]. cbn [bind] in H. injection H as _ <-. lia.
  - destruct (c =? 34); [|discriminate].
    apply object_loop_progress in H; [lia|].
    intros s' v' r' Hs'. apply Hp. lia.
Qed.

Lemma scan_once_progress (m : nat) :
  forall s v r, scan_once hook m s = Ok (v, r) -> (length r < length s)%nat.
Proof.
  induction m as [|m IH]; intros s v r H; [discriminate|].
  cbn [scan_once] in H. destruct s as [|c s]; [discriminate|].
  cbn [length].
  destruct (c =? 34).
  { destruct (scanstring s) as [[t r']|] eqn:E; [|discriminate].
    cbn [bind] in H. injection H as _ <-.
    apply (scanstring_progress (length s)) in E; lia. }
  destruct (c =? 123).
  { apply JSONObject_progress in H; [lia|]. intros s' v' r' _. apply IH. }
  destruct (c =? 91).
  { apply JSONArray_progress in H; [lia|]. intros s' v' r' _. apply IH. }
  repeat match type of H with
         | match strip_prefix ?w ?x with _ => _ end = _ =>
             let E := fresh "E" in
             destruct (strip_prefix w x) eqn:E;
             [injection H as _ <-;
              apply strip_prefix_length in E; [cbn [length] in E; lia | discriminate]|]
         end.
  destruct (c =? 45); apply scan_number_progress in H; cbn [length] in H; lia.
Qed.

Lemma scan_once_fuel (m : nat) :
  forall s, (length s < m)%nat -> scan_once hook m s <> Raise RecursionError.
Proof.
  induction m as [|m IH]; intros s Hm; [lia|].
  cbn [scan_once]. destruct s as [|c s]; [discriminate|].
  cbn [length] in Hm.
  assert (Hp : forall b, progress (scan_once hook m) b)
    by (intros b s' v' r' _; apply scan_once_progress).
  destruct (c =? 34).
  { apply bind_not_raise; [apply (scanstring_fuel (length s)); lia|].
    intros [t r'] _. discriminate. }
  destruct (c =? 123).
  { unfold JSONObject. pose proof (skip_ws_length s) as Hw.
    destruct (skip_ws s) as [|c0 r0]; [discriminate|]. cbn [length] in Hw.
    destruct (c0 =? 125);
      [apply bind_not_raise; [apply hook_fuel | discriminate]|].
    destruct (c0 =? 34); [|discriminate].
    apply object_loop_fuel; [exact hook_fuel | apply Hp | | lia].
    intros s' Hs'. apply IH. lia. }
  destruct (c =? 91).
  { unfold JSONArray. pose proof (skip_ws_length s) as Hw.
    destruct (skip_ws s) as [|c0 r0]; [discriminate|]. cbn [length] in Hw.
    destruct (c0 =? 93); [discriminate|].
    apply array_loop_fuel; [apply Hp | | cbn [length]; lia].
    intros s' Hs'. apply IH. cbn [length] in Hs'. lia. }
  repeat match goal with
         | |- match strip_prefix ?w ?x with _ => _ end <> _ =>
             destruct (strip_prefix w x); [discriminate|]
         end.
  destruct (c =? 45); apply scan_number_fuel.
Qed.

Lemma loads_fuel_any (s : text) : loads hook s <> Raise RecursionError.
Proof.
  unfold loads. apply bind_not_raise.
  - apply scan_once_fuel. pose proof (skip_ws_length s). lia.
  - intros [v rest] _. destruct (skip_ws rest); discriminate.
Qed.
End ScanOnceFuel.

Lemma int16_fuel (s : text) (acc : Z) : int16 acc s <> Raise RecursionError.
Proof.
  revert acc. induction s as [|c s IH]; intros acc; cbn [int16]; [discriminate|].
  destruct (hexval c); [apply IH | discriminate].
Qed.

Lemma objectLoadHook_fuel (d : pydict) : objectLoadHook d <> Raise RecursionError.
Proof.
  unfold objectLoadHook. destruct (py_has class_uuid_key d); [|discriminate].
  apply bind_not_raise; [unfold py_item; destruct (py_get _ d); discriminate|].
  intros tag _. apply bind_not_raise.
  - unfold UUID. destruct tag; try discriminate.
    match goal with |- (if ?b then _ else _) <> _ => destruct b end;
      [apply int16_fuel | discriminate].
  - intros u _. rewrite uuidToLoader_lookup.
    destruct (u =? uuid_LogLevel).
    + unfold logLevelFromJSON, subscript, py_item.
      destruct (py_get (u_ "name") d) as [name|]; [|discriminate].
      cbn [bind]. destruct name; discriminate.
    + destruct (u =? uuid_Failure); [|discriminate].
      unfold failureFromJSON, subscript, py_item.
      destruct (py_get (u_ "type") d) as [typeInfo|]; [|discriminate].
      cbn [bind]. destruct typeInfo as [| | | | | | |ti| | | |]; try discriminate.
      destruct (py_get (u_ "__name__") ti) as [name|]; [|discriminate].
      cbn [bind]. destruct name; discriminate.
Qed.

(** [eventFromJSON] never runs out of fuel: the [RecursionError] of the
    model is not among its results. *)
Lemma eventFromJSON_fuel (eventText : text) :
  eventFromJSON eventText <> Raise RecursionError.
Proof. apply loads_fuel_any. exact objectLoadHook_fuel. Qed.

(* ================================================================= *)
(** * Further properties of the code *)

(** ** The log file reader: what it lets out *)

Lemma fold_emit_last (records : list bytes) :
  records <> [] ->
  fold_right emit_record (emit_record (last records []) Stop) (removelast records)
  = fold_right emit_record Stop records.
Proof.
  intros H. rewrite (app_removelast_last [] H) at 3.
  rewrite fold_right_app. reflexivity.
Qed.

(** However the input is cut into reads that return data, the reader goes
    through the pieces between the separators of the whole input, one
    after another. *)
Lemma reader_pieces (reads : list bytes) :
  Forall (fun r => r <> []) reads ->
  eventsFromJSONLogFile reads
  = fold_right emit_record Stop (split_from [x1e] O [] (concat reads)).
Proof.
  intros H. unfold eventsFromJSONLogFile. destruct reads as [|a reads].
  - reflexivity.
  - inversion H as [|? ? Ha Hr]; subst.
    rewrite read_loop_concat by assumption. cbn [concat].
    destruct (a ++ concat reads) as [|x s] eqn:E.
    + apply List.app_eq_nil in E. tauto.
    + cbn [read_loop app]. apply fold_emit_last. apply split_from_not_nil.
Qed.

Lemma emit_record_no_line_feed (record : bytes) (k : gen emitted) :
  (forall p, record <> p ++ [x0a]) -> emit_record record k = k.
Proof.
  intros H. unfold emit_record, eventFromRecord.
  destruct (rev record) as [|c r] eqn:E; [reflexivity|].
  assert (Er : record = rev r ++ [c]).
  { rewrite <- (List.rev_involutive record), E. reflexivity. }
  destruct c; try reflexivity. exfalso. apply (H (rev r)). exact Er.
Qed.



(** A piece cut short after the last separator. *)
Lemma split_from_truncated (S partial : bytes) :
  ~ In x1e partial ->
  split_from [x1e] O [] (S ++ x1e :: partial)
  = split_from [x1e] O [] S ++ [partial].
Proof.
  intros Hp. rewrite split_from_app.
  rewrite split_from_record by (apply split_from_last_clean; simpl; tauto).
  rewrite (split_from_end x1e partial Hp).
  rewrite (app_removelast_last [] (split_from_not_nil x1e [] S)) at 3.
  rewrite <- List.app_assoc. reflexivity.
Qed.

(** X1: the reader does not see where one read ends and the next begins.
    Two runs whose reads all return data, and return the same bytes
    overall, let out the same events and reports in the same order and end
    the same way, in however many reads of whatever sizes the bytes
    come. *)
Theorem reader_ignores_read_boundaries (reads1 reads2 : list bytes) :
  Forall (fun r => r <> []) reads1 ->
  Forall (fun r => r <> []) reads2 ->
  concat reads1 = concat reads2 ->
  eventsFromJSONLogFile reads1 = eventsFromJSONLogFile reads2.
Proof.
  intros H1 H2 E. rewrite !reader_pieces by assumption. now rewrite E.
Qed.

Lemma reader_ignores_read_boundaries_witness :
  let S := wire_record body_x1 ++ wire_record body_bad ++ wire_record body_y2 in
  eventsFromJSONLogFile
    [firstn 3 S; firstn 9 (skipn 3 S); firstn 1 (skipn 12 S); skipn 13 S]
  = eventsFromJSONLogFile [firstn 20 S; skipn 20 S].
Proof.
  apply reader_ignores_read_boundaries.
  - repeat constructor; discriminate.
  - repeat constructor; discriminate.
  - reflexivity.
Defined.

(** X2: every event the reader yields is the decoding of a piece of the
    input between two separators, and every record it reports is such a
    piece, ends in a line feed, and is one [eventFromJSON] rejects with a
    [ValueError]: nothing is made up, and [None] is never yielded. *)
Theorem reader_lets_out_pieces_only (reads : list bytes) (x : emitted) :
  Forall (fun r => r <> []) reads ->
  In x (yielded (eventsFromJSONLogFile reads)) ->
  exists record,
    In record (split_from [x1e] O [] (concat reads)) /\
    match x with
    | Event event => eventFromJSON_bytes record = Ok event /\ event <> PyNone
    | Diagnostic r =>
        r = record /\ (exists body, record = body ++ [x0a]) /\
        eventFromJSON_bytes record = Raise ValueError
    end.
Proof.
  intros H. rewrite (reader_pieces reads H).
  induction (split_from [x1e] O [] (concat reads)) as [|p ps IH];
    cbn [fold_right]; [intros []|].
  intros Hx.
  assert (Hcase : In x (yielded (fold_right emit_record Stop ps)) \/
    match x with
    | Event event => eventFromJSON_bytes p = Ok event /\ event <> PyNone
    | Diagnostic r =>
        r = p /\ (exists body, p = body ++ [x0a]) /\
        eventFromJSON_bytes p = Raise ValueError
    end).
  { revert Hx. generalize (fold_right emit_record Stop ps). intros k.
    unfold emit_record, eventFromRecord.
    destruct (rev p) as [|c r] eqn:E; [now left|].
    assert (Ep : p = rev r ++ [c]).
    { rewrite <- (List.rev_involutive p), E. reflexivity. }
    destruct c; try (now left).
    destruct (eventFromJSON_bytes p) as [event|e] eqn:Ej.
    - cbn [fold_right].
      destruct event; cbn [yielded In];
        try (intros [<-|Hx]; [right; split; [reflexivity|discriminate]
                             | left; exact Hx]).
      now left.
    - destruct e; cbn [fold_right yielded In]; try (now intros []).
      intros [<-|Hx]; [right | left; exact Hx].
      split; [reflexivity|]. split; [now exists (rev r) | reflexivity]. }
  destruct Hcase as [Hin|Hp].
  - destruct (IH Hin) as (record & Hr & Hm).
    exists record. split; [now right | exact Hm].
  - exists p. split; [now left | exact Hp].
Qed.

Lemma reader_lets_out_pieces_only_witness :
  exists record,
    In record (split_from [x1e] O []
                 (concat [wire_record body_x1; wire_record body_bad])) /\
    body_bad ++ [x0a] = record /\ (exists body, record = body ++ [x0a]) /\
    eventFromJSON_bytes record = Raise ValueError.
Proof.
  apply (reader_lets_out_pieces_only
           [wire_record body_x1; wire_record body_bad]
           (Diagnostic (body_bad ++ [x0a]))).
  - repeat constructor; discriminate.
  - vm_compute. right. left. reflexivity.
Defined.

(** X3: the reader stops at the first read that returns nothing; what later
    reads would have returned is never looked at. *)
Theorem reader_stops_at_empty_read (reads later : list bytes) :
  eventsFromJSONLogFile (reads ++ [] :: later) = eventsFromJSONLogFile reads.
Proof.
  unfold eventsFromJSONLogFile.
  enough (H : forall buffer,
             read_loop (reads ++ [] :: later) buffer = read_loop reads buffer)
    by apply H.
  induction reads as [|a reads IH]; intros buffer; [reflexivity|].
  cbn [app read_loop]. destruct a as [|x a]; [reflexivity|].
  cbv zeta. rewrite IH. reflexivity.
Qed.

(** X4: a last record that was cut short, anywhere before its line feed,
    is dropped without a report; the records before it are read as if it
    were not there. *)
Theorem truncated_last_record_is_dropped (reads : list bytes) (S partial : bytes) :
  Forall (fun r => r <> []) reads ->
  concat reads = S ++ x1e :: partial ->
  ~ In x1e partial ->
  (forall p, partial <> p ++ [x0a]) ->
  eventsFromJSONLogFile reads = eventsFromJSONLogFile [S].
Proof.
  intros H E Hp Hlf. rewrite (reader_pieces reads H), E.
  rewrite split_from_truncated by exact Hp.
  rewrite fold_right_app. cbn [fold_right].
  rewrite (emit_record_no_line_feed partial Stop Hlf).
  destruct S as [|x S]; [reflexivity|].
  rewrite reader_pieces by (repeat constructor; discriminate).
  cbn [concat]. now rewrite List.app_nil_r.
Qed.

Lemma truncated_last_record_is_dropped_witness :
  eventsFromJSONLogFile
    [wire_record body_x1 ++ x1e :: firstn 4 body_y2; skipn 4 body_y2]
  = eventsFromJSONLogFile [wire_record body_x1].
Proof.
  apply (truncated_last_record_is_dropped _ (wire_record body_x1) body_y2).
  - repeat constructor; discriminate.
  - reflexivity.
  - vm_compute. intuition discriminate.
  - intros p. vm_compute. intros E.
    apply (f_equal (@rev byte)) in E. rewrite rev_app_distr in E. discriminate E.
Defined.

(** ** Failures saved, loaded and saved again *)

Lemma py_get_set_same (k : text) (v : pyobj) (d : pydict) :
  py_get k (py_set k v d) = Some v.
Proof.
  unfold py_get, py_set. induction d as [|[k0 v0] d IH]; cbn [dict_set dict_get].
  - cbn [key_eqb]. now rewrite text_eqb_refl.
  - destruct (key_eqb (PyStr k) k0) eqn:E; cbn [dict_get]; rewrite E;
      [reflexivity | exact IH].
Qed.

Lemma py_set_set (k : text) (v w : pyobj) (d : pydict) :
  py_set k v (py_set k w d) = py_set k v d.
Proof.
  unfold py_set. induction d as [|[k0 v0] d IH]; cbn [dict_set].
  - cbn [key_eqb]. now rewrite text_eqb_refl.
  - destruct (key_eqb (PyStr k) k0) eqn:E; cbn [dict_set]; rewrite E;
      [reflexivity | now rewrite IH].
Qed.

(** X5: a failure that was saved and loaded is saved as the very mapping
    it was loaded from: saving, loading and saving again gives what saving
    once gave. *)
Theorem failure_saved_twice_is_the_same (failure saved : pyobj) :
  failureAsJSON failure = Ok saved ->
  (loaded <- failureFromJSON saved ;; failureAsJSON loaded) = Ok saved.
Proof.
  unfold failureAsJSON at 1.
  destruct failure as [| | | | | | | | |state ty| |]; try discriminate.
  destruct ty as [| | | | | | | | | |name ns|]; try discriminate.
  cbn [type_module type_name].
  destruct (py_get (u_ "__module__") ns) as [m|]; [|discriminate].
  cbn [bind]. intros H. injection H as <-.
  unfold failureFromJSON. cbn [subscript]. unfold py_item.
  rewrite py_get_set_same. cbn [bind subscript].
  change (py_item (u_ "__name__")
            [(PyStr (u_ "__module__"), m); (PyStr (u_ "__name__"), PyStr name)])
    with (Ok (PyStr name)).
  cbn [bind type_new].
  change (py_has (u_ "__module__")
            [(PyStr (u_ "__module__"), m); (PyStr (u_ "__name__"), PyStr name)])
    with true.
  cbn [bind failureAsJSON type_module type_name].
  change (py_get (u_ "__module__")
            [(PyStr (u_ "__module__"), m); (PyStr (u_ "__name__"), PyStr name)])
    with (Some m).
  cbn [bind]. now rewrite !py_set_set.
Qed.

Lemma failure_saved_twice_is_the_same_witness :
  exists saved,
    failureAsJSON boom_failure = Ok saved /\
    (loaded <- failureFromJSON saved ;; failureAsJSON loaded) = Ok saved.
Proof.
  eexists. split; [reflexivity|].
  apply (failure_saved_twice_is_the_same boom_failure). reflexivity.
Defined.

(** ** What [eventAsJSON] can raise *)




(** ** Storable values written and read *)

(** A dictionary text is read to its closing brace, whatever follows, and
    what was read goes through the hook. *)
Lemma scan_dict_hook (m : nat) (d : pydict) (items : list text) (rest : text) :
  members (reads m) d items ->
  scan_once objectLoadHook (S m) (([123] ++ join [44; 32] items ++ [125]) ++ rest)
  = (o <- objectLoadHook (dict_of_items key_eqb d) ;; Ok (o, rest)).
Proof.
  intros Hm. rewrite <- !List.app_assoc. cbn [app scan_once].
  change (123 =? 34) with false. change (123 =? 123) with true. cbv iota.
  unfold JSONObject.
  destruct d as [|kv d].
  - inversion Hm; subst. reflexivity.
  - destruct (members_join_head _ _ _ (125 :: rest) Hm ltac:(discriminate))
      as (body & Hb).
    pose proof (members_length _ _ _ Hm) as Hlen.
    pose proof (join_length_items [44; 32] _ (members_nonempty _ _ _ Hm)) as Hj.
    assert (Hlk : (length (kv :: d) <= S (length (34%Z :: body)))%nat)
      by (rewrite <- Hb, length_app; lia).
    unfold text in *. rewrite Hb. cbn [skip_ws].
    change (is_ws 34) with false. cbv iota.
    change (34 =? 125) with false. change (34 =? 34) with true. cbv iota.
    rewrite (object_loop_members m (kv :: d) items Hm ltac:(discriminate)
               [] _ rest body Hlk Hb).
    reflexivity.
Qed.


Lemma loaded_back_keys (d : pydict) :
  map fst (map (fun kv => (fst kv, loaded_back (snd kv))) d) = map fst d.
Proof. rewrite map_map. apply map_ext. reflexivity. Qed.

Lemma loaded_back_native_keys (d : pydict) :
  forallb (fun kv => native_key (fst kv)) d = true ->
  forallb (fun kv => native_key (fst kv))
          (map (fun kv => (fst kv, loaded_back (snd kv))) d) = true.
Proof.
  induction d as [|[k v] d IH]; cbn [map forallb fst]; [reflexivity|].
  intros H. apply andb_true_iff in H. destruct H as [-> H]. now apply IH.
Qed.

Lemma loaded_back_distinct_keys (d : pydict) :
  distinct_keys (map (fun kv => (fst kv, loaded_back (snd kv))) d)
  = distinct_keys d.
Proof.
  induction d as [|[k v] d IH]; cbn [map distinct_keys fst]; [reflexivity|].
  now rewrite loaded_back_keys, IH.
Qed.

Lemma comes_back_list_reads (m : nat) (l : list pyobj) (items : list text) :
  Forall2 comes_back l items ->
  (length (join [44%Z; 32%Z] items) <= m)%nat ->
  Forall2 (reads m) (map loaded_back l) items.
Proof.
  intros H Hm.
  assert (Hin : forall t, In t items -> (length t <= m)%nat).
  { intros t Ht. pose proof (join_length_item [44; 32] items t Ht). lia. }
  clear Hm. induction H as [|x t l items Hx Hl IH]; cbn [map]; constructor.
  - apply Hx. apply Hin. now left.
  - apply IH. intros t' Ht'. apply Hin. now right.
Qed.

Lemma comes_back_dict_reads (m : nat) (d : pydict) (items : list text) :
  members comes_back d items ->
  (length (join [44%Z; 32%Z] items) <= m)%nat ->
  members (reads m) (map (fun kv => (fst kv, loaded_back (snd kv))) d) items.
Proof.
  intros H Hm.
  assert (Hin : forall t, In t items -> (length t <= m)%nat).
  { intros t Ht. pose proof (join_length_item [44; 32] items t Ht). lia. }
  clear Hm. induction H as [|k v t d items Hk Hv Hd IH]; cbn [map fst snd];
    constructor; try assumption.
  - apply Hv.
    pose proof (Hin _ (or_introl eq_refl)) as Hi. rewrite !length_app in Hi. lia.
  - apply IH. intros t' Ht'. apply Hin. now right.
Qed.

Lemma encode_items_members_text (enc : pyobj -> result text)
      (R : pyobj -> text -> Prop) (d : pydict) :
  (forall k v, In (k, v) d ->
               (exists s, k = PyStr s /\ text_ok s = true) /\
               exists t, enc v = Ok t /\ R v t) ->
  exists items, encode_items enc d = Ok items /\ members R d items.
Proof.
  induction d as [|[k v] d IH]; intros H.
  - exists []. split; [reflexivity | constructor].
  - destruct (H k v (or_introl eq_refl)) as ((s & -> & Hs) & t & Et & Ht).
    destruct IH as (items & Ei & Hi); [intros k' v' Hin; apply H; now right|].
    exists ((encode_basestring_ascii s ++ [58; 32] ++ t) :: items).
    split; [|now constructor].
    cbn [encode_items key_text]. rewrite Et. cbn [bind]. rewrite Ei. reflexivity.
Qed.

Lemma text_ok_charmap (b : bytes) : text_ok (map byte_code b) = true.
Proof.
  unfold text_ok. rewrite forallb_forall. intros c Hc.
  apply in_map_iff in Hc. destruct Hc as (x & <- & _).
  destruct x; reflexivity.
Qed.

(** Setting an entry of a dictionary with text keys. *)
Lemma py_get_set_other (k k' : text) (v : pyobj) (d : pydict) :
  text_eqb k k' = false -> py_get k (py_set k' v d) = py_get k d.
Proof.
  intros Hk. unfold py_get, py_set.
  induction d as [|[k0 v0] d IH]; cbn [dict_set dict_get].
  - cbn [key_eqb]. now rewrite Hk.
  - destruct (key_eqb (PyStr k') k0) eqn:E; cbn [dict_get].
    + destruct (key_eqb (PyStr k) k0) eqn:E'; [|reflexivity].
      destruct k0; try discriminate. cbn [key_eqb] in E, E'.
      apply text_eqb_eq in E, E'. subst. rewrite text_eqb_refl in Hk.
      discriminate.
    + now rewrite IH.
Qed.

Lemma py_set_entries (k : text) (v : pyobj) (d : pydict) (k' v' : pyobj) :
  In (k', v') (py_set k v d) -> (k' = PyStr k /\ v' = v) \/ In (k', v') d.
Proof.
  unfold py_set. induction d as [|[k0 v0] d IH]; cbn [dict_set].
  - intros [H|[]]. injection H as <- <-. now left.
  - destruct (key_eqb (PyStr k) k0) eqn:E.
    + intros [H|H]; [|right; now right]. injection H as <- <-. left.
      destruct k0; try discriminate. cbn [key_eqb] in E.
      apply text_eqb_eq in E. now subst.
    + intros [H|H]; [right; now left|].
      destruct (IH H); [now left | right; now right].
Qed.

Lemma loaded_back_py_set (k : text) (v : pyobj) (d : pydict) :
  map (fun kv => (fst kv, loaded_back (snd kv))) (py_set k v d)
  = py_set k (loaded_back v) (map (fun kv => (fst kv, loaded_back (snd kv))) d).
Proof.
  unfold py_set. induction d as [|[k0 v0] d IH]; cbn [dict_set map fst snd];
    [reflexivity|].
  destruct (key_eqb (PyStr k) k0); cbn [map fst snd]; [reflexivity|].
  now rewrite IH.
Qed.

Lemma py_set_other_keys (k : text) (v : pyobj) (d : pydict) (k0 : pyobj) :
  key_eqb k0 (PyStr k) = false ->
  existsb (key_eqb k0) (map fst (py_set k v d))
  = existsb (key_eqb k0) (map fst d).
Proof.
  intros Hk. unfold py_set.
  induction d as [|[k1 v1] d IH]; cbn [dict_set map fst existsb].
  - now rewrite Hk.
  - destruct (key_eqb (PyStr k) k1); cbn [map fst existsb]; [reflexivity|].
    now rewrite IH.
Qed.

Lemma distinct_keys_py_set (k : text) (v : pyobj) (d : pydict) :
  distinct_keys d = true -> distinct_keys (py_set k v d) = true.
Proof.
  induction d as [|[k0 v0] d IH]; [reflexivity|].
  cbn [distinct_keys]. intros H. apply andb_true_iff in H. destruct H as [H1 H2].
  unfold py_set. cbn [dict_set].
  destruct (key_eqb (PyStr k) k0) eqn:E; cbn [distinct_keys].
  - now rewrite H1, H2.
  - fold (py_set k v d). rewrite py_set_other_keys by now rewrite key_eqb_sym.
    rewrite H1. now apply IH.
Qed.

(** What the load hook makes of the mapping a failure was saved as. *)
Lemma objectLoadHook_failure (name : text) (m : pyobj) (st : pydict) :
  let info := [(PyStr (u_ "__module__"), m); (PyStr (u_ "__name__"), PyStr name)] in
  let saved := py_set class_uuid_key (PyStr (uuid_str uuid_Failure))
                      (py_set (u_ "type") (PyDict info) st) in
  objectLoadHook saved
  = Ok (PyFailure (py_set (u_ "type") (PyType name info) saved) (PyType name info)).
Proof.
  intros info saved.
  rewrite (objectLoadHook_tagged saved (PyStr (uuid_str uuid_Failure)))
    by apply py_get_set_same.
  replace (UUID (PyStr (uuid_str uuid_Failure))) with (Ok uuid_Failure)
    by (vm_compute; reflexivity).
  cbn [bind].
  replace (uuid_Failure =? uuid_LogLevel) with false by reflexivity.
  replace (uuid_Failure =? uuid_Failure) with true by reflexivity.
  unfold failureFromJSON. cbn [subscript]. unfold py_item, saved.
  rewrite py_get_set_other by reflexivity. rewrite py_get_set_same.
  cbn [bind subscript].
  change (py_item (u_ "__name__") info) with (Ok (PyStr name)).
  cbn [bind type_new].
  change (py_has (u_ "__module__") info) with true.
  reflexivity.
Qed.

Lemma comes_back_marker (n : nat) (o : pyobj) :
  (3 <= n)%nat ->
  default o = Ok (PyDict [(PyStr (u_ "unpersistable"), PyBool true)]) ->
  loaded_back o = PyDict [(PyStr (u_ "unpersistable"), PyBool true)] ->
  (forall n', iterencode default (S n') o = o' <- default o ;; iterencode default n' o') ->
  exists t, iterencode default n o = Ok t /\ comes_back o t.
Proof.
  intros Hn Hd Hl Hi.
  destruct n as [|[|[|n]]]; try lia.
  rewrite Hi, Hd. cbn [bind].
  eexists. split; [vm_compute; reflexivity|].
  unfold comes_back. rewrite Hl.
  intros [|[|m]] Hm; try (cbn [length] in Hm; lia).
  intros rest _. vm_compute. reflexivity.
Qed.

Lemma comes_back_LogLevel (n : nat) (l : LogLevel) :
  (3 <= n)%nat ->
  exists t, iterencode default n (PyLogLevel l) = Ok t /\
            comes_back (PyLogLevel l) t.
Proof.
  intros Hn. destruct n as [|[|[|n]]]; try lia.
  destruct l;
    (eexists; split; [vm_compute; reflexivity|];
     intros [|[|m]] Hm; try (cbn [length] in Hm; lia);
     intros rest _; vm_compute; reflexivity).
Qed.

Lemma comes_back_type_info (n : nat) (name m : text) :
  (2 <= n)%nat -> text_ok name = true -> text_ok m = true ->
  let info := PyDict [(PyStr (u_ "__module__"), PyStr m);
                      (PyStr (u_ "__name__"), PyStr name)] in
  exists t, iterencode default n info = Ok t /\ comes_back info t.
Proof.
  intros Hn Hname Hm info.
  assert (Hnat : native info = true).
  { unfold info. cbn [native forallb fst snd]. rewrite Hname, Hm. reflexivity. }
  destruct (native_read_back n info Hnat) as (t & Et & Hr & Hl);
    [cbn; lia|].
  exists t. split; [exact Et|]. intros k Hk.
  assert (E : loaded_back info = info) by reflexivity.
  rewrite E. apply Hr. lia.
Qed.

Lemma storable_comes_back_bounded (N : nat) :
  forall n o, (n <= N)%nat -> storable o = true -> (height o + 2 <= n)%nat ->
              exists t, iterencode default n o = Ok t /\ comes_back o t.
Proof.
  induction N as [|N IH]; intros n o Hn Hs Hh; [lia|].
  destruct n as [|n]; [lia|].
  assert (Hleaf : forall o' t,
             (forall m, reads (S m) (loaded_back o') t) -> t <> [] ->
             comes_back o' t).
  { intros o' t Hr Ht [|m] Hm; [|apply Hr].
    destruct t; [congruence | cbn [length] in Hm; lia]. }
  assert (Hitems : forall d : pydict,
             forallb (fun kv => native_key (fst kv) && storable (snd kv)) d = true ->
             (fold_right (fun kv m => Nat.max (height (snd kv)) m) O d + 2 <= n)%nat ->
             forall k v, In (k, v) d ->
               (exists s, k = PyStr s /\ text_ok s = true) /\
               exists t, iterencode default n v = Ok t /\ comes_back v t).
  { intros d Hd Hm k v Hin. rewrite forallb_forall in Hd. specialize (Hd _ Hin).
    cbn [fst snd] in Hd. apply andb_true_iff in Hd. destruct Hd as [Hkey Hv].
    split.
    - destruct k; try discriminate. cbn [native_key] in Hkey.
      apply andb_true_iff in Hkey. exists s. tauto.
    - apply IH; [lia | exact Hv |].
      pose proof (fold_max_in (fun kv => height (snd kv)) d (k, v) Hin) as Hf.
      cbn [snd] in Hf. lia. }
  destruct o as [|b|z|f|s|b|l|d|lv|state ty|name ns|id];
    cbn [storable] in Hs.
  - eexists. split; [reflexivity|].
    apply Hleaf; [intros m; apply reads_None | discriminate].
  - exists (if b then u_ "true" else u_ "false"). split; [now destruct b|].
    apply Hleaf; [intros m; apply reads_bool | now destruct b].
  - eexists. split; [reflexivity|].
    apply Hleaf; [intros m; apply reads_int|].
    destruct (reads_head 1 _ _ (reads_int O z)) as (c & t' & -> & _). discriminate.
  - eexists. split; [reflexivity|].
    apply Hleaf; [intros m; now apply reads_float|].
    destruct (reads_head 1 _ _ (reads_float O f Hs)) as (c & t' & -> & _).
    discriminate.
  - eexists. split; [reflexivity|].
    apply Hleaf; [intros m; now apply reads_str | discriminate].
  - cbn [iterencode default bind]. cbn [height] in Hh.
    destruct n as [|n]; [lia|]. eexists. split; [reflexivity|].
    apply Hleaf; [|discriminate].
    intros m. cbn [loaded_back]. apply reads_str. apply text_ok_charmap.
  - cbn [height] in Hh. cbn [iterencode].
    destruct (map_result_Forall2 (iterencode default n) comes_back l)
      as (items & Ei & Hi).
    { intros x Hin. apply IH.
      - lia.
      - rewrite forallb_forall in Hs. now apply Hs.
      - pose proof (fold_max_in height l x Hin). lia. }
    rewrite Ei. cbn [bind]. eexists. split; [reflexivity|].
    intros [|m] Hm; [cbn [app length] in Hm; lia|]. cbn [loaded_back].
    apply reads_list. apply comes_back_list_reads; [exact Hi|].
    rewrite !length_app in Hm. cbn [length] in Hm. unfold text in *. lia.
  - cbn [height] in Hh. cbn [iterencode].
    apply andb_true_iff in Hs. destruct Hs as [Hs Hd].
    assert (Hk : forallb (fun kv => native_key (fst kv)) d = true).
    { rewrite forallb_forall in Hs |- *. intros kv Hin. specialize (Hs kv Hin).
      apply andb_true_iff in Hs. tauto. }
    destruct (encode_items_members_text (iterencode default n) comes_back d)
      as (items & Ei & Hi); [apply Hitems; [exact Hs | lia]|].
    rewrite Ei. cbn [bind]. eexists. split; [reflexivity|].
    intros [|m] Hm; [cbn [app length] in Hm; lia|]. cbn [loaded_back].
    apply reads_dict.
    + apply comes_back_dict_reads; [exact Hi|].
      rewrite !length_app in Hm. cbn [length] in Hm. unfold text in *. lia.
    + now apply loaded_back_native_keys.
    + now rewrite loaded_back_distinct_keys.
  - apply comes_back_LogLevel. cbn [height] in Hh. lia.
  - destruct ty as [| | | | | | | | | |name ns|]; try discriminate.
    destruct (py_get (u_ "__module__") ns) as [[| | | |mo| | | | | | |]|] eqn:Em;
      try (rewrite andb_false_r in Hs; discriminate).
    apply andb_true_iff in Hs. destruct Hs as [Hs Hd].
    apply andb_true_iff in Hs. destruct Hs as [Hs Hst].
    apply andb_true_iff in Hs. destruct Hs as [Hname Hmo].
    cbn [height] in Hh.
    set (info := [(PyStr (u_ "__module__"), PyStr mo);
                  (PyStr (u_ "__name__"), PyStr name)]).
    set (saved := py_set class_uuid_key (PyStr (uuid_str uuid_Failure))
                         (py_set (u_ "type") (PyDict info) state)).
    assert (Edef : default (PyFailure state (PyType name ns)) = Ok (PyDict saved)).
    { unfold default, objectSaveHook, classInfo.
      cbn [objectSaveHook_from predicate saver uuid].
      unfold failureAsJSON. cbn [type_module type_name]. rewrite Em.
      reflexivity. }
    cbn [iterencode]. rewrite Edef. cbn [bind].
    destruct n as [|n]; [lia|]. cbn [iterencode].
    destruct (encode_items_members_text (iterencode default n) comes_back saved)
      as (items & Ei & Hi).
    { intros k v Hin. apply py_set_entries in Hin.
      destruct Hin as [[-> ->]|Hin].
      { split; [eexists; split; reflexivity|].
        destruct n as [|n]; [lia|]. eexists. split; [reflexivity|].
        apply Hleaf; [|discriminate]. intros m. apply reads_str. reflexivity. }
      apply py_set_entries in Hin. destruct Hin as [[-> ->]|Hin].
      { split; [eexists; split; reflexivity|].
        apply comes_back_type_info; [lia | exact Hname | exact Hmo]. }
      rewrite forallb_forall in Hst. specialize (Hst _ Hin).
      cbn [fst snd] in Hst. apply andb_true_iff in Hst. destruct Hst as [Hkey Hv].
      split.
      - destruct k; try discriminate. cbn [native_key] in Hkey.
        apply andb_true_iff in Hkey. exists s. tauto.
      - apply IH; [lia | exact Hv |].
        pose proof (fold_max_in (fun kv => height (snd kv)) state (k, v) Hin) as Hf.
        cbn [snd] in Hf. lia. }
    rewrite Ei. cbn [bind]. eexists. split; [reflexivity|].
    intros [|m] Hm; [cbn [app length] in Hm; lia|].
    intros rest _.
    rewrite (scan_dict_hook m
               (map (fun kv => (fst kv, loaded_back (snd kv))) saved) items).
    2:{ apply comes_back_dict_reads; [exact Hi|].
        rewrite !length_app in Hm. cbn [length] in Hm. unfold text in *. lia. }
    rewrite dict_of_items_distinct.
    2:{ rewrite loaded_back_distinct_keys. unfold saved.
        now apply distinct_keys_py_set, distinct_keys_py_set. }
    unfold saved. rewrite !loaded_back_py_set.
    assert (El : loaded_back (PyDict info) = PyDict info) by reflexivity.
    rewrite El. cbn [loaded_back]. unfold type_info. rewrite Em.
    fold info. rewrite (objectLoadHook_failure name (PyStr mo)). reflexivity.
  - apply comes_back_marker; try reflexivity. cbn [height] in Hh. lia.
  - apply comes_back_marker; try reflexivity. cbn [height] in Hh. lia.
Qed.

Lemma storable_comes_back (n : nat) (o : pyobj) :
  storable o = true -> (height o + 2 <= n)%nat ->
  exists t, iterencode default n o = Ok t /\ comes_back o t.
Proof. apply (storable_comes_back_bounded n). apply Nat.le_refl. Qed.




(** ** The records of the observer, written and read *)

Lemma byte_code_byte_of (c : Z) : 0 <= c < 256 -> byte_code (byte_of c) = c.
Proof.
  intros Hc. unfold byte_code, byte_of.
  destruct (Byte.of_N (Z.to_N c)) as [b|] eqn:E.
  - apply Byte.to_of_N in E. rewrite E. lia.
  - apply Byte.of_N_None_iff in E. lia.
Qed.













(** ** The in-memory checker *)

Section InMemoryFacts.
Import InMemoryUsernamePasswordDatabaseDontUse.

(** X9: [addUser] sets the password a login as that user is checked
    against, whether the user was there before or not, and changes
    nothing for a login under any other name. *)
Theorem addUser_then_requestAvatarId
        (self : t) (user password : bytes) (c : credentials.t) :
  requestAvatarId (addUser self user password) c =
  if bytes_eqb (credentials.username c) user
  then matched <- credentials.checkPassword c password ;;
       _cbPasswordMatch matched (credentials.username c)
  else requestAvatarId self c.
Proof.
  unfold requestAvatarId, addUser. rewrite dict_get_set.
  destruct (bytes_eqb (credentials.username c) user); reflexivity.
Qed.

Lemma fold_dict_set_other (items d0 : list (bytes * bytes)) (k : bytes) :
  ~ In k (map fst items) ->
  dict_get bytes_eqb k
    (fold_left (fun d kv => dict_set bytes_eqb (fst kv) (snd kv) d) items d0)
  = dict_get bytes_eqb k d0.
Proof.
  revert d0. induction items as [|[k1 v1] items IH]; intros d0 H; [reflexivity|].
  cbn [fold_left fst snd]. cbn [map fst In] in H.
  rewrite IH by tauto. rewrite dict_get_set.
  destruct (bytes_eqb k k1) eqn:E; [|reflexivity].
  apply bytes_eqb_eq in E. subst. tauto.
Qed.

Lemma dict_of_items_lookup (items : list (bytes * bytes)) (k v : bytes) :
  NoDup (map fst items) -> In (k, v) items ->
  dict_get bytes_eqb k (dict_of_items bytes_eqb items) = Some v.
Proof.
  unfold dict_of_items. generalize (@nil (bytes * bytes)) as d0.
  induction items as [|[k1 v1] items IH]; intros d0 Hn Hin; [destruct Hin|].
  cbn [map fst] in Hn. inversion Hn as [|? ? Hk Hn']; subst.
  cbn [fold_left fst snd]. destruct Hin as [H|H].
  - injection H as -> ->. rewrite fold_dict_set_other by exact Hk.
    rewrite dict_get_set, bytes_eqb_refl. reflexivity.
  - now apply IH.
Qed.

Lemma ascii_encode_ascii (x : text) :
  Forall (fun ch => 0 <= ch < 128) x -> ascii_encode x = Ok (map byte_of x).
Proof.
  unfold ascii_encode. induction 1 as [|ch x Hc _ IH]; [reflexivity|].
  cbn [map_result map]. destruct (Z.leb_spec 0 ch); [|lia].
  destruct (Z.ltb_spec ch 128); [|lia]. cbn [andb bind]. rewrite IH. reflexivity.
Qed.

Lemma byte_of_injective (x y : text) :
  Forall (fun ch => 0 <= ch < 128) x -> Forall (fun ch => 0 <= ch < 128) y ->
  map byte_of x = map byte_of y -> x = y.
Proof.
  intros Hx Hy E. apply (f_equal (map byte_code)) in E.
  rewrite !map_map in E.
  rewrite (map_ext_in _ (fun c => c)) in E.
  2:{ intros ch Hin. rewrite Forall_forall in Hx.
      apply byte_code_byte_of. specialize (Hx ch Hin). lia. }
  rewrite (map_ext_in _ (fun c => c) y) in E.
  2:{ intros ch Hin. rewrite Forall_forall in Hy.
      apply byte_code_byte_of. specialize (Hy ch Hin). lia. }
  now rewrite !map_id in E.
Qed.

Lemma seeded_items (users : list (text * bytes)) :
  Forall (fun xy => Forall (fun ch => 0 <= ch < 128) (fst xy)) users ->
  map_result (fun xy => x <- ascii_encode (fst xy) ;; Ok (x, snd xy)) users
  = Ok (map (fun xy => (map byte_of (fst xy), snd xy)) users).
Proof.
  induction 1 as [|[x y] users Hx _ IH]; [reflexivity|].
  cbn [map_result map fst snd]. cbn [fst] in Hx.
  rewrite ascii_encode_ascii by exact Hx. cbn [bind]. rewrite IH. reflexivity.
Qed.

Lemma seeded_keys_NoDup (users : list (text * bytes)) :
  Forall (fun xy => Forall (fun ch => 0 <= ch < 128) (fst xy)) users ->
  NoDup (map fst users) ->
  NoDup (map fst (map (fun xy => (map byte_of (fst xy), snd xy)) users)).
Proof.
  induction 1 as [|[x y] users Hx Hu IH]; cbn [map fst]; intros Hn;
    [constructor|].
  inversion Hn as [|? ? Hnotin Hn']; subst. constructor; [|now apply IH].
  intros Hin. apply Hnotin. rewrite map_map in Hin. cbn [fst] in Hin.
  apply in_map_iff in Hin. destruct Hin as ([x' y'] & E & Hin'). cbn [fst] in E.
  apply in_map_iff. exists (x', y'). split; [|exact Hin']. cbn [fst].
  rewrite Forall_forall in Hu. apply byte_of_injective; [| |exact E].
  - apply (Hu (x', y') Hin').
  - exact Hx.
Qed.

(** X10: every user the database is seeded with can log in.  When the
    names given as keywords are ASCII (and distinct, as keywords are),
    [__init__] makes a database in which a login under the bytes of any of
    the names is checked against the password given with that name. *)
Theorem seeded_user_is_checked
        (users : list (text * bytes)) (name : text) (password : bytes) :
  Forall (fun xy => Forall (fun ch => 0 <= ch < 128) (fst xy)) users ->
  NoDup (map fst users) ->
  In (name, password) users ->
  exists db, __init__ users = Ok db /\
    forall c, credentials.username c = map byte_of name ->
      requestAvatarId db c =
      (matched <- credentials.checkPassword c password ;;
       _cbPasswordMatch matched (credentials.username c)).
Proof.
  intros Ha Hn Hin. unfold __init__. rewrite seeded_items by exact Ha.
  cbn [bind]. eexists. split; [reflexivity|]. intros c Hc.
  unfold requestAvatarId. rewrite Hc.
  rewrite (dict_of_items_lookup _ (map byte_of name) password).
  - reflexivity.
  - now apply seeded_keys_NoDup.
  - apply in_map_iff. exists (name, password). split; [reflexivity | exact Hin].
Qed.

Lemma seeded_user_is_checked_witness :
  exists db,
    __init__ [(u_ "user1", b_ "sesame"); (u_ "user2", b_ "hunter2")] = Ok db /\
    forall c, credentials.username c = map byte_of (u_ "user2") ->
      requestAvatarId db c =
      (matched <- credentials.checkPassword c (b_ "hunter2") ;;
       _cbPasswordMatch matched (credentials.username c)).
Proof.
  apply (seeded_user_is_checked
           [(u_ "user1", b_ "sesame"); (u_ "user2", b_ "hunter2")]
           (u_ "user2") (b_ "hunter2")).
  - repeat constructor; vm_compute; intuition discriminate.
  - repeat constructor; cbn; intuition discriminate.
  - right. left. reflexivity.
Defined.

End InMemoryFacts.

(** ** The file checker: which line counts, and the cache *)

Section FilePasswordDBMore.
Import FilePasswordDB.

Lemma first_match_name (k : bytes) (g : gen (bytes * bytes)) (u p : bytes) :
  first_match k g = Ok (u, p) -> u = k.
Proof.
  induction g as [|[u0 p0] g IH|e]; cbn [first_match]; try discriminate.
  destruct (bytes_eqb u0 k) eqn:E; [|exact IH].
  intros H. injection H as <- _. now apply bytes_eqb_eq.
Qed.

Lemma first_match_first (k : bytes) (g : gen (bytes * bytes)) (p : bytes) :
  outcome g = None ->
  (first_match k g = Ok (k, p) <->
   exists l1 l2, yielded g = l1 ++ (k, p) :: l2 /\ ~ In k (map fst l1)).
Proof.
  induction g as [|[u0 p0] g IH|e]; cbn [first_match outcome yielded];
    intros Ho; try discriminate.
  - split; [discriminate|]. intros (l1 & l2 & E & _). destruct l1; discriminate.
  - destruct (bytes_eqb u0 k) eqn:E.
    + apply bytes_eqb_eq in E. subst u0. split.
      * intros H. injection H as ->. exists [], (yielded g).
        split; [reflexivity | intros []].
      * intros (l1 & l2 & El & Hn). destruct l1 as [|[u1 p1] l1].
        -- injection El as -> _. reflexivity.
        -- injection El as <- _ _. exfalso. apply Hn. now left.
    + rewrite (IH Ho). split.
      * intros (l1 & l2 & El & Hn). exists ((u0, p0) :: l1), l2.
        split; [now rewrite El|]. cbn [map fst In]. intros [->|H]; [|tauto].
        rewrite bytes_eqb_refl in E. discriminate.
      * intros (l1 & l2 & El & Hn). destruct l1 as [|[u1 p1] l1].
        -- injection El as -> _ _. rewrite bytes_eqb_refl in E. discriminate.
        -- injection El as _ _ El. exists l1, l2. split; [exact El|].
           intros H. apply Hn. now right.
Qed.

Lemma dict_of_gen_last (g : gen (bytes * bytes)) :
  outcome g = None -> forall d0 d, dict_of_gen g d0 = Ok d ->
  forall k p,
    dict_get bytes_eqb k d = Some p <->
    (exists l1 l2, yielded g = l1 ++ (k, p) :: l2 /\ ~ In k (map fst l2)) \/
    (~ In k (map fst (yielded g)) /\ dict_get bytes_eqb k d0 = Some p).
Proof.
  induction g as [|[u0 p0] g IH|e]; cbn [dict_of_gen outcome yielded];
    intros Ho d0 d Hd k p; try discriminate.
  - injection Hd as <-. split.
    + intros H. right. split; [intros [] | exact H].
    + intros [(l1 & l2 & E & _)|[_ H]]; [destruct l1; discriminate | exact H].
  - rewrite (IH Ho _ _ Hd k p). rewrite dict_get_set. cbn [map fst In]. split.
    + intros [(l1 & l2 & E & Hn)|[Hn H]].
      * left. exists ((u0, p0) :: l1), l2. split; [now rewrite E | exact Hn].
      * destruct (bytes_eqb k u0) eqn:Ek.
        -- apply bytes_eqb_eq in Ek. subst u0. injection H as ->.
           left. exists [], (yielded g). split; [reflexivity | exact Hn].
        -- right. split; [|exact H]. intros [->|Hin]; [|tauto].
           rewrite bytes_eqb_refl in Ek. discriminate.
    + intros [(l1 & l2 & E & Hn)|[Hn H]].
      * destruct l1 as [|[u1 p1] l1].
        -- injection E as -> -> <-. right. split; [exact Hn|].
           now rewrite bytes_eqb_refl.
        -- injection E as _ _ E. left. exists l1, l2. tauto.
      * right. split; [tauto|].
        destruct (bytes_eqb k u0) eqn:Ek; [|exact H].
        apply bytes_eqb_eq in Ek. subst u0. tauto.
Qed.

(** X11: which line counts when a user name comes more than once.
    Without the cache [getUser] returns the password of the first entry
    the file yields for the name; with the cache, of the last. *)
Theorem getUser_first_or_last_entry
        (self : t) (f : file) (username p : bytes) :
  delim self <> [] -> 0 <= ufield self -> 0 <= pfield self ->
  _credCache self = None ->
  let entries := yielded (_loadCredentials self (Some f)) in
  let canonical := if caseSensitive self then username else lower username in
  fst (getUser self (Some f) username) = Ok (canonical, p) <->
  exists l1 l2, entries = l1 ++ (canonical, p) :: l2 /\
                ~ In canonical (map fst (if cache self then l2 else l1)).
Proof.
  intros Hd Hu Hp Hc entries canonical.
  destruct (load_lines_total self (readlines (data f)) Hd Hu Hp) as [Ho _].
  unfold getUser. fold canonical. destruct (cache self).
  - rewrite Hc. cbn [_loadCredentials] in entries |- *.
    destruct (dict_of_gen_spec _ Ho []) as (d & Ed & _). rewrite Ed.
    cbn [_credCache].
    pose proof (dict_of_gen_last _ Ho [] d Ed canonical p) as H.
    destruct (dict_get bytes_eqb canonical d) as [p'|] eqn:E; cbn [fst].
    + split.
      * intros H'. injection H' as ->.
        destruct (proj1 H eq_refl) as [E'|[_ E']]; [exact E' | discriminate E'].
      * intros H'. assert (E' : Some p' = Some p) by (apply H; now left).
        now injection E' as ->.
    + split; [discriminate|]. intros H'.
      assert (E' : None = Some p) by (apply H; now left). discriminate E'.
  - cbn [fst]. apply first_match_first. exact Ho.
Qed.

Lemma getUser_first_or_last_entry_witness :
  fst (getUser (__init__ (b_ ":") 0 1 true true) (Some (two_alice_file 5))
               (b_ "alice")) = Ok (b_ "alice", b_ "last") /\
  fst (getUser (__init__ (b_ ":") 0 1 true false) (Some (two_alice_file 5))
               (b_ "alice")) = Ok (b_ "alice", b_ "first").
Proof.
  split.
  - apply (getUser_first_or_last_entry (__init__ (b_ ":") 0 1 true true));
      [discriminate | cbn; lia | cbn; lia | reflexivity |].
    exists [(b_ "alice", b_ "first"); (b_ "bob", b_ "pw")], [].
    split; [reflexivity | intros []].
  - apply (getUser_first_or_last_entry (__init__ (b_ ":") 0 1 true false));
      [discriminate | cbn; lia | cbn; lia | reflexivity |].
    exists [], [(b_ "bob", b_ "pw"); (b_ "alice", b_ "last")].
    split; [reflexivity | intros []].
Defined.

End FilePasswordDBMore.

(** ** The file checker: logging in *)

Section FilePasswordDBLogin.
Import FilePasswordDB.

Lemma load_lines_config (self self' : t) (lines : list bytes) :
  delim self' = delim self -> ufield self' = ufield self ->
  pfield self' = pfield self -> caseSensitive self' = caseSensitive self ->
  load_lines self' lines = load_lines self lines.
Proof.
  intros Hd Hu Hp Hc. induction lines as [|line lines IH]; [reflexivity|].
  cbn [load_lines]. rewrite Hd, Hu, Hp, Hc, IH. reflexivity.
Qed.

Lemma getUser_outcome (self : t) (f : file) (username : bytes) :
  delim self <> [] -> 0 <= ufield self -> 0 <= pfield self ->
  _credCache self = None ->
  let entries := yielded (_loadCredentials self (Some f)) in
  let canonical := if caseSensitive self then username else lower username in
  (fst (getUser self (Some f) username) = Raise KeyError /\
   ~ In canonical (map fst entries)) \/
  (exists p, fst (getUser self (Some f) username) = Ok (canonical, p) /\
             In (canonical, p) entries).
Proof.
  intros Hd Hu Hp Hc entries canonical.
  destruct (load_lines_total self (readlines (data f)) Hd Hu Hp) as [Ho _].
  unfold getUser. fold canonical. destruct (cache self).
  - rewrite Hc. cbn [_loadCredentials] in entries |- *.
    destruct (dict_of_gen_spec _ Ho []) as (d & Ed & Hk). rewrite Ed.
    cbn [_credCache]. destruct (Hk canonical) as [Hnone Hsome].
    destruct (dict_get bytes_eqb canonical d) as [p|] eqn:E; cbn [fst].
    + right. exists p. split; [reflexivity|].
      destruct (Hsome p eq_refl) as [H|H]; [discriminate H | exact H].
    + left. split; [reflexivity|]. now apply Hnone.
  - cbn [fst]. exact (first_match_spec canonical _ Ho).
Qed.



(** X13: logging in against a file of hashed passwords.  With a hash
    function, the call returns a [Deferred] and raises nothing; the
    [Deferred] succeeds only with the canonical user name, and only when
    the credentials carry a plain password whose hash, taken with the
    user name as the credentials give it and the stored password, equals
    the stored password of an entry for the name.  Credentials without a
    plain password are refused, and [checkPassword] is never consulted. *)
Theorem FilePasswordDB_login_hashed
        (self : t) (hash : bytes -> bytes -> bytes -> bytes)
        (f : file) (c : credentials.t) :
  delim self <> [] -> 0 <= ufield self -> 0 <= pfield self ->
  _credCache self = None ->
  let entries := yielded (_loadCredentials self (Some f)) in
  let canonical := if caseSensitive self then credentials.username c
                   else lower (credentials.username c) in
  exists d,
    fst (FilePasswordDB_requestAvatarId self (Some hash) (Some f) c) = Ok d /\
    (credentials.password c = None -> d = Raise UnauthorizedLogin) /\
    (forall a, d = Ok a ->
               a = canonical /\
               exists p password,
                 In (canonical, p) entries /\
                 credentials.password c = Some password /\
                 hash (credentials.username c) password p = p) /\
    (forall c', credentials.username c' = credentials.username c ->
                credentials.password c' = credentials.password c ->
                FilePasswordDB_requestAvatarId self (Some hash) (Some f) c'
                = FilePasswordDB_requestAvatarId self (Some hash) (Some f) c).
Proof.
  intros Hd Hu Hp Hc entries canonical.
  pose proof (getUser_outcome self f (credentials.username c) Hd Hu Hp Hc) as H.
  cbv zeta in H. fold entries canonical in H.
  assert (Hsame : forall c', credentials.username c' = credentials.username c ->
                credentials.password c' = credentials.password c ->
                FilePasswordDB_requestAvatarId self (Some hash) (Some f) c'
                = FilePasswordDB_requestAvatarId self (Some hash) (Some f) c).
  { intros c' Eu Ep. unfold FilePasswordDB_requestAvatarId. now rewrite Eu, Ep. }
  unfold FilePasswordDB_requestAvatarId at 1.
  destruct (getUser self (Some f) (credentials.username c)) as [r self'].
  cbn [fst] in H. destruct H as [[-> Hn]|(p & -> & Hin)].
  - eexists. split; [reflexivity|]. split; [reflexivity|].
    split; [discriminate | exact Hsame].
  - eexists. split; [reflexivity|].
    destruct (credentials.password c) as [password|].
    + split; [discriminate|]. split; [|exact Hsame]. intros a Ha.
      destruct (bytes_eqb (hash (credentials.username c) password p) p) eqn:E;
        [|discriminate Ha].
      injection Ha as <-. split; [reflexivity|]. exists p, password.
      split; [exact Hin|]. split; [reflexivity|]. now apply bytes_eqb_eq.
    + split; [reflexivity|]. split; [discriminate | exact Hsame].
Qed.

Lemma FilePasswordDB_login_hashed_witness :
  let self := __init__ (b_ ":") 0 1 true false in
  let c := plain_credentials (b_ "alice") (b_ "terces") in
  exists d,
    fst (FilePasswordDB_requestAvatarId self (Some (fun _ pw _ => rev pw))
                                        (Some (alice_file 3)) c) = Ok d /\
    (credentials.password c = None -> d = Raise UnauthorizedLogin) /\
    (forall a, d = Ok a ->
               a = b_ "alice" /\
               exists p password,
                 In (b_ "alice", p)
                    (yielded (_loadCredentials self (Some (alice_file 3)))) /\
                 credentials.password c = Some password /\
                 rev password = p) /\
    (forall c', credentials.username c' = credentials.username c ->
                credentials.password c' = credentials.password c ->
                FilePasswordDB_requestAvatarId self (Some (fun _ pw _ => rev pw))
                                               (Some (alice_file 3)) c'
                = FilePasswordDB_requestAvatarId self
                    (Some (fun _ pw _ => rev pw)) (Some (alice_file 3)) c).
Proof.
  apply (FilePasswordDB_login_hashed (__init__ (b_ ":") 0 1 true false)
           (fun _ pw _ => rev pw) (alice_file 3)
           (plain_credentials (b_ "alice") (b_ "terces")));
    [discriminate | cbn; lia | cbn; lia | reflexivity].
Defined.

(** X14: when there is no file to open, the exception leaves
    [requestAvatarId] itself, whatever the credentials are: the
    [UnauthorizedLogin] of [_loadCredentials] without the cache, the
    [OSError] of [os.path.getmtime] with it.  Only a [KeyError] is turned
    into a [Deferred] that fails. *)
Theorem missing_file_leaves_requestAvatarId
        (self : t) (hash : option (bytes -> bytes -> bytes -> bytes))
        (c : credentials.t) :
  fst (FilePasswordDB_requestAvatarId self hash None c)
  = Raise (if cache self then OSError else UnauthorizedLogin).
Proof.
  unfold FilePasswordDB_requestAvatarId, getUser.
  destruct (cache self); reflexivity.
Qed.

(** X15: the cache is loaded again only for a file that is newer.  After
    a first lookup has filled the cache from the file as it was, a lookup
    answers from the file as it is now when its modification time is later
    than at the first lookup, and otherwise from the file as it was then,
    whatever it holds now. *)
Theorem cache_is_reloaded_for_a_newer_file_only
        (self : t) (f1 f2 : file) (first username : bytes) :
  delim self <> [] -> 0 <= ufield self -> 0 <= pfield self ->
  cache self = true -> _credCache self = None ->
  let self1 := snd (getUser self (Some f1) first) in
  fst (getUser self1 (Some f2) username)
  = fst (getUser self (Some (if mtime f1 <? mtime f2 then f2 else f1)) username).
Proof.
  intros Hd Hu Hp Hca Hc self1.
  destruct (load_lines_total self (readlines (data f1)) Hd Hu Hp) as [Ho1 _].
  destruct (load_lines_total self (readlines (data f2)) Hd Hu Hp) as [Ho2 _].
  destruct (dict_of_gen_spec _ Ho1 []) as (d1 & Ed1 & _).
  destruct (dict_of_gen_spec _ Ho2 []) as (d2 & Ed2 & _).
  assert (E1 : self1 =
               {| delim := delim self; ufield := ufield self;
                  pfield := pfield self; caseSensitive := caseSensitive self;
                  cache := cache self; _credCache := Some d1;
                  _cacheTimestamp := mtime f1 |}).
  { unfold self1, getUser. rewrite Hca, Hc. cbn [_loadCredentials].
    rewrite Ed1. cbn [_credCache].
    destruct (dict_get bytes_eqb _ d1); reflexivity. }
  rewrite E1. unfold getUser at 1.
  cbn [cache caseSensitive _credCache _cacheTimestamp delim ufield pfield].
  rewrite Hca.
  destruct (mtime f1 <? mtime f2).
  - cbn [_loadCredentials].
    rewrite (load_lines_config self) by reflexivity. rewrite Ed2.
    unfold getUser. rewrite Hca, Hc. cbn [_loadCredentials]. rewrite Ed2.
    cbn [_credCache].
    destruct (dict_get bytes_eqb _ d2); reflexivity.
  - cbn [_credCache]. unfold getUser. rewrite Hca, Hc.
    cbn [_loadCredentials]. rewrite Ed1. cbn [_credCache].
    destruct (dict_get bytes_eqb _ d1); reflexivity.
Qed.

Lemma cache_is_reloaded_for_a_newer_file_only_witness :
  let self := __init__ (b_ ":") 0 1 true true in
  let self1 := snd (getUser self (Some (alice_file 7)) (b_ "bob")) in
  fst (getUser self1 (Some (two_alice_file 7)) (b_ "alice"))
  = fst (getUser self
           (Some (if mtime (alice_file 7) <? mtime (two_alice_file 7)
                  then two_alice_file 7 else alice_file 7)) (b_ "alice")).
Proof.
  apply (cache_is_reloaded_for_a_newer_file_only
           (__init__ (b_ ":") 0 1 true true) (alice_file 7) (two_alice_file 7));
    [discriminate | cbn; lia | cbn; lia | reflexivity | reflexivity].
Defined.

End FilePasswordDBLogin.

(** ** The log file reader: what ends it *)





(** ** The file checker: names without case *)

Section FilePasswordDBCase.
Import FilePasswordDB.

Lemma lower_byte_idempotent (c : byte) : lower_byte (lower_byte c) = lower_byte c.
Proof. destruct c; reflexivity. Qed.

Lemma lower_idempotent (s : bytes) : lower (lower s) = lower s.
Proof.
  unfold lower. rewrite map_map. apply map_ext. apply lower_byte_idempotent.
Qed.

Lemma load_lines_lower (self : t) (lines : list bytes) (u p : bytes) :
  caseSensitive self = false ->
  In (u, p) (yielded (load_lines self lines)) -> lower u = u.
Proof.
  intros Hc. induction lines as [|line lines IH]; cbn [load_lines yielded];
    [intros []|].
  destruct (split (rstrip line) (delim self)) as [parts|e]; [|intros []].
  cbv zeta.
  destruct ((Z.of_nat (length parts) <=? ufield self)
            || (Z.of_nat (length parts) <=? pfield self)); [exact IH|].
  destruct (getitem parts (ufield self)) as [u0|e]; [|intros []].
  destruct (getitem parts (pfield self)) as [p0|e]; [|intros []].
  rewrite Hc. cbn [yielded In]. intros [H|H]; [|now apply IH].
  injection H as <- _. apply lower_idempotent.
Qed.

(** X17: a database that is not case sensitive ignores the case of the
    name asked for and answers with names in lower case: two requests
    whose names differ in the case of ASCII letters only have the same
    result and leave the object the same, the name returned is the
    requested one lowered, and every entry read from the file has its name
    lowered, so that the case of the names in the file does not count
    either. *)
Theorem names_without_case
        (self : t) (fs : option file) (username : bytes) :
  caseSensitive self = false ->
  (forall other, lower other = lower username ->
                 getUser self fs other = getUser self fs username) /\
  (forall u p, fst (getUser self fs username) = Ok (u, p) ->
               u = lower username) /\
  (forall u p, In (u, p) (yielded (_loadCredentials self fs)) -> lower u = u).
Proof.
  intros Hc. split; [|split].
  - intros other E. unfold getUser. rewrite Hc, E. reflexivity.
  - intros u p. unfold getUser. rewrite Hc. destruct (cache self).
    + destruct fs as [f|]; [|discriminate].
      match goal with
      | |- fst (match ?r with _ => _ end) = _ -> _ =>
          destruct r as [[e|] self']
      end; [discriminate|].
      destruct (_credCache self') as [d|]; [|discriminate].
      destruct (dict_get bytes_eqb (lower username) d); [|discriminate].
      cbn [fst]. intros H. now injection H as <- _.
    + cbn [fst]. apply first_match_name.
  - intros u p. destruct fs as [f|]; [|intros []].
    cbn [_loadCredentials]. now apply load_lines_lower.
Qed.

Lemma names_without_case_witness :
  let self := __init__ (b_ ":") 0 1 false true in
  let fs := Some {| mtime := 1; data := b_ "Alice:secret" ++ [x0a] |} in
  (forall other, lower other = lower (b_ "ALICE") ->
                 getUser self fs other = getUser self fs (b_ "ALICE")) /\
  (forall u p, fst (getUser self fs (b_ "ALICE")) = Ok (u, p) ->
               u = lower (b_ "ALICE")) /\
  (forall u p, In (u, p) (yielded (_loadCredentials self fs)) -> lower u = u).
Proof.
  apply (names_without_case (__init__ (b_ ":") 0 1 false true)).
  reflexivity.
Defined.

End FilePasswordDBCase.

(** ** Writing again what was read *)

Lemma map_result_more {A B : Type} (f g : A -> result B) (l : list A) :
  (forall x, In x l -> f x <> Raise RecursionError -> g x = f x) ->
  map_result f l <> Raise RecursionError ->
  map_result g l = map_result f l.
Proof.
  induction l as [|x l IH]; intros H Hr; [reflexivity|].
  cbn [map_result] in Hr |- *.
  destruct (f x) as [y|e] eqn:Ef.
  - rewrite (H x (or_introl eq_refl)) by (rewrite Ef; discriminate).
    rewrite Ef. cbn [bind] in Hr |- *.
    rewrite IH; [reflexivity | intros x' Hin; apply H; now right |].
    intros E. rewrite E in Hr. now apply Hr.
  - rewrite (H x (or_introl eq_refl)) by (rewrite Ef; cbn [bind] in Hr; congruence).
    now rewrite Ef.
Qed.

Lemma encode_items_more (f g : pyobj -> result text) (d : pydict) :
  (forall k v, In (k, v) d -> f v <> Raise RecursionError -> g v = f v) ->
  encode_items f d <> Raise RecursionError ->
  encode_items g d = encode_items f d.
Proof.
  induction d as [|[k v] d IH]; intros H Hr; [reflexivity|].
  cbn [encode_items] in Hr |- *.
  assert (Hd : forall k' v', In (k', v') d -> f v' <> Raise RecursionError ->
                             g v' = f v')
    by (intros k' v' Hin; apply (H k'); now right).
  destruct (key_text k); [|now apply IH].
  destruct (f v) as [y|e] eqn:Ef.
  - rewrite (H k v (or_introl eq_refl)) by (rewrite Ef; discriminate).
    rewrite Ef. cbn [bind] in Hr |- *.
    rewrite IH; [reflexivity | exact Hd |].
    intros E. rewrite E in Hr. now apply Hr.
  - assert (He : e <> RecursionError)
      by (intros ->; cbn [bind] in Hr; now apply Hr).
    rewrite (H k v (or_introl eq_refl)) by (rewrite Ef; congruence).
    now rewrite Ef.
Qed.

(** More fuel does not change a result that is not the lack of fuel. *)
Lemma iterencode_more (dflt : pyobj -> result pyobj) (n : nat) :
  forall o n', (n <= n')%nat ->
               iterencode dflt n o <> Raise RecursionError ->
               iterencode dflt n' o = iterencode dflt n o.
Proof.
  induction n as [|n IH]; intros o n' Hn Hr; [now contradiction Hr|].
  destruct n' as [|n']; [lia|].
  assert (Hrec : forall o', iterencode dflt n o' <> Raise RecursionError ->
                            iterencode dflt n' o' = iterencode dflt n o')
    by (intros o'; apply IH; lia).
  assert (Hdef : (o' <- dflt o ;; iterencode dflt n o') <> Raise RecursionError ->
                 (o' <- dflt o ;; iterencode dflt n' o')
                 = (o' <- dflt o ;; iterencode dflt n o')).
  { destruct (dflt o) as [o'|e]; cbn [bind]; [apply Hrec | reflexivity]. }
  destruct o; cbn [iterencode] in Hr |- *; try reflexivity; try (now apply Hdef).
  - rewrite (map_result_more (iterencode dflt n) (iterencode dflt n') l);
      [reflexivity | intros x _; apply Hrec |].
    intros E. rewrite E in Hr. now apply Hr.
  - rewrite (encode_items_more (iterencode dflt n) (iterencode dflt n') d);
      [reflexivity | intros k v _; apply Hrec |].
    intros E. rewrite E in Hr. now apply Hr.
Qed.

Lemma map_result_map {A B C : Type} (f : B -> result C) (g : A -> B) (l : list A) :
  map_result f (map g l) = map_result (fun x => f (g x)) l.
Proof.
  induction l as [|x l IH]; [reflexivity|]. cbn [map map_result]. now rewrite IH.
Qed.

Lemma map_result_ext_in {A B : Type} (f g : A -> result B) (l : list A) :
  (forall x, In x l -> f x = g x) -> map_result f l = map_result g l.
Proof.
  induction l as [|x l IH]; intros H; [reflexivity|]. cbn [map_result].
  rewrite (H x (or_introl eq_refl)), IH; [reflexivity|].
  intros x' Hin. apply H. now right.
Qed.

Lemma encode_items_loaded_back (enc : pyobj -> result text) (d : pydict) :
  (forall k v, In (k, v) d -> enc (loaded_back v) = enc v) ->
  encode_items enc (map (fun kv => (fst kv, loaded_back (snd kv))) d)
  = encode_items enc d.
Proof.
  induction d as [|[k v] d IH]; intros H; [reflexivity|].
  cbn [map encode_items fst snd].
  rewrite (H k v (or_introl eq_refl)), IH; [reflexivity|].
  intros k' v' Hin. apply (H k'). now right.
Qed.

Lemma py_set_already (k : text) (v : pyobj) (d : pydict) :
  py_get k d = Some v -> py_set k v d = d.
Proof.
  unfold py_get, py_set. induction d as [|[k0 v0] d IH]; cbn [dict_get dict_set];
    [discriminate|].
  destruct (key_eqb (PyStr k) k0).
  - intros H. now injection H as ->.
  - intros H. now rewrite IH.
Qed.

Lemma loaded_back_same_text (N : nat) :
  forall n o, (n <= N)%nat -> storable o = true -> (height o + 2 <= n)%nat ->
              iterencode default n (loaded_back o) = iterencode default n o.
Proof.
  induction N as [|N IH]; intros n o Hn Hs Hh; [lia|].
  destruct n as [|n]; [lia|].
  assert (Hmarker :
            (2 <= n)%nat ->
            iterencode default (S n)
                       (PyDict [(PyStr (u_ "unpersistable"), PyBool true)])
            = iterencode default n
                         (PyDict [(PyStr (u_ "unpersistable"), PyBool true)])).
  { intros H. destruct n as [|[|n]]; try lia. reflexivity. }
  destruct o as [|b|z|f|s|b|l|d|lv|state ty|name ns|id];
    cbn [storable] in Hs; try reflexivity.
  - cbn [loaded_back iterencode default bind]. cbn [height] in Hh.
    destruct n as [|n]; [lia | reflexivity].
  - cbn [loaded_back iterencode]. rewrite map_result_map.
    rewrite (map_result_ext_in _ (iterencode default n) l); [reflexivity|].
    intros x Hin. apply IH; [lia | |].
    + rewrite forallb_forall in Hs. now apply Hs.
    + cbn [height] in Hh. pose proof (fold_max_in height l x Hin). lia.
  - cbn [loaded_back iterencode].
    apply andb_true_iff in Hs. destruct Hs as [Hs _].
    rewrite encode_items_loaded_back; [reflexivity|].
    intros k v Hin. apply IH; [lia | |].
    + rewrite forallb_forall in Hs. specialize (Hs _ Hin).
      apply andb_true_iff in Hs. tauto.
    + cbn [height] in Hh.
      pose proof (fold_max_in (fun kv => height (snd kv)) d (k, v) Hin) as Hf.
      cbn [snd] in Hf. lia.
  - destruct ty as [| | | | | | | | | |name ns|]; try discriminate.
    destruct (py_get (u_ "__module__") ns) as [[| | | |mo| | | | | | |]|] eqn:Em;
      try (rewrite andb_false_r in Hs; discriminate).
    apply andb_true_iff in Hs. destruct Hs as [Hs _].
    apply andb_true_iff in Hs. destruct Hs as [_ Hst].
    cbn [height] in Hh.
    set (info := [(PyStr (u_ "__module__"), PyStr mo);
                  (PyStr (u_ "__name__"), PyStr name)]).
    set (saved := py_set class_uuid_key (PyStr (uuid_str uuid_Failure))
                         (py_set (u_ "type") (PyDict info) state)).
    assert (Edef : default (PyFailure state (PyType name ns)) = Ok (PyDict saved)).
    { unfold default, objectSaveHook, classInfo.
      cbn [objectSaveHook_from predicate saver uuid].
      unfold failureAsJSON. cbn [type_module type_name]. rewrite Em.
      reflexivity. }
    assert (Eback : default (loaded_back (PyFailure state (PyType name ns)))
                    = Ok (PyDict (map (fun kv => (fst kv, loaded_back (snd kv)))
                                      saved))).
    { cbn [loaded_back]. unfold type_info. rewrite Em. fold info.
      unfold default, objectSaveHook, classInfo.
      cbn [objectSaveHook_from predicate saver uuid].
      unfold failureAsJSON. cbn [type_module type_name].
      change (py_get (u_ "__module__") info) with (Some (PyStr mo)).
      cbn [bind]. rewrite py_set_set. unfold saved.
      rewrite !loaded_back_py_set.
      assert (El : loaded_back (PyDict info) = PyDict info) by reflexivity.
      rewrite El. cbn [loaded_back].
      rewrite (py_set_already (u_ "type"))
        by (rewrite py_get_set_other by reflexivity; apply py_get_set_same).
      rewrite (py_set_already class_uuid_key) by apply py_get_set_same.
      reflexivity. }
    assert (Ef : forall k, iterencode default (S k)
                             (loaded_back (PyFailure state (PyType name ns)))
                           = o' <- default (loaded_back
                                              (PyFailure state (PyType name ns))) ;;
                             iterencode default k o').
    { intros k. cbn [loaded_back]. reflexivity. }
    rewrite Ef, Eback. cbn [iterencode]. rewrite Edef. cbn [bind].
    destruct n as [|n]; [lia|]. cbn [iterencode].
    rewrite encode_items_loaded_back; [reflexivity|].
    intros k v Hin. apply py_set_entries in Hin.
    destruct Hin as [[-> ->]|Hin]; [reflexivity|].
    apply py_set_entries in Hin. destruct Hin as [[-> ->]|Hin]; [reflexivity|].
    apply IH; [lia | |].
    + rewrite forallb_forall in Hst. specialize (Hst _ Hin).
      apply andb_true_iff in Hst. tauto.
    + pose proof (fold_max_in (fun kv => height (snd kv)) state (k, v) Hin) as Hf.
      cbn [snd] in Hf. lia.
  - cbn [loaded_back]. rewrite Hmarker by (cbn [height] in Hh; lia). reflexivity.
  - cbn [loaded_back]. rewrite Hmarker by (cbn [height] in Hh; lia). reflexivity.
Qed.

(** X18: writing again what was read gives the text that was read.  For
    an event of storable values, the event as it comes back from
    [eventFromJSON] is written by [eventAsJSON] as the very text the event
    itself was written as, when [flattenEvent] leaves both as they are:
    one pass through the codec changes [bytes], failures and unknown
    objects, a second pass changes nothing more. *)
Theorem text_of_what_was_read_back
        (fl : pyobj -> result pyobj) (event : pyobj) :
  fl event = Ok event ->
  fl (loaded_back event) = Ok (loaded_back event) ->
  storable event = true ->
  eventAsJSON fl (loaded_back event) = eventAsJSON fl event.
Proof.
  intros Hfl Hfl' Hs. unfold eventAsJSON. rewrite Hfl, Hfl'. cbn [bind].
  unfold dumps.
  set (n1 := S (S (height (loaded_back event)))).
  set (n2 := S (S (height event))).
  destruct (storable_comes_back n2 event Hs ltac:(unfold n2; lia)) as (t & Et & _).
  rewrite Et.
  assert (E2 : iterencode default (Nat.max n1 n2) event = Ok t).
  { rewrite (iterencode_more default n2); [exact Et | lia |].
    rewrite Et. discriminate. }
  rewrite <- (loaded_back_same_text (Nat.max n1 n2)) in E2;
    [|apply Nat.le_refl | exact Hs | unfold n2; lia].
  rewrite <- E2. symmetry. apply iterencode_more; [lia|].
  apply (iterencode_fuel n1); [apply Nat.le_refl | unfold n1; lia].
Qed.

Lemma text_of_what_was_read_back_witness :
  eventAsJSON (fun o => Ok o) (loaded_back failure_event)
  = eventAsJSON (fun o => Ok o) failure_event.
Proof.
  apply (text_of_what_was_read_back (fun o => Ok o) failure_event);
    reflexivity.
Defined.

(** ** The file checker: a file written line by line *)

Section FilePasswordDBLines.
Import FilePasswordDB.

Lemma readlines_from_line (l rest cur : bytes) :
  ~ In x0a l ->
  readlines_from cur (l ++ x0a :: rest)
  = (rev cur ++ l ++ [x0a]) :: readlines_from [] rest.
Proof.
  revert cur. induction l as [|b l IH]; intros cur Hl.
  - cbn [app readlines_from]. cbn [Byte.eqb]. cbn [rev]. reflexivity.
  - cbn [app readlines_from].
    destruct (Byte.eqb b x0a) eqn:E.
    + apply Byte.byte_dec_bl in E. subst b. exfalso. apply Hl. now left.
    + rewrite IH by (intros H; apply Hl; now right).
      cbn [rev]. rewrite <- List.app_assoc. reflexivity.
Qed.

Lemma readlines_written (lines : list bytes) :
  Forall (fun l => ~ In x0a l) lines ->
  readlines (concat (map (fun l => l ++ [x0a]) lines))
  = map (fun l => l ++ [x0a]) lines.
Proof.
  unfold readlines. induction 1 as [|l lines Hl _ IH]; [reflexivity|].
  cbn [map concat]. rewrite <- List.app_assoc. cbn [app].
  rewrite readlines_from_line by exact Hl. cbn [rev app]. now rewrite IH.
Qed.

Lemma lstrip_unchanged (s : bytes) :
  match s with [] => True | b :: _ => is_space b = false end -> lstrip s = s.
Proof. destruct s as [|b s]; [reflexivity|]. cbn [lstrip]. now intros ->. Qed.

Lemma rstrip_line (s : bytes) :
  (forall s' b, s = s' ++ [b] -> is_space b = false) ->
  rstrip (s ++ [x0a]) = s.
Proof.
  intros H. unfold rstrip. rewrite rev_app_distr. cbn [rev app lstrip is_space].
  rewrite lstrip_unchanged; [apply List.rev_involutive|].
  destruct (rev s) as [|b r] eqn:E; [exact I|].
  apply (H (rev r)). rewrite <- (List.rev_involutive s), E. reflexivity.
Qed.

Lemma load_lines_written (self : t) (c : byte) (users : list (bytes * bytes)) :
  delim self = [c] -> is_space c = false ->
  ufield self = 0 -> pfield self = 1 -> caseSensitive self = true ->
  Forall (fun up => ~ In c (fst up) /\ ~ In c (snd up) /\
                    forall s b, snd up = s ++ [b] -> is_space b = false)
         users ->
  load_lines self (map (fun up => (fst up ++ c :: snd up) ++ [x0a]) users)
  = fold_right (fun up g => Yield up g) Stop users.
Proof.
  intros Hd Hc Hu Hp Hcs.
  induction 1 as [|[u p] users (Hcu & Hcp & Hend) _ IH]; [reflexivity|].
  cbn [map fold_right fst snd] in *. cbn [load_lines].
  rewrite rstrip_line.
  - rewrite Hd, Hu, Hp, Hcs. cbn [split].
    rewrite (split_from_record c u p Hcu), (split_from_end c p Hcp).
    cbn [length Z.of_nat]. cbn. rewrite IH. reflexivity.
  - intros s b E. destruct p as [|b0 p] using rev_ind.
    + change (u ++ [c]) with (u ++ [c]) in E.
      apply app_inj_tail in E. destruct E as [_ <-]. exact Hc.
    + clear IHp. change (u ++ c :: p ++ [b0]) with (u ++ (c :: p) ++ [b0]) in E.
      rewrite List.app_assoc in E. apply app_inj_tail in E.
      destruct E as [_ <-]. now apply (Hend p).
Qed.

Lemma written_file_lines (c : byte) (users : list (bytes * bytes)) :
  c <> x0a ->
  Forall (fun up => ~ In x0a (fst up) /\ ~ In x0a (snd up)) users ->
  readlines (concat (map (fun up => (fst up ++ c :: snd up) ++ [x0a]) users))
  = map (fun up => (fst up ++ c :: snd up) ++ [x0a]) users.
Proof.
  intros Hnl H.
  rewrite <- (map_map (fun up => fst up ++ c :: snd up) (fun l => l ++ [x0a])).
  rewrite readlines_written; [reflexivity|].
  rewrite Forall_forall in H |- *. intros l Hin. apply in_map_iff in Hin.
  destruct Hin as (up & <- & Hup). destruct (H up Hup) as (H3 & H4).
  intros Hl. apply in_app_or in Hl. destruct Hl as [Hl|[Hl|Hl]]; tauto.
Qed.

(** X19: a password file written one user to a line is read as it was
    written.  With a delimiter of one byte that is not white space, the
    user name in the first field and the password in the second, and case
    kept: when no name and no password holds the delimiter or a line feed
    and no password ends in white space, [_loadCredentials] yields, for
    the file of the lines [name delimiter password], exactly the names
    with their passwords, in the order of the lines, and raises
    nothing. *)
Theorem loadCredentials_of_written_file
        (self : t) (c : byte) (users : list (bytes * bytes)) (mt : Z) :
  delim self = [c] -> is_space c = false ->
  ufield self = 0 -> pfield self = 1 -> caseSensitive self = true ->
  Forall (fun up => ~ In c (fst up) /\ ~ In c (snd up) /\
                    ~ In x0a (fst up) /\ ~ In x0a (snd up) /\
                    forall s b, snd up = s ++ [b] -> is_space b = false)
         users ->
  _loadCredentials self
    (Some {| mtime := mt;
             data := concat (map (fun up => (fst up ++ c :: snd up) ++ [x0a])
                                 users) |})
  = fold_right (fun up g => Yield up g) Stop users.
Proof.
  intros Hd Hc Hu Hp Hcs H. cbn [_loadCredentials data].
  rewrite written_file_lines.
  - apply (load_lines_written self c); try assumption.
    revert H. apply Forall_impl. intros up (H1 & H2 & _ & _ & H5). tauto.
  - intros ->. discriminate Hc.
  - revert H. apply Forall_impl. tauto.
Qed.

Lemma loadCredentials_of_written_file_witness :
  _loadCredentials FilePasswordDB.default
    (Some {| mtime := 9;
             data := concat (map (fun up => (fst up ++ x3a :: snd up) ++ [x0a])
                                 [(b_ "alice", b_ "secret"); (b_ "bob", [])]) |})
  = Yield (b_ "alice", b_ "secret") (Yield (b_ "bob", []) Stop).
Proof.
  apply (loadCredentials_of_written_file FilePasswordDB.default x3a
           [(b_ "alice", b_ "secret"); (b_ "bob", [])] 9);
    try reflexivity.
  repeat constructor; cbn; try (intuition discriminate);
    intros s b E; apply (f_equal (@rev byte)) in E;
    rewrite rev_app_distr in E; cbn in E; try discriminate;
    injection E as <- _; reflexivity.
Defined.


Lemma yielded_fold_Yield {A : Type} (l : list A) :
  yielded (fold_right (fun a g => Yield a g) Stop l) = l.
Proof. induction l as [|a l IH]; [reflexivity|]. cbn. now rewrite IH. Qed.

Lemma NoDup_keys_unique {K V : Type} (l : list (K * V)) (k : K) (v v' : V) :
  NoDup (map fst l) -> In (k, v) l -> In (k, v') l -> v = v'.
Proof.
  induction l as [|[k0 v0] l IH]; intros Hn H1 H2; [destruct H1|].
  cbn [map fst] in Hn. inversion Hn as [|? ? Hk Hn']; subst.
  destruct H1 as [H1|H1], H2 as [H2|H2].
  - congruence.
  - injection H1 as -> ->. exfalso. apply Hk. apply in_map_iff.
    exists (k, v'). split; [reflexivity | exact H2].
  - injection H2 as -> ->. exfalso. apply Hk. apply in_map_iff.
    exists (k, v). split; [reflexivity | exact H1].
  - now apply IH.
Qed.

(** X20: logging in against a file written one user to a line, each name
    once.  With the file and the settings as above, no hash function and
    nothing cached yet, with the cache or without: a login under a name
    of the file is decided by [checkPassword] on the password written
    with that name, and the avatar is the name; a login under any other
    name fails with [UnauthorizedLogin]; and no exception leaves
    [requestAvatarId]. *)
Theorem login_against_written_file
        (self : t) (c : byte) (users : list (bytes * bytes)) (mt : Z) :
  delim self = [c] -> is_space c = false ->
  ufield self = 0 -> pfield self = 1 -> caseSensitive self = true ->
  _credCache self = None ->
  Forall (fun up => ~ In c (fst up) /\ ~ In c (snd up) /\
                    ~ In x0a (fst up) /\ ~ In x0a (snd up) /\
                    forall s b, snd up = s ++ [b] -> is_space b = false)
         users ->
  NoDup (map fst users) ->
  let fs := Some {| mtime := mt;
                    data := concat (map (fun up => (fst up ++ c :: snd up)
                                                   ++ [x0a]) users) |} in
  (forall cr p,
      In (credentials.username cr, p) users ->
      fst (FilePasswordDB_requestAvatarId self None fs cr)
      = Ok (matched <- credentials.checkPassword cr p ;;
            FilePasswordDB__cbPasswordMatch matched (credentials.username cr)))
  /\
  (forall cr,
      ~ In (credentials.username cr) (map fst users) ->
      fst (FilePasswordDB_requestAvatarId self None fs cr)
      = Ok (Raise UnauthorizedLogin)).
Proof.
  intros Hd Hc Hu Hp Hcs Hca H Hn fs.
  assert (He : yielded (_loadCredentials self fs) = users).
  { unfold fs. cbn [_loadCredentials data]. rewrite written_file_lines.
    - rewrite (load_lines_written self c); try assumption.
      + apply yielded_fold_Yield.
      + revert H. apply Forall_impl. intros up (H1 & H2 & _ & _ & H5). tauto.
    - intros ->. discriminate Hc.
    - revert H. apply Forall_impl. tauto. }
  assert (Hout : forall cr,
    (fst (getUser self fs (credentials.username cr)) = Raise KeyError /\
     ~ In (credentials.username cr) (map fst users)) \/
    (exists p, fst (getUser self fs (credentials.username cr))
               = Ok (credentials.username cr, p) /\
               In (credentials.username cr, p) users)).
  { intros cr.
    pose proof (getUser_outcome self
                  {| mtime := mt;
                     data := concat (map (fun up => (fst up ++ c :: snd up)
                                                    ++ [x0a]) users) |}
                  (credentials.username cr)) as Ho.
    cbv zeta in Ho. fold fs in Ho. rewrite He, Hcs in Ho.
    apply Ho; [rewrite Hd; discriminate | lia | lia | exact Hca]. }
  split.
  - intros cr p Hin. unfold FilePasswordDB_requestAvatarId.
    destruct (Hout cr) as [[_ Hno]|(p' & Eg & Hin')].
    + exfalso. apply Hno. apply in_map_iff.
      exists (credentials.username cr, p). split; [reflexivity | exact Hin].
    + destruct (getUser self fs (credentials.username cr)) as [r self'].
      cbn [fst] in Eg. subst r. cbn [fst].
      rewrite (NoDup_keys_unique users _ p p' Hn Hin Hin'). reflexivity.
  - intros cr Hno. unfold FilePasswordDB_requestAvatarId.
    destruct (Hout cr) as [[Eg _]|(p' & _ & Hin')].
    + destruct (getUser self fs (credentials.username cr)) as [r self'].
      cbn [fst] in Eg. subst r. reflexivity.
    + exfalso. apply Hno. apply in_map_iff.
      exists (credentials.username cr, p'). split; [reflexivity | exact Hin'].
Qed.

Lemma login_against_written_file_witness :
  let users := [(b_ "alice", b_ "secret"); (b_ "bob", b_ "hunter2")] in
  let fs := Some {| mtime := 4;
                    data := concat (map (fun up => (fst up ++ x3a :: snd up)
                                                   ++ [x0a]) users) |} in
  let self := __init__ (b_ ":") 0 1 true true in
  (forall cr p,
      In (credentials.username cr, p) users ->
      fst (FilePasswordDB_requestAvatarId self None fs cr)
      = Ok (matched <- credentials.checkPassword cr p ;;
            FilePasswordDB__cbPasswordMatch matched (credentials.username cr)))
  /\
  (forall cr,
      ~ In (credentials.username cr) (map fst users) ->
      fst (FilePasswordDB_requestAvatarId self None fs cr)
      = Ok (Raise UnauthorizedLogin)).
Proof.
  apply (login_against_written_file (__init__ (b_ ":") 0 1 true true) x3a
           [(b_ "alice", b_ "secret"); (b_ "bob", b_ "hunter2")] 4);
    try reflexivity.
  - repeat constructor; cbn; try (intuition discriminate);
      intros s b E; apply (f_equal (@rev byte)) in E;
      rewrite rev_app_distr in E; cbn in E; try discriminate;
      injection E as <- _; reflexivity.
  - repeat constructor; cbn; intuition discriminate.
Defined.

End FilePasswordDBLines.
